(** * The entity-access methods of the database mixin

    A shallow embedding of the service methods of the mixin (adapter
    registry, parameter sanitizer, scope engine, resolve / update /
    replace / remove, find / count / create / clear) and the properties
    of its specification.

    Conventions of the embedding:
    - a JavaScript value is a [Value]; an object used as a record or as a
      dictionary is a [gmap string Value]; a missing property reads as
      [VUndefined];
    - numbers are the integer fragment of the doubles together with [NaN]:
      [Int z] stands for the double [z], which is exact for [z] within
      2^53 of zero ([is_safe]); the negative zero, the fractions and the
      infinities have no counterpart. [Number()] on a string is modelled
      on the strings of [in_number_fragment] (white space, signed decimal
      integer literals, and strings that are no numeric literal), and the
      arithmetic where its result is exact ([offset_exact]); the theorems
      about the value of a number carry these conditions as hypotheses;
    - a property is looked up among the own properties of an object; the
      names of the members of [Object.prototype] are outside the
      embedding where a dictionary is indexed by a name from the caller
      ([Object_prototype_names]);
    - a synchronous function that can throw returns a [Result];
    - an [async] method is a state-passing function on a [World] that
      returns an [Outcome]: it returns, throws, or is still pending when
      the reconnect loop has used the fuel it was given. *)

From Stdlib Require Import ZArith Ascii String Lia.
From stdpp Require Import gmap strings list fin_maps pretty.

Set Warnings "-register-all".
#[local] Open Scope string_scope.
#[local] Open Scope list_scope.
#[local] Open Scope Z_scope.

(** ** JavaScript values *)

Inductive Num : Type :=
| NaN
| Int (z : Z).

Inductive Value : Type :=
| VUndefined
| VNull
| VBool (b : bool)
| VNum (n : Num)
| VStr (s : string)
| VArr (l : list Value)
| VObj (o : gmap string Value).

Abbreviation Obj := (gmap string Value).

(** [o.k] and [o[k]] on an object: a missing property reads as undefined. *)
Definition get (o : Obj) (k : string) : Value :=
  match o !! k with
  | Some v => v
  | None => VUndefined
  end.

(** The errors the methods throw or pass through. *)
Inductive Error : Type :=
| MissingId (params : Obj)          (* MoleculerClientError "Missing id field." 400 MISSING_ID *)
| EntityNotFound (id : Value)       (* EntityNotFoundError(id) *)
| ValidationFailed (info : Value)   (* thrown by validateParams *)
| ConnectionFailed (info : Value)   (* rejection of adapter.connect() *)
| AdapterFailed (info : Value)      (* rejection of any other adapter method *)
| SyntaxError                       (* JSON.parse on malformed text *)
| TypeError.                        (* property access on null / undefined, call of a non-function *)

Inductive Result (A : Type) : Type :=
| Ok (a : A)
| Err (e : Error).
Arguments Ok {A} a.
Arguments Err {A} e.

(** ** Coercions of the language *)

Definition is_ws (a : ascii) : bool :=
  let n := nat_of_ascii a in
  (n =? 32)%nat || (n =? 9)%nat || (n =? 10)%nat || (n =? 11)%nat || (n =? 12)%nat ||
  (n =? 13)%nat.

Fixpoint ltrim (s : string) : string :=
  match s with
  | EmptyString => EmptyString
  | String a s' => if is_ws a then ltrim s' else s
  end.

Fixpoint rtrim (s : string) : string :=
  match s with
  | EmptyString => EmptyString
  | String a s' =>
      match rtrim s' with
      | EmptyString => if is_ws a then EmptyString else String a EmptyString
      | r => String a r
      end
  end.

Definition digit_of (a : ascii) : option Z :=
  let n := Z.of_nat (nat_of_ascii a) in
  if (48 <=? n) && (n <=? 57) then Some (n - 48) else None.

Fixpoint digits (acc : Z) (s : string) : option Z :=
  match s with
  | EmptyString => Some acc
  | String a s' =>
      match digit_of a with
      | Some d => digits (10 * acc + d) s'
      | None => None
      end
  end.

Definition unsigned_literal (s : string) : option Z :=
  match s with
  | EmptyString => None
  | _ => digits 0 s
  end.

(** [Number(s)] on a string: surrounding white space is dropped, the empty
    string is 0, a signed decimal integer literal is its value, the rest
    is NaN. This is the language's [Number()] on the strings of
    [in_number_fragment] below; on a literal with a fraction, an exponent
    or a radix prefix, on [Infinity], on [-0] and on literals beyond 2^53
    the language gives a number that [Num] does not have. *)
Definition Number_of_string (s : string) : Num :=
  match rtrim (ltrim s) with
  | EmptyString => Int 0
  | String a r as t =>
      if (nat_of_ascii a =? 45)%nat then
        match unsigned_literal r with Some z => Int (- z) | None => NaN end
      else if (nat_of_ascii a =? 43)%nat then
        match unsigned_literal r with Some z => Int z | None => NaN end
      else
        match unsigned_literal t with Some z => Int z | None => NaN end
  end.

Definition String_of_num (n : Num) : string :=
  match n with
  | NaN => "NaN"
  | Int z => pretty z
  end.

Fixpoint join_comma (l : list string) : string :=
  match l with
  | [] => ""
  | [s] => s
  | s :: rest => (s ++ "," ++ join_comma rest)%string
  end.

(** [String(v)], also the conversion of a value to a property key. *)
Fixpoint toString (v : Value) : string :=
  match v with
  | VUndefined => "undefined"
  | VNull => "null"
  | VBool true => "true"
  | VBool false => "false"
  | VNum n => String_of_num n
  | VStr s => s
  | VArr l =>
      join_comma
        (List.map (fun x => match x with
                            | VUndefined | VNull => ""
                            | _ => toString x
                            end) l)
  | VObj _ => "[object Object]"
  end.

(** [Number(v)], the conversion the arithmetic and relational operators
    apply to their operands. *)
Definition toNumber (v : Value) : Num :=
  match v with
  | VUndefined => NaN
  | VNull => Int 0
  | VBool true => Int 1
  | VBool false => Int 0
  | VNum n => n
  | VStr s => Number_of_string s
  | VArr _ => Number_of_string (toString v)
  | VObj _ => NaN
  end.

(** Truthiness: what [if (v)] and [!v] test. *)
Definition toBoolean (v : Value) : bool :=
  match v with
  | VUndefined | VNull => false
  | VBool b => b
  | VNum NaN => false
  | VNum (Int z) => negb (z =? 0)
  | VStr s => match s with EmptyString => false | _ => true end
  | VArr _ | VObj _ => true
  end.

Definition num_sub (a b : Num) : Num :=
  match a, b with
  | Int x, Int y => Int (x - y)
  | _, _ => NaN
  end.

Definition num_mul (a b : Num) : Num :=
  match a, b with
  | Int x, Int y => Int (x * y)
  | _, _ => NaN
  end.

(** [v > m] against a number [m]: numeric comparison, false on NaN. *)
Definition js_gt (v : Value) (m : Z) : bool :=
  match toNumber v with
  | Int z => m <? z
  | NaN => false
  end.

(** The integers that a double holds exactly and that add and multiply
    exactly while the result stays in the range. *)
Definition is_safe (z : Z) : bool := (- 2 ^ 53 <=? z) && (z <=? 2 ^ 53).






(** The values whose conversion to a property key is [toString]: an
    integer prints in decimal digits within the safe range. An array is
    left out, as above. *)
Definition key_like (v : Value) : bool :=
  match v with
  | VNum (Int z) => is_safe z
  | VArr _ => false
  | _ => true
  end.


(** [s.replace(/,/g, " ")] *)
Fixpoint replace_commas (s : string) : string :=
  match s with
  | EmptyString => EmptyString
  | String a s' =>
      String (if (nat_of_ascii a =? 44)%nat then " "%char else a) (replace_commas s')
  end.

(** [s.split(" ")]: empty pieces are kept. *)
Fixpoint split_spaces (s : string) : list string :=
  match s with
  | EmptyString => [EmptyString]
  | String a s' =>
      match split_spaces s' with
      | w :: ws =>
          if (nat_of_ascii a =? 32)%nat then EmptyString :: w :: ws
          else String a w :: ws
      | [] => [String a EmptyString]
      end
  end.

(** ** Configuration *)

Record CacheOpts : Type := {
  cache_enabled : bool;
  cache_eventName : option string
}.

Record MixinOpts : Type := {
  adapter : Value;              (* per-tenant adapter configuration *)
  autoReconnect : bool;
  defaultPageSize : Z;
  maxLimit : Z;                 (* 0 = unlimited *)
  cache : option CacheOpts
}.

Record SanitizeOpts : Type := {
  removeLimit : bool;
  list_mode : bool              (* opts.list *)
}.


(** [this.$primaryField] *)
Record PrimaryField : Type := {
  pf_name : string;
  pf_columnName : string;
  pf_secure : bool
}.

Abbreviation Context := Value.

(** An entry of [settings.scopes]: a function of the query and the context,
    or a static filter fragment. *)
Inductive Scope : Type :=
| ScopeFn (f : Value -> Context -> Value)
| ScopeStatic (fragment : Value).

Record Settings : Type := {
  defaultScopes : option (list Value);
  scopes : gmap string Scope
}.

(** The per-call options the methods read: [opts.transform !== false],
    [opts.throwIfNotExist], [opts.secureID] ([None] when null or absent). *)
Record CallOpts : Type := {
  transform : bool;
  throwIfNotExist : bool;
  secureID : option bool
}.

(** ** Adapters *)

(** The rows an adapter stores. *)
Abbreviation Store := (list Obj).

(** A promise, by the logical time at which it settles and what with. *)
Inductive Promise (A : Type) : Type :=
| SettlesAt (t : nat) (r : Result A)
| NeverSettles.
Arguments SettlesAt {A} t r.
Arguments NeverSettles {A}.

(** An adapter object: its identity ([inst_id], fresh at each
    [Adapters.resolve]) and the options it was resolved from. *)
Record AdapterInst : Type := {
  inst_id : nat;
  inst_opts : Value
}.

(** The capability set of an adapter, as far as the methods below call it.
    [adapter_connect a n] is the outcome of the [n]-th call of [connect()]
    on instance [a] ([None]: resolved; [Some e]: rejected with [e]);
    [adapter_disconnect] is [None] for an adapter without a [disconnect]
    function; a call of the function returns a promise ([Ok]) or throws
    before it returns one ([Err]). [adapter_find] only reads the store. *)
Record AdapterImpl : Type := {
  adapter_connect : nat -> nat -> option Value;
  adapter_disconnect : option (nat -> Result (Promise unit));
  adapter_find : Obj -> Store -> Result (option (list Obj));
  adapter_updateById : Value -> Obj -> option bool -> Store -> Result (Value * Store);
  adapter_replaceById : Value -> Obj -> Store -> Result (Value * Store);
  adapter_removeById : Value -> Store -> Result (Value * Store)
}.

(** The rest of the capability set: the adapter methods behind find-one,
    count, create and clear. [adapter_findOne] and [adapter_count] only
    read the store. *)
Record AdapterRest : Type := {
  adapter_findOne : Value -> Store -> Result Value;
  adapter_count : Obj -> Store -> Result Value;
  adapter_insert : Obj -> Store -> Result (Value * Store);
  adapter_insertMany : list Obj -> Store -> Result (Value * Store);
  adapter_clear : Value -> Store -> Result (Value * Store)
}.

(** The service object [this]: its settings and the methods of other
    mixin parts or of the user that the methods below call. *)
Record Service : Type := {
  settings : Settings;
  primaryField : PrimaryField;
  softDelete : bool;
  encodeID : Value -> Value;
  decodeID : Value -> Value;
  getAdapterByContext : Context -> Value -> string * Value;
  transformResult : AdapterInst -> Value -> Obj -> Context -> Value;
  validateParams : Context -> Obj -> string -> option Value -> Result Obj;
  broadcast : Context -> string -> Result unit;                 (* (ctx || this.broker).broadcast *)
  entityChanged : string -> Value -> Context -> Result unit     (* the hook, user-defined *)
}.

(** ** The world of an asynchronous call *)

Inductive Event : Type :=
| EvCreate (a : nat) (hash : string)                (* Adapters.resolve, init, adapters.set *)
| EvConnect (a : nat)                               (* this._connect(adapter) *)
| EvConnectAttempt (a : nat) (n : nat)              (* adapter.connect() *)
| EvDisconnect (a : nat)                            (* this._disconnect(adapter) *)
| EvFind (a : nat) (params : Obj)
| EvValidate (type : string) (payload : Obj)
| EvUpdateById (a : nat) (id : Value) (payload : Obj) (raw : option bool)
| EvReplaceById (a : nat) (id : Value) (payload : Obj)
| EvRemoveById (a : nat) (id : Value)
| EvBroadcast (eventName : string)
| EvEntityChanged (type : string) (data : Value).

Record World : Type := {
  adapters : list (string * AdapterInst);   (* this.adapters, in insertion order *)
  nextInstance : nat;                       (* identity of the next adapter object *)
  stores : gmap nat Store;                  (* the rows behind each adapter object *)
  trace : list Event                        (* what happened so far, oldest first *)
}.

Inductive Outcome (A : Type) : Type :=
| Returned (a : A)
| Thrown (e : Error)
| Pending.
Arguments Returned {A} a.
Arguments Thrown {A} e.
Arguments Pending {A}.

Definition M (A : Type) : Type := World -> Outcome A * World.

Definition ret {A : Type} (a : A) : M A := fun w => (Returned a, w).

Definition throw {A : Type} (e : Error) : M A := fun w => (Thrown e, w).

Definition bind {A B : Type} (m : M A) (k : A -> M B) : M B :=
  fun w =>
    match m w with
    | (Returned a, w') => k a w'
    | (Thrown e, w') => (Thrown e, w')
    | (Pending, w') => (Pending, w')
    end.

#[global] Instance M_ret : MRet M := @ret.
#[global] Instance M_bind : MBind M := fun A B k m => bind m k.

Definition outcome_of {A : Type} (r : Result A) : Outcome A :=
  match r with
  | Ok a => Returned a
  | Err e => Thrown e
  end.

(** A synchronous computation inside an asynchronous method. *)
Definition lift {A : Type} (r : Result A) : M A :=
  fun w => (outcome_of r, w).

(** The world after the event [ev]. *)
Definition log_event (ev : Event) (w : World) : World :=
  {| adapters := adapters w; nextInstance := nextInstance w;
     stores := stores w; trace := trace w ++ [ev] |}.

Definition emit (ev : Event) : M unit :=
  fun w => (Returned tt, log_event ev w).

Definition store_of (w : World) (a : nat) : Store :=
  match stores w !! a with
  | Some s => s
  | None => []
  end.

Definition set_store (a : nat) (s : Store) : M unit :=
  fun w => (Returned tt,
            {| adapters := adapters w; nextInstance := nextInstance w;
               stores := <[a := s]> (stores w); trace := trace w |}).

(** [Map.prototype.get] on [this.adapters]. *)
Fixpoint adapters_get (hash : string) (m : list (string * AdapterInst)) : option AdapterInst :=
  match m with
  | [] => None
  | (h, a) :: rest => if String.eqb h hash then Some a else adapters_get hash rest
  end.

(** [_.cloneDeep]: a deep copy of an immutable value is the value. *)
Definition cloneDeep (v : Value) : Value := v.

Definition isNullish (v : Value) : bool :=
  match v with
  | VUndefined | VNull => true
  | _ => false
  end.

Definition isArray (v : Value) : bool :=
  match v with
  | VArr _ => true
  | _ => false
  end.

(** [v === true] and [v === false] *)
Definition isTrue (v : Value) : bool :=
  match v with
  | VBool true => true
  | _ => false
  end.

Definition isFalse (v : Value) : bool :=
  match v with
  | VBool false => true
  | _ => false
  end.

(** [q[k] = v] in strict mode: a property is created on an object; null,
    undefined and the primitives throw. An array that would carry a named
    property is outside the values of the embedding and is refused too.
    The name [k] is a column name of the configuration, taken not to be
    [__proto__]. *)
Definition setProp (q : Value) (k : string) (v : Value) : Result Value :=
  match q with
  | VObj o => Ok (VObj (<[k := v]> o))
  | _ => Err TypeError
  end.

(** [map[k] = v] on a plain object, for a key from the data: a property
    is created or overwritten, except under the key [__proto__], the
    accessor of [Object.prototype]: that assignment replaces the prototype
    of [map] when [v] is an object or null and creates no property. The
    prototype of an object is not part of a [Value]. *)
Definition assign (map : Obj) (k : string) (v : Value) : Obj :=
  if String.eqb k "__proto__" then map else <[k := v]> map.

Definition first_char (s : string) : Value :=
  match s with
  | EmptyString => VUndefined
  | String a _ => VStr (String a EmptyString)
  end.

(** [r[0]] *)
Definition index0 (r : Value) : Result Value :=
  match r with
  | VUndefined | VNull => Err TypeError
  | VArr l => Ok (match l with [] => VUndefined | x :: _ => x end)
  | VObj o => Ok (get o "0")
  | VStr s => Ok (first_char s)
  | VBool _ | VNum _ => Ok VUndefined
  end.

(** ** [Promise.all] *)

(** The rejection that settles first (the leftmost one among equals). *)
Fixpoint first_rejection {A : Type} (ps : list (Promise A)) : option (nat * Error) :=
  match ps with
  | [] => None
  | p :: rest =>
      match p, first_rejection rest with
      | SettlesAt t (Err e), Some (t', e') =>
          if (t' <? t)%nat then Some (t', e') else Some (t, e)
      | SettlesAt t (Err e), None => Some (t, e)
      | _, r => r
      end
  end.

(** When every promise fulfils: the time of the last one and the values. *)
Fixpoint all_fulfilled {A : Type} (ps : list (Promise A)) : option (nat * list A) :=
  match ps with
  | [] => Some (0%nat, [])
  | SettlesAt t (Ok v) :: rest =>
      match all_fulfilled rest with
      | Some (t', vs) => Some (Nat.max t t', v :: vs)
      | None => None
      end
  | _ :: _ => None
  end.

(** [Promise.all(ps)] rejects as soon as one promise rejects, with that
    reason; it fulfils once all have fulfilled; otherwise it stays pending. *)
Definition Promise_all {A : Type} (ps : list (Promise A)) : Promise (list A) :=
  match first_rejection ps with
  | Some (t, e) => SettlesAt t (Err e)
  | None =>
      match all_fulfilled ps with
      | Some (t, vs) => SettlesAt t (Ok vs)
      | None => NeverSettles
      end
  end.

(** ** Interleaved calls of [getAdapter] *)

(** A call suspended at [await this._connect(adapter)]. *)
Record Call : Type := {
  call_ctx : Context;
  call_adapter : AdapterInst;
  call_attempt : nat
}.

Record Sched : Type := {
  sched_world : World;
  sched_pending : list Call;
  sched_done : list (Context * Outcome AdapterInst)
}.

(** What the event loop runs next: the synchronous prefix of a new call of
    [getAdapter], or the next connection attempt of the [i]-th suspended
    call. *)
Inductive Action : Type :=
| ActCall (ctx : Context)
| ActAttempt (i : nat).

(** ** The overridable methods, as the source defines them *)

Definition default_getAdapterByContext (ctx : Context) (adapterDef : Value) : string * Value :=
  ("default", adapterDef).

Definition default_encodeID (id : Value) : Value := id.

Definition default_decodeID (id : Value) : Value := id.

(** The hook [entityChanged] of the mixin is empty. *)
Definition default_entityChanged (type : string) (data : Value) (ctx : Context) : Result unit :=
  Ok tt.

(** * Sample configurations

    Concrete services, adapters and parameters on which the methods are
    run in the examples of this file. *)

Module Sample.

Definition cfg : MixinOpts :=
  {| adapter := VStr "memory"; autoReconnect := false;
     defaultPageSize := 10; maxLimit := 50; cache := None |}.

Definition cfg_reconnect : MixinOpts :=
  {| adapter := VStr "flaky"; autoReconnect := true;
     defaultPageSize := 10; maxLimit := 50; cache := None |}.

Definition no_json (s : string) : option Value := None.

(** Stands in for [_.defaultsDeep] on flat objects: the fields of the
    query win over those of the fragment. *)
Definition defaults_flat (query fragment : Value) : Value :=
  match query, fragment with
  | VObj q, VObj f => VObj (q ∪ f)
  | _, _ => query
  end.

Definition same_id (a b : Value) : bool := String.eqb (toString a) (toString b).

(** The rows selected by a filter on the column [col]: equality, or
    membership for [{ $in: ids }]. *)
Definition matches_id (col : string) (query : Value) (row : Obj) : bool :=
  match query with
  | VObj q =>
      match q !! col with
      | None => true
      | Some (VObj c) =>
          match c !! "$in" with
          | Some (VArr ids) => existsb (fun i => same_id i (get row col)) ids
          | _ => false
          end
      | Some v => same_id v (get row col)
      end
  | _ => true
  end.

Definition mem_find (col : string) (params : Obj) (s : Store) : Result (option (list Obj)) :=
  Ok (Some (List.filter (matches_id col (get params "query")) s)).

Definition mem_updateById (col : string) (id : Value) (payload : Obj) (raw : option bool)
    (s : Store) : Result (Value * Store) :=
  let s' := List.map (fun row : Obj => if same_id id (get row col) then payload ∪ row else row) s in
  Ok (match List.filter (fun row : Obj => same_id id (get row col)) s' with
      | row :: _ => VObj row
      | [] => VNull
      end, s').

Definition mem_replaceById (col : string) (id : Value) (payload : Obj)
    (s : Store) : Result (Value * Store) :=
  let s' := List.map (fun row : Obj => if same_id id (get row col)
                                       then <[col := get row col]> payload else row) s in
  Ok (match List.filter (fun row : Obj => same_id id (get row col)) s' with
      | row :: _ => VObj row
      | [] => VNull
      end, s').

Definition mem_removeById (col : string) (id : Value) (s : Store) : Result (Value * Store) :=
  Ok (id, List.filter (fun row : Obj => negb (same_id id (get row col))) s).

(** An in-memory adapter over the column ["_id"]; it connects at once. *)
Definition memory : AdapterImpl :=
  {| adapter_connect := fun _ _ => None;
     adapter_disconnect := Some (fun _ => Ok (SettlesAt 1 (Ok tt)));
     adapter_find := mem_find "_id";
     adapter_updateById := mem_updateById "_id";
     adapter_replaceById := mem_replaceById "_id";
     adapter_removeById := mem_removeById "_id" |}.

(** An adapter whose first two connection attempts fail, and whose
    [disconnect()] rejects early on the first adapter object and fulfils
    late on the others. *)
Definition flaky : AdapterImpl :=
  {| adapter_connect := fun _ n => if (n <? 2)%nat then Some (VStr "ECONNREFUSED") else None;
     adapter_disconnect :=
       Some (fun a => if (a =? 0)%nat then Ok (SettlesAt 1 (Err (AdapterFailed (VStr "EPIPE"))))
                      else if (a =? 1)%nat then Ok (SettlesAt 5 (Ok tt))
                      else Ok (SettlesAt 7 (Err (AdapterFailed (VStr "ETIMEDOUT")))));
     adapter_find := mem_find "_id";
     adapter_updateById := mem_updateById "_id";
     adapter_replaceById := mem_replaceById "_id";
     adapter_removeById := mem_removeById "_id" |}.

Definition resolve_adapter (opts : Value) : AdapterImpl :=
  match opts with
  | VStr "flaky" => flaky
  | _ => memory
  end.

(** A multi-tenant [getAdapterByContext]: the tenant key is the context. *)
Definition tenantByContext (ctx : Context) (adapterDef : Value) : string * Value :=
  (toString ctx, adapterDef).

Definition accept_all (ctx : Context) (params : Obj) (type : string)
    (oldEntity : option Value) : Result Obj := Ok params.

Definition reject_all (ctx : Context) (params : Obj) (type : string)
    (oldEntity : option Value) : Result Obj := Err (ValidationFailed (VStr type)).

(** A broadcast that goes through. *)
Definition delivered (ctx : Context) (eventName : string) : Result unit := Ok tt.

(** A hook of the user that throws. *)
Definition failing_hook (type : string) (data : Value) (ctx : Context) : Result unit :=
  Err (AdapterFailed (VStr type)).

Definition no_transform (a : AdapterInst) (docs : Value) (params : Obj) (ctx : Context) : Value :=
  docs.

(** A transform that keeps only the field ["name"] of each document. *)
Definition only_name (a : AdapterInst) (docs : Value) (params : Obj) (ctx : Context) : Value :=
  let one (d : Value) : Value :=
    match d with
    | VObj o => VObj {[ "name" := get o "name" ]}
    | _ => d
    end in
  match docs with
  | VArr l => VArr (List.map one l)
  | d => one d
  end.

Definition active_only : Settings :=
  {| defaultScopes := Some [VStr "active"];
     scopes := {[ "active" := ScopeStatic (VObj {[ "status" := VNum (Int 1) ]}) ]} |}.

Definition no_scopes : Settings :=
  {| defaultScopes := None; scopes := ∅ |}.

Definition id_field : PrimaryField :=
  {| pf_name := "id"; pf_columnName := "_id"; pf_secure := false |}.

Definition secure_id_field : PrimaryField :=
  {| pf_name := "id"; pf_columnName := "_id"; pf_secure := true |}.

Definition svc : Service :=
  {| settings := no_scopes; primaryField := id_field; softDelete := false;
     encodeID := default_encodeID; decodeID := default_decodeID;
     getAdapterByContext := default_getAdapterByContext;
     transformResult := only_name; validateParams := accept_all;
     broadcast := delivered; entityChanged := default_entityChanged |}.

Definition svc_scoped : Service :=
  {| settings := active_only; primaryField := id_field; softDelete := false;
     encodeID := default_encodeID; decodeID := default_decodeID;
     getAdapterByContext := default_getAdapterByContext;
     transformResult := only_name; validateParams := accept_all;
     broadcast := delivered; entityChanged := default_entityChanged |}.

(** Secure ids: the caller sees ["s" ++ id]. *)
Definition svc_soft : Service :=
  {| settings := no_scopes; primaryField := secure_id_field; softDelete := true;
     encodeID := fun id => VStr ("s" ++ toString id);
     decodeID := fun id => match id with VStr (String _ r) => VStr r | v => v end;
     getAdapterByContext := default_getAdapterByContext;
     transformResult := only_name; validateParams := accept_all;
     broadcast := delivered; entityChanged := default_entityChanged |}.

Definition svc_strict : Service :=
  {| settings := no_scopes; primaryField := id_field; softDelete := false;
     encodeID := default_encodeID; decodeID := default_decodeID;
     getAdapterByContext := default_getAdapterByContext;
     transformResult := only_name; validateParams := reject_all;
     broadcast := delivered; entityChanged := default_entityChanged |}.

Definition svc_tenants : Service :=
  {| settings := no_scopes; primaryField := id_field; softDelete := false;
     encodeID := default_encodeID; decodeID := default_decodeID;
     getAdapterByContext := tenantByContext;
     transformResult := no_transform; validateParams := accept_all;
     broadcast := delivered; entityChanged := default_entityChanged |}.

Definition row (id name : string) : Obj :=
  {[ "_id" := VStr id; "name" := VStr name; "secret" := VStr "x" ]}.

Definition empty_world : World :=
  {| adapters := []; nextInstance := 0; stores := ∅; trace := [] |}.

(** A world whose first adapter object will find the rows [rows]. *)
Definition world_with (rows : Store) : World :=
  {| adapters := []; nextInstance := 0; stores := {[ 0%nat := rows ]}; trace := [] |}.

(** A world in which the adapter of the default tenant is already
    registered and connected, over the rows [rows]. *)
Definition connected_world (rows : Store) : World :=
  {| adapters := [("default", {| inst_id := 0; inst_opts := VStr "memory" |})];
     nextInstance := 1; stores := {[ 0%nat := rows ]}; trace := [] |}.

(** The adapter object of the default tenant, and the world after the
    first call of [getAdapter] has created and connected it. *)
Definition mem0 : AdapterInst := {| inst_id := 0; inst_opts := VStr "memory" |}.

Definition after_connect (rows : Store) : World :=
  {| adapters := [("default", mem0)]; nextInstance := 1; stores := {[ 0%nat := rows ]};
     trace := [EvCreate 0 "default"; EvConnect 0; EvConnectAttempt 0 0] |}.

(** The request [resolveEntities] sends to [find] for the id value [id]. *)
Definition by_id (params : Obj) (id : Value) : Obj :=
  <["query" := VObj {[ "_id" := id ]}]> params.

Definition ab_params : Obj :=
  {[ "id" := VArr [VStr "A"; VStr "B"]; "mapping" := VBool true ]}.

Definition ab_request : Obj :=
  by_id ab_params (VObj {[ "$in" := VArr [VStr "A"; VStr "B"] ]}).

(** Registries with several tenants, connected. *)
Definition flaky_registry : World :=
  {| adapters := [("t1", {| inst_id := 0; inst_opts := VStr "flaky" |});
                  ("t2", {| inst_id := 1; inst_opts := VStr "flaky" |});
                  ("t3", {| inst_id := 2; inst_opts := VStr "flaky" |})];
     nextInstance := 3; stores := ∅; trace := [] |}.

Definition memory_registry : World :=
  {| adapters := [("t1", {| inst_id := 0; inst_opts := VStr "memory" |});
                  ("t2", {| inst_id := 1; inst_opts := VStr "memory" |})];
     nextInstance := 2; stores := ∅; trace := [] |}.

(** Two tenants; the calls for ["t1"] overlap, the second one arriving
    while the first still waits for the connection. *)
Definition overlapping : list Action :=
  [ActCall (VStr "t1"); ActCall (VStr "t1"); ActCall (VStr "t2");
   ActAttempt 0; ActCall (VStr "t1"); ActAttempt 0].

Definition plain : CallOpts :=
  {| transform := true; throwIfNotExist := false; secureID := None |}.


(** The rest of the in-memory adapter. *)
Definition mem_findOne (col : string) (query : Value) (s : Store) : Result Value :=
  Ok (match List.filter (matches_id col query) s with
      | found :: _ => VObj found
      | [] => VNull
      end).

Definition mem_count (col : string) (params : Obj) (s : Store) : Result Value :=
  Ok (VNum (Int (Z.of_nat (length (List.filter (matches_id col (get params "query")) s))))).

Definition mem_insert (payload : Obj) (s : Store) : Result (Value * Store) :=
  Ok (VObj payload, s ++ [payload]).

Definition mem_insertMany (payloads : list Obj) (s : Store) : Result (Value * Store) :=
  Ok (VArr (List.map VObj payloads), s ++ payloads).

Definition mem_clear (params : Value) (s : Store) : Result (Value * Store) :=
  Ok (VNum (Int (Z.of_nat (length s))), []).

Definition memory_rest : AdapterRest :=
  {| adapter_findOne := mem_findOne "_id";
     adapter_count := mem_count "_id";
     adapter_insert := mem_insert;
     adapter_insertMany := mem_insertMany;
     adapter_clear := mem_clear |}.

Definition resolve_rest (opts : Value) : AdapterRest := memory_rest.

(** A validator that refuses the payloads without a name. *)
Definition needs_name (ctx : Context) (params : Obj) (type : string)
    (oldEntity : option Value) : Result Obj :=
  match params !! "name" with
  | Some _ => Ok params
  | None => Err (ValidationFailed (VStr "name"))
  end.

Definition svc_named : Service :=
  {| settings := no_scopes; primaryField := id_field; softDelete := false;
     encodeID := default_encodeID; decodeID := default_decodeID;
     getAdapterByContext := default_getAdapterByContext;
     transformResult := only_name; validateParams := needs_name;
     broadcast := delivered; entityChanged := default_entityChanged |}.

(** The secure service with hard deletes. *)
Definition svc_secure : Service :=
  {| settings := no_scopes; primaryField := secure_id_field; softDelete := false;
     encodeID := fun id => VStr ("s" ++ toString id);
     decodeID := fun id => match id with VStr (String _ r) => VStr r | v => v end;
     getAdapterByContext := default_getAdapterByContext;
     transformResult := only_name; validateParams := accept_all;
     broadcast := delivered; entityChanged := default_entityChanged |}.

(** The service whose hook throws. *)
Definition svc_hooked : Service :=
  {| settings := no_scopes; primaryField := id_field; softDelete := false;
     encodeID := default_encodeID; decodeID := default_decodeID;
     getAdapterByContext := default_getAdapterByContext;
     transformResult := only_name; validateParams := accept_all;
     broadcast := delivered; entityChanged := failing_hook |}.

Definition cfg_cached : MixinOpts :=
  {| adapter := VStr "memory"; autoReconnect := false;
     defaultPageSize := 10; maxLimit := 50;
     cache := Some {| cache_enabled := true; cache_eventName := Some "cache.clean.posts" |} |}.

(** An adapter that never connects. *)
Definition cfg_down : MixinOpts :=
  {| adapter := VStr "flaky"; autoReconnect := false;
     defaultPageSize := 10; maxLimit := 50; cache := None |}.

Definition raw : CallOpts :=
  {| transform := false; throwIfNotExist := false; secureID := None |}.

(** An adapter without a [disconnect] function. *)
Definition embedded : AdapterImpl :=
  {| adapter_connect := fun _ _ => None;
     adapter_disconnect := None;
     adapter_find := mem_find "_id";
     adapter_updateById := mem_updateById "_id";
     adapter_replaceById := mem_replaceById "_id";
     adapter_removeById := mem_removeById "_id" |}.

Definition resolve_embedded (opts : Value) : AdapterImpl := embedded.




(** An adapter whose [disconnect()] throws, instead of returning a
    promise, on the second adapter object. *)
Definition brittle : AdapterImpl :=
  {| adapter_connect := fun _ _ => None;
     adapter_disconnect :=
       Some (fun a => if (a =? 1)%nat then Err (AdapterFailed (VStr "EBUSY"))
                      else Ok (SettlesAt 1 (Ok tt)));
     adapter_find := mem_find "_id";
     adapter_updateById := mem_updateById "_id";
     adapter_replaceById := mem_replaceById "_id";
     adapter_removeById := mem_removeById "_id" |}.

Definition resolve_brittle (opts : Value) : AdapterImpl := brittle.

(** Two tenants, connected, each with one row. *)
Definition two_tenants : World :=
  {| adapters := [("t1", {| inst_id := 0; inst_opts := VStr "memory" |});
                  ("t2", {| inst_id := 1; inst_opts := VStr "memory" |})];
     nextInstance := 2;
     stores := {[ 0%nat := [row "A" "alice"]; 1%nat := [row "A" "anna"] ]};
     trace := [] |}.

End Sample.

(** * The methods *)

Section Methods.

Variable mixinOpts : MixinOpts.
Variable this : Service.
(** [Adapters.resolve]: the capability set behind adapter options. *)
Variable Adapters_resolve : Value -> AdapterImpl.
(** [JSON.parse]; [None] when it throws. *)
Variable JSON_parse : string -> option Value.
(** [_.defaultsDeep] *)
Variable defaultsDeep : Value -> Value -> Value.

(** ** Adapter registry *)

(** Lines 25-31 of [getAdapter], which run without suspension: the entry
    of the tenant key, or a new adapter object published under it. The
    flag tells whether the object is new. *)
Definition getAdapter_enter (ctx : Context) (w : World) : AdapterInst * bool * World :=
  let '(hash, adapterOpts) := getAdapterByContext this ctx (adapter mixinOpts) in
  match adapters_get hash (adapters w) with
  | Some item => (item, false, w)
  | None =>
      let a := {| inst_id := nextInstance w; inst_opts := adapterOpts |} in
      (a, true,
       {| adapters := adapters w ++ [(hash, a)];
          nextInstance := S (nextInstance w);
          stores := stores w;
          trace := trace w ++ [EvCreate (inst_id a) hash] |})
  end.

Definition impl_of (a : AdapterInst) : AdapterImpl := Adapters_resolve (inst_opts a).

(** One [await adapter.connect()]. *)
Definition connectAttempt (a : AdapterInst) (n : nat) : M (option Value) :=
  _ ← emit (EvConnectAttempt (inst_id a) n);
  mret (adapter_connect (impl_of a) (inst_id a) n).

(** The closure [connecting] of [_connect]; each retry uses one unit of
    fuel. *)
Fixpoint connecting (fuel : nat) (a : AdapterInst) (n : nat) : M unit :=
  match fuel with
  | O => fun w => (Pending, w)
  | S fuel' =>
      r ← connectAttempt a n;
      match r with
      | None => mret tt
      | Some err =>
          if autoReconnect mixinOpts then connecting fuel' a (S n)
          else throw (ConnectionFailed err)
      end
  end.

Definition _connect (fuel : nat) (a : AdapterInst) : M unit :=
  _ ← emit (EvConnect (inst_id a));
  connecting fuel a 0.

Definition getAdapter (fuel : nat) (ctx : Context) : M AdapterInst :=
  fun w =>
    let '(a, fresh, w1) := getAdapter_enter ctx w in
    if fresh then (_ ← _connect fuel a; mret a) w1
    else (Returned a, w1).

(** [this._disconnect(adapter)], which is not [async]: the promise it
    returns, or what [adapter.disconnect()] throws before returning one. *)
Definition _disconnect (a : AdapterInst) : Result (Promise unit) :=
  match adapter_disconnect (impl_of a) with
  | Some d => d (inst_id a)
  | None => Ok (SettlesAt 0 (Ok tt))
  end.

(** [adapters.map(adapter => this._disconnect(adapter))]: the calls are
    made in order and an exception ends the loop. The second component
    lists the adapter objects on which [_disconnect] was called. *)
Fixpoint disconnect_each (ads : list AdapterInst) :
    Result (list (Promise unit)) * list AdapterInst :=
  match ads with
  | [] => (Ok [], [])
  | a :: rest =>
      match _disconnect a with
      | Err e => (Err e, [a])
      | Ok p =>
          (match fst (disconnect_each rest) with
           | Ok ps => Ok (p :: ps)
           | Err e => Err e
           end,
           a :: snd (disconnect_each rest))
      end
  end.

(** [disconnectAll] is not [async]: it returns the promise of
    [Promise.all], or throws what a [disconnect()] threw, after the
    registry has been cleared. *)
Definition disconnectAll (w : World) : Result (Promise (list unit)) * World :=
  let ads := List.map snd (adapters w) in
  (match fst (disconnect_each ads) with
   | Ok ps => Ok (Promise_all ps)
   | Err e => Err e
   end,
   {| adapters := [];
      nextInstance := nextInstance w;
      stores := stores w;
      trace := trace w ++ List.map (fun a => EvDisconnect (inst_id a)) (snd (disconnect_each ads)) |}).

(** *** The event loop over several calls *)

Definition sched_step (act : Action) (s : Sched) : Sched :=
  match act with
  | ActCall ctx =>
      let '(a, fresh, w1) := getAdapter_enter ctx (sched_world s) in
      if fresh then
        {| sched_world := snd (emit (EvConnect (inst_id a)) w1);
           sched_pending := sched_pending s ++ [{| call_ctx := ctx; call_adapter := a; call_attempt := 0 |}];
           sched_done := sched_done s |}
      else
        {| sched_world := w1;
           sched_pending := sched_pending s;
           sched_done := sched_done s ++ [(ctx, Returned a)] |}
  | ActAttempt i =>
      match sched_pending s !! i with
      | None => s
      | Some c =>
          let '(r, w1) := connectAttempt (call_adapter c) (call_attempt c) (sched_world s) in
          match r with
          | Returned None =>
              {| sched_world := w1;
                 sched_pending := delete i (sched_pending s);
                 sched_done := sched_done s ++ [(call_ctx c, Returned (call_adapter c))] |}
          | Returned (Some err) =>
              if autoReconnect mixinOpts then
                {| sched_world := w1;
                   sched_pending :=
                     <[i := {| call_ctx := call_ctx c; call_adapter := call_adapter c;
                               call_attempt := S (call_attempt c) |}]> (sched_pending s);
                   sched_done := sched_done s |}
              else
                {| sched_world := w1;
                   sched_pending := delete i (sched_pending s);
                   sched_done := sched_done s ++ [(call_ctx c, Thrown (ConnectionFailed err))] |}
          | _ => s
          end
      end
  end.

Definition run (acts : list Action) (s : Sched) : Sched :=
  fold_left (fun s act => sched_step act s) acts s.

(** ** Scope engine *)

(** The local variable [scopes] of [_applyScopes] after lines 100-105;
    [None] is its initial [null]. *)
Definition activeScopes (params : Obj) : option (list Value) :=
  let scope := get params "scope" in
  if toBoolean scope then
    Some (match scope with VArr l => l | v => [v] end)
  else if negb (isFalse scope) then defaultScopes (settings this)
  else None.

(** The callback of [scopes.reduce]. The scope is looked up among the
    registered scopes, the own properties of [settings.scopes]; a name of
    [Object_prototype_names] that is not registered would be found on the
    prototype and is outside the embedding ([plain_name] below). *)
Definition applyScope (ctx : Context) (query : Value) (scopeName : Value) : Value :=
  match scopes (settings this) !! toString scopeName with
  | None => query
  | Some (ScopeFn f) => f query ctx
  | Some (ScopeStatic fragment) =>
      if toBoolean fragment then defaultsDeep query fragment else query
  end.

Definition _applyScopes (params : Obj) (ctx : Context) : Obj :=
  match activeScopes params with
  | Some (s :: rest) =>
      let q0 := if toBoolean (get params "query") then get params "query" else VObj ∅ in
      <["query" := fold_left (applyScope ctx) (s :: rest) (cloneDeep q0)]> params
  | _ => params
  end.

(** ** Parameter sanitizer *)

(** [if (typeof p.k === "string") p.k = Number(p.k)] *)
Definition coerceNumber (k : string) (p : Obj) : Obj :=
  match p !! k with
  | Some (VStr s) => <[k := VNum (Number_of_string s)]> p
  | _ => p
  end.

(** [if (typeof p.k === "string") p.k = p.k.replace(/,/g, " ").split(" ")] *)
Definition splitField (k : string) (p : Obj) : Obj :=
  match p !! k with
  | Some (VStr s) => <[k := VArr (List.map VStr (split_spaces (replace_commas s)))]> p
  | _ => p
  end.

(** [if (typeof p.query === "string") p.query = JSON.parse(p.query)] *)
Definition parseQuery (p : Obj) : Result Obj :=
  match p !! "query" with
  | Some (VStr s) =>
      match JSON_parse s with
      | Some q => Ok (<["query" := q]> p)
      | None => Err SyntaxError
      end
  | _ => Ok p
  end.

(** [if (p.k) delete p.k] *)
Definition deleteIfTruthy (k : string) (p : Obj) : Obj :=
  if toBoolean (get p k) then delete k p else p.

(** Lines 129-132. *)
Definition coerceNumbers (p : Obj) : Obj :=
  coerceNumber "pageSize" (coerceNumber "page" (coerceNumber "offset" (coerceNumber "limit" p))).

(** Lines 136-141. *)
Definition splitFields (p : Obj) : Obj :=
  splitField "searchFields" (splitField "populate" (splitField "fields" (splitField "sort" p))).

(** Lines 144-147. *)
Definition stripPagination (p : Obj) : Obj :=
  deleteIfTruthy "pageSize" (deleteIfTruthy "page" (deleteIfTruthy "offset" (deleteIfTruthy "limit" p))).

(** Lines 153-165. *)
Definition paginate (p : Obj) : Obj :=
  let p1 := if negb (toBoolean (get p "pageSize"))
            then <["pageSize" := VNum (Int (defaultPageSize mixinOpts))]> p else p in
  let p2 := if negb (toBoolean (get p1 "page"))
            then <["page" := VNum (Int 1)]> p1 else p1 in
  let p3 := if (0 <? maxLimit mixinOpts) && js_gt (get p2 "pageSize") (maxLimit mixinOpts)
            then <["pageSize" := VNum (Int (maxLimit mixinOpts))]> p2 else p2 in
  let p4 := <["limit" := get p3 "pageSize"]> p3 in
  <["offset" := VNum (num_mul (num_sub (toNumber (get p4 "page")) (Int 1))
                              (toNumber (get p4 "pageSize")))]> p4.

(** Lines 168-169. *)
Definition clampLimit (p : Obj) : Obj :=
  if (0 <? maxLimit mixinOpts) && js_gt (get p "limit") (maxLimit mixinOpts)
  then <["limit" := VNum (Int (maxLimit mixinOpts))]> p else p.

Definition sanitizeParams (params : Obj) (opts : option SanitizeOpts) : Result Obj :=
  match parseQuery (coerceNumbers params) with
  | Err e => Err e
  | Ok p0 =>
      let p := splitFields p0 in
      if match opts with Some o => removeLimit o | None => false end then
        Ok (stripPagination p)
      else
        let p' := if match opts with Some o => list_mode o | None => false end
                  then paginate p else p in
        Ok (clampLimit p')
  end.

(** ** Entity methods *)

Definition _getIDFromParams (params : Obj) (throwIfNotExist : bool) : Result Value :=
  let id := get params (pf_name (primaryField this)) in
  if throwIfNotExist && isNullish id then Err (MissingId params) else Ok id.

Definition _sanitizeID (id : Value) (opts : CallOpts) : Value :=
  match secureID opts with
  | Some sec => if sec then decodeID this id else id
  | None => if pf_secure (primaryField this) then decodeID this id else id
  end.

Definition read_store (a : AdapterInst) : M Store :=
  fun w => (Returned (store_of w (inst_id a)), w).

(** [await adapter.find(params)] *)
Definition await_find (a : AdapterInst) (params : Obj) : M (option (list Obj)) :=
  _ ← emit (EvFind (inst_id a) params);
  s ← read_store a;
  lift (adapter_find (impl_of a) params s).

(** [await adapter.updateById(id, payload, opts)] *)
Definition await_updateById (a : AdapterInst) (id : Value) (payload : Obj) (raw : option bool) : M Value :=
  _ ← emit (EvUpdateById (inst_id a) id payload raw);
  s ← read_store a;
  r ← lift (adapter_updateById (impl_of a) id payload raw s);
  _ ← set_store (inst_id a) (snd r);
  mret (fst r).

(** [await adapter.replaceById(id, payload)] *)
Definition await_replaceById (a : AdapterInst) (id : Value) (payload : Obj) : M Value :=
  _ ← emit (EvReplaceById (inst_id a) id payload);
  s ← read_store a;
  r ← lift (adapter_replaceById (impl_of a) id payload s);
  _ ← set_store (inst_id a) (snd r);
  mret (fst r).

(** [await adapter.removeById(id)] *)
Definition await_removeById (a : AdapterInst) (id : Value) : M Value :=
  _ ← emit (EvRemoveById (inst_id a) id);
  s ← read_store a;
  r ← lift (adapter_removeById (impl_of a) id s);
  _ ← set_store (inst_id a) (snd r);
  mret (fst r).

(** [await this.validateParams(ctx, params, { type, oldEntity })] *)
Definition await_validateParams (ctx : Context) (params : Obj) (type : string)
    (oldEntity : option Value) : M Obj :=
  _ ← emit (EvValidate type params);
  lift (validateParams this ctx params type oldEntity).

(** The callback of [result.reduce] in the mapping branch, folded over the
    documents from index [i] on. *)
Fixpoint buildMapping (unTransformedRes : list Obj) (idField : string)
    (docs : list Value) (i : nat) (map : Obj) : Result Obj :=
  match docs with
  | [] => Ok map
  | doc :: rest =>
      match unTransformedRes !! i with
      | None => Err TypeError
      | Some ent =>
          let id := get ent idField in
          let id := if pf_secure (primaryField this) then encodeID this id else id in
          buildMapping unTransformedRes idField rest (S i) (assign map (toString id) doc)
      end
  end.

(** Lines 287-303 of [resolveEntities]: the parameters handed to
    [adapter.find] for the id value [id] read from [params]. They are
    built on a copy of [params]; the caller's parameters are read-only in
    the embedding, and the write of the id into a query object that the
    copy shares with them is not carried over to the caller. A query that
    is an array is refused by [setProp]. *)
Definition resolveParams (ctx : Context) (params : Obj) (opts : CallOpts) (id : Value) : Result Obj :=
  let multi := isArray id in
  let ids := match id with VArr l => l | v => [v] end in
  let ids := List.map (fun id => _sanitizeID id opts) ids in
  let params := _applyScopes params ctx in
  let query := if toBoolean (get params "query") then get params "query" else VObj ∅ in
  let idField := pf_columnName (primaryField this) in
  match setProp query idField
          (if multi then VObj {[ "$in" := VArr ids ]}
           else match ids with x :: _ => x | [] => VUndefined end) with
  | Ok query => Ok (<["query" := query]> params)
  | Err e => Err e
  end.

(** Lines 309-334 of [resolveEntities]: what the call makes of the result
    of [adapter.find] ([None] for null or undefined). *)
Definition resolveResult (ctx : Context) (opts : CallOpts) (origID : Value)
    (adapter : AdapterInst) (params : Obj) (result : option (list Obj)) : Result Value :=
  let multi := isArray origID in
  let idField := pf_columnName (primaryField this) in
  let empty := match result with Some (_ :: _) => false | _ => true end in
  if empty && throwIfNotExist opts then Err (EntityNotFound origID)
  else
    match result with
    | None => Err TypeError
    | Some unTransformedRes =>
        let result := VArr (List.map VObj unTransformedRes) in
        let result :=
          if transform opts then transformResult this adapter result params ctx else result in
        if isTrue (get params "mapping") then
          match result with
          | VArr docs =>
              match buildMapping unTransformedRes idField docs 0 ∅ with
              | Ok map => Ok (VObj map)
              | Err e => Err e
              end
          | _ => Err TypeError
          end
        else if negb multi then index0 result
        else Ok result
    end.

Definition resolveEntities (fuel : nat) (ctx : Context) (params : Obj) (opts : CallOpts) : M Value :=
  id ← lift (_getIDFromParams params true);
  params ← lift (resolveParams ctx params opts id);
  adapter ← getAdapter fuel ctx;
  result ← await_find adapter params;
  lift (resolveResult ctx opts id adapter params result).

Definition cacheOpts : option CacheOpts :=
  match cache mixinOpts with
  | Some c => if cache_enabled c then Some c else None
  | None => None
  end.

(** Both calls are synchronous: what [broadcast] or the hook throws
    rejects the promise of [_entityChanged]. *)
Definition _entityChanged (data : Value) (ctx : Context) (type : string) : M unit :=
  _ ← (match cacheOpts with
       | Some {| cache_eventName := Some (String a s) |} =>
           _ ← emit (EvBroadcast (String a s));
           lift (broadcast this ctx (String a s))
       | _ => mret tt
       end);
  _ ← emit (EvEntityChanged type data);
  lift (entityChanged this type data ctx).

(** Lines 406-408 and 442-444. *)
Definition stripPrimary (params : Obj) : Obj :=
  let params := delete (pf_columnName (primaryField this)) params in
  if negb (String.eqb (pf_columnName (primaryField this)) (pf_name (primaryField this)))
  then delete (pf_name (primaryField this)) params
  else params.

Definition existenceCheck : CallOpts :=
  {| transform := false; throwIfNotExist := true; secureID := None |}.

Definition updateEntity (fuel : nat) (ctx : Context) (params : Obj) (opts : CallOpts) : M Value :=
  id ← lift (_getIDFromParams params true);
  oldEntity ← resolveEntities fuel ctx params existenceCheck;
  let rawUpdate := isTrue (get params "$raw") in
  let params := if rawUpdate then delete "$raw" params else params in
  params ← (if negb rawUpdate then await_validateParams ctx params "update" (Some oldEntity)
            else mret params);
  let id := _sanitizeID id opts in
  let params := stripPrimary params in
  adapter ← getAdapter fuel ctx;
  result ← await_updateById adapter id params (Some rawUpdate);
  let result := if transform opts then transformResult this adapter result ∅ ctx else result in
  _ ← _entityChanged result ctx "update";
  mret result.

Definition replaceEntity (fuel : nat) (ctx : Context) (params : Obj) (opts : CallOpts) : M Value :=
  id ← lift (_getIDFromParams params true);
  oldEntity ← resolveEntities fuel ctx params existenceCheck;
  adapter ← getAdapter fuel ctx;
  params ← await_validateParams ctx params "replace" (Some oldEntity);
  let id := _sanitizeID id opts in
  let params := stripPrimary params in
  result ← await_replaceById adapter id params;
  let result := if transform opts then transformResult this adapter result ∅ ctx else result in
  _ ← _entityChanged result ctx "replace";
  mret result.

Definition removeEntity (fuel : nat) (ctx : Context) (params : Obj) (opts : CallOpts) : M Value :=
  id ← lift (_getIDFromParams params true);
  let origID := id in
  entity ← resolveEntities fuel ctx params existenceCheck;
  adapter ← getAdapter fuel ctx;
  params ← await_validateParams ctx params "remove" None;
  let id := _sanitizeID id opts in
  _ ← (if softDelete this then await_updateById adapter id params None
       else await_removeById adapter id);
  let entity := if transform opts then transformResult this adapter entity params ctx else entity in
  _ ← _entityChanged entity ctx "remove";
  mret origID.

(** ** The properties of the specification, as definitions *)

(** What lines 129-132 make of the value of a pagination field. *)
Definition coerced (v : Value) : Value :=
  match v with
  | VStr s => VNum (Number_of_string s)
  | _ => v
  end.

Definition orDefault (v d : Value) : Value :=
  if toBoolean v then v else d.

Definition clamped (v : Value) : Value :=
  if (0 <? maxLimit mixinOpts) && js_gt v (maxLimit mixinOpts)
  then VNum (Int (maxLimit mixinOpts)) else v.

Definition is_pagination_field (k : string) : Prop :=
  k = "limit" ∨ k = "offset" ∨ k = "page" ∨ k = "pageSize".



Definition listOpts : option SanitizeOpts :=
  Some {| removeLimit := false; list_mode := true |}.

Definition removeLimitOpts : option SanitizeOpts :=
  Some {| removeLimit := true; list_mode := false |}.


(** The active scope set in the words of the specification: the explicit
    scope field, as a sequence, when it is present and non-empty; otherwise
    the default scopes, unless the field is [false]. *)
Definition spec_activeScopes (params : Obj) : option (list Value) :=
  match params !! "scope" with
  | Some (VBool false) => None
  | Some (VArr (x :: l)) => Some (x :: l)
  | Some (VStr (String a s)) => Some [VStr (String a s)]
  | Some (VArr []) | Some (VStr EmptyString) | Some VUndefined | Some VNull | None =>
      defaultScopes (settings this)
  | Some v => Some [v]
  end.

(** The shapes of the [scope] field of a query plan: absent, a string, a
    sequence, or [false]. *)
Definition scope_well_formed (params : Obj) : bool :=
  match params !! "scope" with
  | None | Some (VStr _) | Some (VArr _) | Some (VBool false) => true
  | Some _ => false
  end.

(** "The active scope set is the one the specification describes", at the
    parameters [params]. *)
Definition follows_spec_scopes (params : Obj) : Prop :=
  activeScopes params = spec_activeScopes params.

(** The key under which the mapping branch files the document of the
    untransformed entity [ent]. *)
Definition mappingKey (ent : Obj) : string :=
  let id := get ent (pf_columnName (primaryField this)) in
  toString (if pf_secure (primaryField this) then encodeID this id else id).

(** The id whose string is that key. *)
Definition mappingId (ent : Obj) : Value :=
  let id := get ent (pf_columnName (primaryField this)) in
  if pf_secure (primaryField this) then encodeID this id else id.

(** The mapping of the specification: the documents filed under the keys
    of their entities, in order. *)
Definition mappingOf (res : list Obj) (docs : list Value) : Obj :=
  fold_left (fun (m : Obj) (ed : Obj * Value) => <[mappingKey (fst ed) := snd ed]> m)
            (zip res docs) ∅.

(** The documents [resolveEntities] works with after its transform step. *)
Definition resolvedDocs (a : AdapterInst) (res : list Obj) (fparams : Obj)
    (ctx : Context) (opts : CallOpts) : Value :=
  if transform opts
  then transformResult this a (VArr (List.map VObj res)) fparams ctx
  else VArr (List.map VObj res).


(** The events that neither write rows nor notify: creation and
    connection of an adapter object, and [find]. *)
Definition is_read_event (ev : Event) : bool :=
  match ev with
  | EvCreate _ _ | EvConnect _ | EvConnectAttempt _ _ | EvFind _ _ => true
  | _ => false
  end.

Definition is_notify_event (ev : Event) : bool :=
  match ev with
  | EvBroadcast _ | EvEntityChanged _ _ => true
  | _ => false
  end.

(** Every event that [m] adds to the trace satisfies [P]. *)
Definition emits {A : Type} (P : Event → Prop) (m : M A) : Prop :=
  ∀ w out w', m w = (out, w') → ∃ evs, trace w' = (trace w ++ evs)%list ∧ Forall P evs.

(** [m] leaves the rows of every adapter as they are. *)
Definition keeps_stores {A : Type} (m : M A) : Prop :=
  ∀ w out w', m w = (out, w') → stores w' = stores w.

(** "The payload passed to updateById / replaceById contains neither the
    logical name nor the column name of the primary field." *)
Definition payload_clean (ev : Event) : Prop :=
  match ev with
  | EvUpdateById _ _ payload _ | EvReplaceById _ _ payload =>
      payload !! pf_name (primaryField this) = None ∧
      payload !! pf_columnName (primaryField this) = None
  | _ => True
  end.

(** The write of a remove call belongs to the configured branch:
    [updateById] under soft delete, [removeById] otherwise. *)
Definition delete_branch_event (ev : Event) : Prop :=
  match ev with
  | EvUpdateById _ _ _ _ => softDelete this = true
  | EvRemoveById _ _ => softDelete this = false
  | _ => True
  end.


(** The tenant key of a context. *)
Definition tenantKey (ctx : Context) : string :=
  fst (getAdapterByContext this ctx (adapter mixinOpts)).

(** The tenant keys for which an adapter object was created, and the
    adapter objects on which [_connect] was called, in order. *)
Definition created_keys (tr : list Event) : list string :=
  omap (fun ev => match ev with EvCreate _ hash => Some hash | _ => None end) tr.

Definition connect_calls (tr : list Event) : list nat :=
  omap (fun ev => match ev with EvConnect a => Some a | _ => None end) tr.

(** The adapter objects on which [connect()] was called, once per call. *)
Definition attempt_calls (tr : list Event) : list nat :=
  omap (fun ev => match ev with EvConnectAttempt a _ => Some a | _ => None end) tr.

(** The event loop before any call: an empty registry. *)
Definition sched_start (w : World) : Sched :=
  {| sched_world := w; sched_pending := []; sched_done := [] |}.

(** "The promise [p] settles only after every promise of [ps] has
    settled." *)
Definition settles_after_all {A B : Type} (p : Promise A) (ps : list (Promise B)) : Prop :=
  match p with
  | SettlesAt t _ =>
      Forall (fun q => match q with
                       | SettlesAt t' _ => (t' ≤ t)%nat
                       | NeverSettles => False
                       end) ps
  | NeverSettles => True
  end.

Definition rejections {A : Type} (ps : list (Promise A)) : list Error :=
  omap (fun p => match p with SettlesAt _ (Err e) => Some e | _ => None end) ps.

(** "The failures of [ps] are collected and reported in aggregate by
    [p]": a promise rejects with one reason, so every failure has to be
    that reason. *)
Definition reports_all_failures {A B : Type} (p : Promise A) (ps : list (Promise B)) : Prop :=
  match p with
  | SettlesAt _ (Err e) => Forall (fun e' => e' = e) (rejections ps)
  | _ => rejections ps = []
  end.

(** "The promise of [disconnectAll] settles only after every disconnect
    has settled and reports the failures in aggregate", at the world [w]. *)
Definition disconnectAll_waits_and_aggregates (w : World) : Prop :=
  ∃ p ps,
    fst (disconnectAll w) = Ok p ∧
    List.map _disconnect (List.map snd (adapters w)) = List.map Ok ps ∧
    settles_after_all p ps ∧
    reports_all_failures p ps.

(** The registry is well formed: one entry per tenant key, one adapter
    object per entry, and the trace records one creation and one call of
    [_connect] for each. The calls that returned, and those still waiting
    for the connection, hold the adapter object of their tenant key. *)
Record sched_inv (s : Sched) : Prop := {
  inv_keys : NoDup (List.map fst (adapters (sched_world s)));
  inv_fresh : Forall (fun ha => (inst_id (snd ha) < nextInstance (sched_world s))%nat)
                     (adapters (sched_world s));
  inv_ids : NoDup (List.map (fun ha => inst_id (snd ha)) (adapters (sched_world s)));
  inv_created : created_keys (trace (sched_world s)) = List.map fst (adapters (sched_world s));
  inv_connected : connect_calls (trace (sched_world s)) =
                  List.map (fun ha => inst_id (snd ha)) (adapters (sched_world s));
  inv_done : Forall (fun r => match snd r with
                              | Returned a =>
                                  adapters_get (tenantKey (fst r)) (adapters (sched_world s)) = Some a
                              | _ => True
                              end) (sched_done s);
  inv_pending : Forall (fun c => adapters_get (tenantKey (call_ctx c))
                                   (adapters (sched_world s)) = Some (call_adapter c))
                       (sched_pending s)
}.

(** ** The other entity methods *)

(** [Adapters.resolve], for the rest of the capability set. *)
Variable Adapters_resolve_rest : Value -> AdapterRest.

Definition rest_of (a : AdapterInst) : AdapterRest := Adapters_resolve_rest (inst_opts a).

(** The value of a [find] result; a missing result is reported as null. *)
Definition rows_value (r : option (list Obj)) : Value :=
  match r with
  | Some l => VArr (List.map VObj l)
  | None => VNull
  end.

Definition findEntities (fuel : nat) (ctx : Context) (params : Obj) (opts : CallOpts) : M Value :=
  params ← lift (sanitizeParams params None);
  let params := _applyScopes params ctx in
  adapter ← getAdapter fuel ctx;
  result ← await_find adapter params;
  let result := rows_value result in
  mret (if transform opts then transformResult this adapter result params ctx else result).

Definition countEntities (fuel : nat) (ctx : Context) (params : Obj) : M Value :=
  params ← lift (sanitizeParams params removeLimitOpts);
  let params := _applyScopes params ctx in
  adapter ← getAdapter fuel ctx;
  s ← read_store adapter;
  lift (adapter_count (rest_of adapter) params s).

Definition findEntity (fuel : nat) (ctx : Context) (params : Obj) (opts : CallOpts) : M Value :=
  params ← lift (sanitizeParams params removeLimitOpts);
  let params := _applyScopes params ctx in
  let params := <["limit" := VNum (Int 1)]> params in
  adapter ← getAdapter fuel ctx;
  s ← read_store adapter;
  result ← lift (adapter_findOne (rest_of adapter) (get params "query") s);
  mret (if transform opts then transformResult this adapter result params ctx else result).

(** [await adapter.insert(params)] *)
Definition await_insert (a : AdapterInst) (payload : Obj) : M Value :=
  s ← read_store a;
  r ← lift (adapter_insert (rest_of a) payload s);
  _ ← set_store (inst_id a) (snd r);
  mret (fst r).

(** [await adapter.insertMany(entities)] *)
Definition await_insertMany (a : AdapterInst) (payloads : list Obj) : M Value :=
  s ← read_store a;
  r ← lift (adapter_insertMany (rest_of a) payloads s);
  _ ← set_store (inst_id a) (snd r);
  mret (fst r).

(** [await adapter.clear(params)] *)
Definition await_clear (a : AdapterInst) (params : Value) : M Value :=
  s ← read_store a;
  r ← lift (adapter_clear (rest_of a) params s);
  _ ← set_store (inst_id a) (snd r);
  mret (fst r).

Definition createEntity (fuel : nat) (ctx : Context) (params : Obj) (opts : CallOpts) : M Value :=
  params ← await_validateParams ctx params "create" None;
  adapter ← getAdapter fuel ctx;
  result ← await_insert adapter params;
  let result := if transform opts then transformResult this adapter result ∅ ctx else result in
  _ ← _entityChanged result ctx "create";
  mret result.

(** The values of a sequence of results, or the leftmost error. *)
Fixpoint collect {A : Type} (rs : list (Result A)) : Result (list A) :=
  match rs with
  | [] => Ok []
  | Err e :: _ => Err e
  | Ok a :: rest =>
      match collect rest with
      | Ok l => Ok (a :: l)
      | Err e => Err e
      end
  end.

Fixpoint emit_all (evs : list Event) : M unit :=
  match evs with
  | [] => mret tt
  | ev :: rest => _ ← emit ev; emit_all rest
  end.

(** [await Promise.all(params.map(async entity => await
    this.validateParams(ctx, entity, { type: "create" })))]: every
    validation is started; the leftmost failure is the one reported. *)
Definition await_validateAll (ctx : Context) (params : list Obj) : M (list Obj) :=
  _ ← emit_all (List.map (EvValidate "create") params);
  lift (collect (List.map (fun entity => validateParams this ctx entity "create" None) params)).

Definition createEntities (fuel : nat) (ctx : Context) (params : list Obj) (opts : CallOpts) : M Value :=
  entities ← await_validateAll ctx params;
  adapter ← getAdapter fuel ctx;
  result ← await_insertMany adapter entities;
  let result := if transform opts then transformResult this adapter result ∅ ctx else result in
  _ ← _entityChanged result ctx "create";
  mret result.

Definition clearEntities (fuel : nat) (ctx : Context) (params : Value) : M Value :=
  adapter ← getAdapter fuel ctx;
  await_clear adapter params.


(** ** More properties, as definitions *)

(** The fields the sanitizer splits into sequences. *)
Definition is_list_field (k : string) : Prop :=
  k = "sort" ∨ k = "fields" ∨ k = "populate" ∨ k = "searchFields".


Definition is_string (v : Value) : bool :=
  match v with
  | VStr _ => true
  | _ => false
  end.

(** What lines 136-141 make of the value of a list field. *)
Definition split_value (v : Value) : Value :=
  match v with
  | VStr s => VArr (List.map VStr (split_spaces (replace_commas s)))
  | _ => v
  end.







(** The adapter object a first call for [ctx] creates in the world [w]. *)
Definition new_adapter (ctx : Context) (w : World) : AdapterInst :=
  {| inst_id := nextInstance w;
     inst_opts := snd (getAdapterByContext this ctx (adapter mixinOpts)) |}.

(** The world after that adapter object was created and [_connect] has
    made the attempts 0 to [n]. *)
Definition connected_after (n : nat) (ctx : Context) (w : World) : World :=
  {| adapters := adapters w ++ [(tenantKey ctx, new_adapter ctx w)];
     nextInstance := S (nextInstance w);
     stores := stores w;
     trace := trace w ++
              EvCreate (nextInstance w) (tenantKey ctx) :: EvConnect (nextInstance w) ::
              List.map (EvConnectAttempt (nextInstance w)) (seq 0 (S n)) |}.


(** The events of one notification about [data]: the cache-cleaning
    broadcast when caching is enabled and names an event, then the
    [entityChanged] hook. *)
Definition notify_events (type : string) (data : Value) : list Event :=
  match cacheOpts with
  | Some {| cache_eventName := Some (String a s) |} => [EvBroadcast (String a s)]
  | _ => []
  end ++ [EvEntityChanged type data].

Definition is_quiet (ev : Event) : Prop := is_notify_event ev = false.

(** A call of [m] that returns [v] has notified once, about [v], as the
    last thing it did. *)
Definition notifies_result (type : string) (m : M Value) : Prop :=
  ∀ w v w', m w = (Returned v, w') →
    ∃ pre, trace w' = trace w ++ pre ++ notify_events type v ∧ Forall is_quiet pre.

(** The events [evs] are those of a notification about [data] that threw
    [e]: the broadcast threw, and the hook was not called, or the hook
    threw. *)
Definition notification_failed (type : string) (ctx : Context) (data : Value) (e : Error)
    (evs : list Event) : Prop :=
  (∃ eventName, evs = [EvBroadcast eventName] ∧ broadcast this ctx eventName = Err e) ∨
  (evs = notify_events type data ∧ entityChanged this type data ctx = Err e).

(** A call of [m] that does not return has notified nobody, unless it is
    the notification that threw: then that is the last thing the call
    did, and the call throws the same. *)
Definition fails_quietly {A : Type} (type : string) (ctx : Context) (m : M A) : Prop :=
  ∀ w out w', m w = (out, w') → (∀ v, out ≠ Returned v) →
    ∃ pre, Forall is_quiet pre ∧
      (trace w' = trace w ++ pre ∨
       ∃ data e evs,
         out = Thrown e ∧ trace w' = trace w ++ pre ++ evs ∧
         notification_failed type ctx data e evs).

(** Between [w] and [w'] the registry has only grown, and the rows of the
    adapter object [i] are the same unless [i] is the adapter object of
    the tenant of [ctx]. *)
Definition stays_in_tenant (ctx : Context) (i : nat) (w w' : World) : Prop :=
  (∃ l, adapters w' = adapters w ++ l) ∧
  ((∀ a, adapters_get (tenantKey ctx) (adapters w') = Some a → inst_id a ≠ i) →
   stores w' !! i = stores w !! i).

Definition writes_in_tenant {A : Type} (ctx : Context) (m : M A) : Prop :=
  ∀ i w out w', m w = (out, w') → stays_in_tenant ctx i w w'.


(** An adapter call changes no rows but those of its adapter object. *)
Definition touches_only {A : Type} (a : AdapterInst) (m : M A) : Prop :=
  ∀ w out w', m w = (out, w') →
    adapters w' = adapters w ∧ ∀ j, j ≠ inst_id a → stores w' !! j = stores w !! j.






(** The events of [getAdapter]: creation and connection of an adapter
    object. *)
Definition is_connect_event (ev : Event) : bool :=
  match ev with
  | EvCreate _ _ | EvConnect _ | EvConnectAttempt _ _ => true
  | _ => false
  end.




(** * Properties *)

(** ** Objects *)


Lemma get_insert_ne (o : Obj) (k k' : string) (v : Value) :
  k ≠ k' → get (<[k := v]> o) k' = get o k'.
Proof. intros Hne. unfold get. by rewrite lookup_insert_ne. Qed.

Lemma get_lookup (o : Obj) (k : string) (v : Value) : o !! k = Some v → get o k = v.
Proof. intros H. unfold get. by rewrite H. Qed.


Lemma truthy_present (o : Obj) (k : string) :
  toBoolean (get o k) = true → o !! k = Some (get o k).
Proof. unfold get. destruct (o !! k); [done | discriminate]. Qed.

(** ** Parameter sanitizer *)

Lemma coerceNumber_lookup (k k' : string) (p : Obj) :
  coerceNumber k p !! k' = if decide (k = k') then coerced <$> p !! k' else p !! k'.
Proof.
  unfold coerceNumber. case_decide as Hk.
  - subst k'. destruct (p !! k) as [v|] eqn:E; [|by rewrite E].
    destruct v; rewrite ?lookup_insert_eq, ?E; done.
  - destruct (p !! k) as [v|]; [|done].
    destruct v; rewrite ?lookup_insert_ne; done.
Qed.

Lemma splitField_lookup_ne (k k' : string) (p : Obj) :
  k ≠ k' → splitField k p !! k' = p !! k'.
Proof.
  intros Hne. unfold splitField. destruct (p !! k) as [v|]; [|done].
  destruct v; rewrite ?lookup_insert_ne; done.
Qed.

Lemma parseQuery_lookup_ne (k : string) (p p0 : Obj) :
  k ≠ "query" → parseQuery p = Ok p0 → p0 !! k = p !! k.
Proof.
  intros Hne. unfold parseQuery. destruct (p !! "query") as [v|]; [|congruence].
  destruct v; try congruence.
  destruct (JSON_parse s); [|discriminate].
  intros [= <-]. by rewrite lookup_insert_ne.
Qed.

(** Up to the branch on [opts], a pagination field holds its coerced
    value. *)
Lemma prepared_lookup (k : string) (params p0 : Obj) :
  is_pagination_field k →
  parseQuery (coerceNumbers params) = Ok p0 →
  splitFields p0 !! k = coerced <$> params !! k.
Proof.
  intros Hk Hq. unfold splitFields.
  rewrite !splitField_lookup_ne by (destruct Hk as [->|[->|[->| ->]]]; discriminate).
  rewrite (parseQuery_lookup_ne k _ _ ltac:(destruct Hk as [->|[->|[->| ->]]]; discriminate) Hq).
  unfold coerceNumbers. rewrite !coerceNumber_lookup.
  destruct Hk as [->|[->|[->| ->]]]; repeat case_decide; done.
Qed.

Lemma prepared_get (k : string) (params p0 : Obj) :
  is_pagination_field k →
  parseQuery (coerceNumbers params) = Ok p0 →
  get (splitFields p0) k = coerced (get params k).
Proof.
  intros Hk Hq. unfold get. rewrite (prepared_lookup k params p0 Hk Hq).
  by destruct (params !! k).
Qed.

Lemma deleteIfTruthy_lookup (k k' : string) (p : Obj) :
  deleteIfTruthy k p !! k' =
    if decide (k = k') then (if toBoolean (get p k') then None else p !! k') else p !! k'.
Proof.
  unfold deleteIfTruthy. case_decide as Hk.
  - subst k'. destruct (toBoolean (get p k)); [apply lookup_delete_eq | done].
  - destruct (toBoolean (get p k)); [by apply lookup_delete_ne | done].
Qed.

Lemma deleteIfTruthy_get_ne (k k' : string) (p : Obj) :
  k ≠ k' → get (deleteIfTruthy k p) k' = get p k'.
Proof.
  intros Hne. unfold get. rewrite deleteIfTruthy_lookup. by case_decide.
Qed.

Lemma stripPagination_lookup (k : string) (p : Obj) :
  is_pagination_field k →
  stripPagination p !! k = if toBoolean (get p k) then None else p !! k.
Proof.
  intros Hk. unfold stripPagination.
  destruct Hk as [->|[->|[->| ->]]];
    repeat (rewrite deleteIfTruthy_lookup; case_decide; try discriminate);
    rewrite ?deleteIfTruthy_get_ne by discriminate; try done.
Qed.

Lemma js_gt_clamped (v : Value) :
  (0 <? maxLimit mixinOpts) && js_gt (clamped v) (maxLimit mixinOpts) = false.
Proof.
  unfold clamped.
  destruct ((0 <? maxLimit mixinOpts) && js_gt v (maxLimit mixinOpts)) eqn:E; [|done].
  apply andb_false_iff. right. unfold js_gt. simpl. apply Z.ltb_irrefl.
Qed.

Lemma paginate_lookup (p : Obj) :
  let ps := clamped (orDefault (get p "pageSize") (VNum (Int (defaultPageSize mixinOpts)))) in
  let pg := orDefault (get p "page") (VNum (Int 1)) in
  paginate p !! "pageSize" = Some ps ∧
  paginate p !! "page" = Some pg ∧
  paginate p !! "limit" = Some ps ∧
  paginate p !! "offset" = Some (VNum (num_mul (num_sub (toNumber pg) (Int 1)) (toNumber ps))).
Proof.
  intros ps pg. unfold paginate.
  set (p1 := if negb (toBoolean (get p "pageSize")) then _ else p).
  set (p2 := if negb (toBoolean (get p1 "page")) then _ else p1).
  set (p3 := if (0 <? maxLimit mixinOpts) && js_gt (get p2 "pageSize") (maxLimit mixinOpts)
             then _ else p2).
  assert (H1 : p1 !! "pageSize" = Some (orDefault (get p "pageSize") (VNum (Int (defaultPageSize mixinOpts))))
               ∧ get p1 "page" = get p "page").
  { subst p1. unfold orDefault. destruct (toBoolean (get p "pageSize")) eqn:E; simpl.
    - split; [by apply truthy_present | done].
    - split; [by rewrite lookup_insert_eq | by rewrite get_insert_ne]. }
  destruct H1 as [H1 H1'].
  assert (H2 : p2 !! "page" = Some pg ∧ p2 !! "pageSize" = p1 !! "pageSize").
  { subst p2 pg. unfold orDefault. rewrite H1'.
    destruct (toBoolean (get p "page")) eqn:E; simpl.
    - split; [|done]. rewrite <- H1'. apply truthy_present. by rewrite H1'.
    - split; [by rewrite lookup_insert_eq | by rewrite lookup_insert_ne]. }
  destruct H2 as [H2 H2'].
  assert (H3 : p3 !! "pageSize" = Some ps ∧ p3 !! "page" = Some pg).
  { subst p3 ps. unfold clamped. rewrite (get_lookup p2 "pageSize" _ (eq_trans H2' H1)).
    destruct ((0 <? maxLimit mixinOpts) && js_gt _ (maxLimit mixinOpts)).
    - split; [by rewrite lookup_insert_eq | by rewrite lookup_insert_ne].
    - split; [by rewrite H2', H1 | done]. }
  destruct H3 as [H3 H3'].
  rewrite (get_lookup p3 "pageSize" ps H3).
  rewrite get_insert_ne by discriminate. rewrite (get_lookup p3 "page" pg H3').
  rewrite get_insert_ne by discriminate. rewrite (get_lookup p3 "pageSize" ps H3).
  repeat split.
  - by rewrite !lookup_insert_ne.
  - by rewrite !lookup_insert_ne.
  - by rewrite lookup_insert_ne, lookup_insert_eq.
  - by rewrite lookup_insert_eq.
Qed.

Lemma clampLimit_lookup_ne (k : string) (p : Obj) :
  k ≠ "limit" → clampLimit p !! k = p !! k.
Proof.
  intros Hne. unfold clampLimit.
  destruct ((0 <? maxLimit mixinOpts) && js_gt (get p "limit") (maxLimit mixinOpts)); [|done].
  by rewrite lookup_insert_ne.
Qed.

(** The sanitizer returns a plan unless [JSON.parse] throws on the query
    text. *)
Lemma sanitizeParams_total (params : Obj) (opts : option SanitizeOpts) :
  (∀ s, params !! "query" = Some (VStr s) → is_Some (JSON_parse s)) →
  ∃ plan, sanitizeParams params opts = Ok plan.
Proof.
  intros Hq. unfold sanitizeParams.
  assert (Hp : ∃ p0, parseQuery (coerceNumbers params) = Ok p0).
  { unfold parseQuery.
    assert (E : coerceNumbers params !! "query" = params !! "query").
    { unfold coerceNumbers. rewrite !coerceNumber_lookup. by repeat case_decide. }
    rewrite E. destruct (params !! "query") as [v|] eqn:Ev; [|eauto].
    destruct v; eauto.
    destruct (Hq s eq_refl) as [q ->]. eauto. }
  destruct Hp as [p0 ->].
  destruct (match opts with Some o => removeLimit o | None => false end); eauto.
Qed.



(** ** Scope engine *)

Lemma applyScopes_unfold (params : Obj) (ctx : Context) :
  _applyScopes params ctx =
    match activeScopes params with
    | Some (s :: rest) =>
        <["query" := fold_left (applyScope ctx) (s :: rest)
                       (if toBoolean (get params "query") then get params "query" else VObj ∅)]>
          params
    | _ => params
    end.
Proof. reflexivity. Qed.

(** Scoping changes no field but [query]. *)
Lemma applyScopes_lookup_ne (params : Obj) (ctx : Context) (k : string) :
  k ≠ "query" → _applyScopes params ctx !! k = params !! k.
Proof.
  intros Hne. rewrite applyScopes_unfold.
  destruct (activeScopes params) as [[|s rest]|]; try done.
  by rewrite lookup_insert_ne.
Qed.

(** [C3] The active scope set is: none when [scope] is [false], and then
    the parameters come back as they are; the sequence itself when [scope]
    is a sequence, also when it is empty, and then nothing is applied
    either; otherwise, for a well-formed [scope] field, the set the
    specification describes (the non-empty string as a one-element
    sequence, the default scopes when the field is absent or the empty
    string). *)
Theorem applyScopes_active_set (params : Obj) (ctx : Context) :
  (params !! "scope" = Some (VBool false) →
   activeScopes params = None ∧ _applyScopes params ctx = params) ∧
  (∀ l, params !! "scope" = Some (VArr l) → activeScopes params = Some l) ∧
  (params !! "scope" = Some (VArr []) → _applyScopes params ctx = params) ∧
  (scope_well_formed params = true → params !! "scope" ≠ Some (VArr []) →
   follows_spec_scopes params).
Proof.
  unfold follows_spec_scopes, scope_well_formed.
  rewrite applyScopes_unfold. unfold activeScopes, spec_activeScopes, get.
  split; [|split; [|split]].
  - by intros ->.
  - by intros l ->.
  - by intros ->.
  - destruct (params !! "scope") as [v|]; [|done].
    destruct v as [| |[]| |[]|[]|]; done.
Qed.

(** ** Running asynchronous methods *)

Lemma bind_returned {A B : Type} (m : M A) (k : A → M B) (w w1 : World) (a : A) :
  m w = (Returned a, w1) → (m ≫= k) w = k a w1.
Proof. intros H. unfold mbind, M_bind, bind. by rewrite H. Qed.

Lemma bind_thrown {A B : Type} (m : M A) (k : A → M B) (w w1 : World) (e : Error) :
  m w = (Thrown e, w1) → (m ≫= k) w = (Thrown e, w1).
Proof. intros H. unfold mbind, M_bind, bind. by rewrite H. Qed.

Lemma bind_pending {A B : Type} (m : M A) (k : A → M B) (w w1 : World) :
  m w = (Pending, w1) → (m ≫= k) w = (Pending, w1).
Proof. intros H. unfold mbind, M_bind, bind. by rewrite H. Qed.

(** A sequence returns only if its first part returned; otherwise it ends
    where its first part ended. *)
Lemma bind_inv {A B : Type} (m : M A) (k : A → M B) (w w' : World) (out : Outcome B) :
  (m ≫= k) w = (out, w') →
  (∃ a w1, m w = (Returned a, w1) ∧ k a w1 = (out, w')) ∨
  (∃ e, m w = (Thrown e, w') ∧ out = Thrown e) ∨
  (m w = (Pending, w') ∧ out = Pending).
Proof.
  unfold mbind, M_bind, bind. destruct (m w) as [[a|e|] w1].
  - intros H. left. eauto.
  - intros [= <- <-]. right. left. eauto.
  - intros [= <- <-]. right. right. eauto.
Qed.

Lemma lift_inv {A : Type} (r : Result A) (w w' : World) (out : Outcome A) :
  lift r w = (out, w') → out = outcome_of r ∧ w' = w.
Proof. unfold lift. by intros [= <- <-]. Qed.

Lemma store_of_log_event (ev : Event) (w : World) (a : nat) :
  store_of (log_event ev w) a = store_of w a.
Proof. reflexivity. Qed.

(** ** resolve *)

(** Building the request changes no field but [query]. *)
Lemma resolveParams_lookup_ne (ctx : Context) (params fparams : Obj) (opts : CallOpts)
    (id : Value) (k : string) :
  k ≠ "query" → resolveParams ctx params opts id = Ok fparams → fparams !! k = params !! k.
Proof.
  intros Hne. unfold resolveParams.
  destruct (setProp _ _ _) as [q|]; [|discriminate].
  intros [= <-]. rewrite lookup_insert_ne by done. by apply applyScopes_lookup_ne.
Qed.

(** A call that reaches [adapter.find] ends with what [resolveResult]
    makes of the rows found. *)
Lemma resolveEntities_find (fuel : nat) (ctx : Context) (params fparams : Obj)
    (opts : CallOpts) (w w1 : World) (id : Value) (a : AdapterInst)
    (r : option (list Obj)) :
  _getIDFromParams params true = Ok id →
  resolveParams ctx params opts id = Ok fparams →
  getAdapter fuel ctx w = (Returned a, w1) →
  adapter_find (impl_of a) fparams (store_of w1 (inst_id a)) = Ok r →
  resolveEntities fuel ctx params opts w =
    (outcome_of (resolveResult ctx opts id a fparams r),
     log_event (EvFind (inst_id a) fparams) w1).
Proof.
  intros Hid Hp Ha Hf. unfold resolveEntities.
  rewrite (bind_returned _ _ w w id) by (unfold lift; by rewrite Hid).
  rewrite (bind_returned _ _ w w fparams) by (unfold lift; by rewrite Hp).
  rewrite (bind_returned _ _ w w1 a Ha).
  rewrite (bind_returned _ _ w1 (log_event (EvFind (inst_id a) fparams) w1) r).
  - reflexivity.
  - unfold await_find.
    rewrite (bind_returned _ _ w1 (log_event (EvFind (inst_id a) fparams) w1) tt) by done.
    rewrite (bind_returned _ _ _ (log_event (EvFind (inst_id a) fparams) w1)
               (store_of w1 (inst_id a))) by done.
    unfold lift. by rewrite Hf.
Qed.

(** The mapping loop files each document under the key of the entity at
    the same position. *)
Lemma buildMapping_fold (unT : list Obj) (docs : list Value) :
  ∀ (i : nat) (m : Obj),
    (i + length docs ≤ length unT)%nat →
    buildMapping unT (pf_columnName (primaryField this)) docs i m =
      Ok (fold_left (fun (m : Obj) (ed : Obj * Value) => assign m (mappingKey (fst ed)) (snd ed))
                    (zip (drop i unT) docs) m).
Proof.
  induction docs as [|doc docs IH]; intros i m Hlen; simpl in *.
  - by destruct (drop i unT).
  - destruct (unT !! i) as [ent|] eqn:Hi.
    + rewrite (drop_S _ _ _ Hi). simpl. rewrite IH by lia. reflexivity.
    + apply lookup_ge_None in Hi. lia.
Qed.

(** Filing with [assign] gives the mapping without the key [__proto__]. *)
Lemma assign_fold_delete (l : list (Obj * Value)) :
  ∀ m : Obj,
    fold_left (fun (m : Obj) (ed : Obj * Value) => assign m (mappingKey (fst ed)) (snd ed))
              l (delete "__proto__" m) =
    delete "__proto__"
      (fold_left (fun (m : Obj) (ed : Obj * Value) => <[mappingKey (fst ed) := snd ed]> m) l m).
Proof.
  induction l as [|[ent doc] l IH]; intros m; simpl; [done|].
  rewrite <- IH. f_equal. unfold assign.
  destruct (String.eqb (mappingKey ent) "__proto__") eqn:E.
  - apply String.eqb_eq in E. rewrite E. by rewrite delete_insert_eq.
  - apply String.eqb_neq in E. by rewrite delete_insert_ne.
Qed.

Lemma mappingOf_snoc (res : list Obj) (docs : list Value) (ent : Obj) (doc : Value) :
  length docs = length res →
  mappingOf (res ++ [ent]) (docs ++ [doc]) = <[mappingKey ent := doc]> (mappingOf res docs).
Proof.
  intros Hlen. unfold mappingOf.
  rewrite zip_with_app by done. by rewrite fold_left_app.
Qed.

Lemma mappingOf_keys (res : list Obj) :
  ∀ docs : list Value, length docs = length res →
  ∀ k, is_Some (mappingOf res docs !! k) ↔ ∃ ent, ent ∈ res ∧ mappingKey ent = k.
Proof.
  induction res as [|ent res IH] using rev_ind; intros docs Hlen k.
  - destruct docs; [|done]. unfold mappingOf. simpl. rewrite lookup_empty.
    split; [by intros [? ?]|]. intros (ent & Hin & _). by apply elem_of_nil in Hin.
  - rewrite length_app in Hlen. simpl in Hlen.
    destruct docs as [|doc docs' _] using rev_ind; [simpl in Hlen; lia|].
    rewrite length_app in Hlen. simpl in Hlen.
    rewrite mappingOf_snoc by lia.
    destruct (decide (mappingKey ent = k)) as [<-|Hne].
    + rewrite lookup_insert_eq. split; [|by eauto]. intros _. exists ent. split; [|done].
      apply elem_of_app. right. by apply list_elem_of_singleton.
    + rewrite lookup_insert_ne by done. rewrite IH by lia. split.
      * intros (e' & Hin & Hk). exists e'. split; [|done]. apply elem_of_app. by left.
      * intros (e' & Hin & Hk). apply elem_of_app in Hin. destruct Hin as [Hin|Hin]; [by eauto|].
        apply list_elem_of_singleton in Hin. by subst.
Qed.

Lemma mappingOf_last_wins (res : list Obj) :
  ∀ (docs : list Value) (i : nat) (ent : Obj) (doc : Value),
    length docs = length res →
    res !! i = Some ent → docs !! i = Some doc →
    (∀ j ent', (i < j)%nat → res !! j = Some ent' → mappingKey ent' ≠ mappingKey ent) →
    mappingOf res docs !! mappingKey ent = Some doc.
Proof.
  induction res as [|last res IH] using rev_ind; intros docs i ent doc Hlen Hi Hdi Hlater.
  - done.
  - rewrite length_app in Hlen. simpl in Hlen.
    destruct docs as [|d docs' _] using rev_ind; [simpl in Hlen; lia|].
    rewrite length_app in Hlen. simpl in Hlen.
    assert (Hl : length docs' = length res) by lia.
    rewrite mappingOf_snoc by done.
    destruct (decide (i = length res)) as [->|Hni].
    + rewrite list_lookup_middle in Hi by done. rewrite <- Hl in Hdi.
      rewrite list_lookup_middle in Hdi by done.
      injection Hi as ->. injection Hdi as ->. by rewrite lookup_insert_eq.
    + assert (Hlt : (i < length res)%nat).
      { apply lookup_lt_Some in Hi. rewrite length_app in Hi. simpl in Hi. lia. }
      rewrite lookup_app_l in Hi by done. rewrite lookup_app_l in Hdi by lia.
      rewrite lookup_insert_ne.
      * apply (IH docs' i ent doc Hl Hi Hdi). intros j ent' Hj Hent'.
        apply (Hlater j ent' Hj). rewrite lookup_app_l; [done|].
        by apply lookup_lt_Some in Hent'.
      * apply (Hlater (length res) last Hlt). by rewrite list_lookup_middle.
Qed.

Lemma resolveResult_mapping (ctx : Context) (opts : CallOpts) (id : Value) (a : AdapterInst)
    (fparams : Obj) (res : list Obj) (docs : list Value) :
  res ≠ [] →
  fparams !! "mapping" = Some (VBool true) →
  resolvedDocs a res fparams ctx opts = VArr docs →
  length docs = length res →
  resolveResult ctx opts id a fparams (Some res) =
    Ok (VObj (delete "__proto__" (mappingOf res docs))).
Proof.
  intros Hne Hm Hd Hlen. unfold resolveResult.
  destruct res as [|ent ents]; [done|]. cbn [andb].
  unfold resolvedDocs in Hd. rewrite Hd, (get_lookup _ _ _ Hm). cbn [isTrue].
  rewrite buildMapping_fold by (rewrite Hlen; simpl; lia).
  rewrite <- (delete_empty (M := gmap string) "__proto__") at 1.
  by rewrite assign_fold_delete.
Qed.

(** [C1] A resolve call with [mapping: true] whose adapter query returns
    the non-empty sequence [res] returns the object that files, in adapter
    order, each transformed document under the key of the untransformed
    entity at the same position (its primary column, encoded when the
    field is secure), a later entity with the same key overwriting an
    earlier one, with one exception: an entity whose key is [__proto__]
    gets no key. When no entity has that key the object is the mapping of
    the specification, and for the ids [[A, B]] of which the adapter finds
    only [A] it has the single key [A]. The ids are values whose
    conversion to a key is that of the embedding. *)
Theorem resolveEntities_mapping (fuel : nat) (ctx : Context) (params fparams : Obj)
    (opts : CallOpts) (w w1 : World) (id : Value) (a : AdapterInst)
    (res : list Obj) (docs : list Value) :
  _getIDFromParams params true = Ok id →
  resolveParams ctx params opts id = Ok fparams →
  getAdapter fuel ctx w = (Returned a, w1) →
  adapter_find (impl_of a) fparams (store_of w1 (inst_id a)) = Ok (Some res) →
  res ≠ [] →
  params !! "mapping" = Some (VBool true) →
  resolvedDocs a res fparams ctx opts = VArr docs →
  length docs = length res →
  Forall (fun ent => key_like (mappingId ent) = true) res →
  let result := delete "__proto__" (mappingOf res docs) in
  resolveEntities fuel ctx params opts w =
    (Returned (VObj result), log_event (EvFind (inst_id a) fparams) w1) ∧
  (∀ k, is_Some (result !! k) ↔ k ≠ "__proto__" ∧ ∃ ent, ent ∈ res ∧ mappingKey ent = k) ∧
  (∀ i ent doc,
     res !! i = Some ent → docs !! i = Some doc →
     mappingKey ent ≠ "__proto__" →
     (∀ j ent', (i < j)%nat → res !! j = Some ent' → mappingKey ent' ≠ mappingKey ent) →
     result !! mappingKey ent = Some doc) ∧
  (∀ ent, ent ∈ res → mappingKey ent = "__proto__" → result !! mappingKey ent = None) ∧
  (Forall (fun ent => mappingKey ent ≠ "__proto__") res → result = mappingOf res docs) ∧
  (∀ A B ent,
     id = VArr [A; B] → throwIfNotExist opts = false →
     res = [ent] → get ent (pf_columnName (primaryField this)) = A →
     pf_secure (primaryField this) = false →
     toString A ≠ "__proto__" →
     ∃ doc, docs = [doc] ∧ result = {[ toString A := doc ]}).
Proof.
  intros Hid Hp Ha Hf Hne Hm Hd Hlen _ result.
  assert (Hm' : fparams !! "mapping" = Some (VBool true)).
  { by rewrite (resolveParams_lookup_ne ctx params fparams opts id "mapping" ltac:(done) Hp). }
  assert (Hkeys : ∀ k, is_Some (result !! k) ↔
                       k ≠ "__proto__" ∧ ∃ ent, ent ∈ res ∧ mappingKey ent = k).
  { intros k. unfold result. destruct (decide (k = "__proto__")) as [->|Hk].
    - rewrite lookup_delete_eq. split; [by intros [? ?]|]. by intros [? _].
    - rewrite lookup_delete_ne by done. rewrite (mappingOf_keys res docs Hlen k).
      split; [by intros ?|by intros [_ ?]]. }
  split; [|split; [done|split; [|split; [|split]]]].
  - rewrite (resolveEntities_find fuel ctx params fparams opts w w1 id a (Some res) Hid Hp Ha Hf).
    by rewrite (resolveResult_mapping ctx opts id a fparams res docs Hne Hm' Hd Hlen).
  - intros i ent doc Hi Hdi Hk Hlater. unfold result. rewrite lookup_delete_ne by done.
    by apply (mappingOf_last_wins res docs i ent doc).
  - intros ent _ ->. apply lookup_delete_eq.
  - intros Hall. unfold result. apply delete_id.
    destruct (mappingOf res docs !! "__proto__") as [v|] eqn:E; [|done]. exfalso.
    destruct (proj1 (mappingOf_keys res docs Hlen "__proto__") (mk_is_Some _ _ E))
      as (ent & Hin & Hk).
    rewrite Forall_forall in Hall. by apply (Hall ent Hin).
  - intros A B ent _ _ -> HA Hsec HAk.
    destruct docs as [|doc [|]]; try discriminate. exists doc. split; [done|].
    unfold result, mappingOf, mappingKey. simpl. rewrite Hsec, HA.
    rewrite delete_insert_ne by done. by rewrite delete_empty.
Qed.


(** When the adapter hands back null instead of a sequence, the call
    still fails with [EntityNotFound] if asked to, and otherwise breaks on
    [Array.from]. *)
Lemma resolveResult_null (ctx : Context) (opts : CallOpts) (id : Value) (a : AdapterInst)
    (fparams : Obj) :
  resolveResult ctx opts id a fparams None =
    if throwIfNotExist opts then Err (EntityNotFound id) else Err TypeError.
Proof. unfold resolveResult. by destruct (throwIfNotExist opts). Qed.

(** ** What the methods add to the trace *)

Lemma emits_weaken {A : Type} (P Q : Event → Prop) (m : M A) :
  (∀ ev, P ev → Q ev) → emits P m → emits Q m.
Proof.
  intros HPQ Hm w out w' Hrun. destruct (Hm w out w' Hrun) as (evs & Ht & Hall).
  exists evs. split; [done|]. eapply Forall_impl; eauto.
Qed.

Lemma emits_ret {A : Type} (P : Event → Prop) (a : A) : emits P (mret a).
Proof. intros w out w' [= <- <-]. exists []. by rewrite app_nil_r. Qed.

Lemma emits_throw {A : Type} (P : Event → Prop) (e : Error) : emits P (@throw A e).
Proof. intros w out w' [= <- <-]. exists []. by rewrite app_nil_r. Qed.

Lemma emits_lift {A : Type} (P : Event → Prop) (r : Result A) : emits P (lift r).
Proof. intros w out w' [= <- <-]. exists []. by rewrite app_nil_r. Qed.

Lemma emits_emit (P : Event → Prop) (ev : Event) : P ev → emits P (emit ev).
Proof. intros HP w out w' [= <- <-]. exists [ev]. split; [done|]. by constructor. Qed.

Lemma emits_read_store (P : Event → Prop) (a : AdapterInst) : emits P (read_store a).
Proof. intros w out w' [= <- <-]. exists []. by rewrite app_nil_r. Qed.

Lemma emits_set_store (P : Event → Prop) (a : nat) (s : Store) : emits P (set_store a s).
Proof. intros w out w' [= <- <-]. exists []. by rewrite app_nil_r. Qed.

Lemma emits_bind {A B : Type} (P : Event → Prop) (m : M A) (k : A → M B) :
  emits P m → (∀ a, emits P (k a)) → emits P (m ≫= k).
Proof.
  intros Hm Hk w out w' Hrun.
  apply bind_inv in Hrun. destruct Hrun as [(a & w1 & Hm1 & Hk1)|[(e & Hm1 & _)|(Hm1 & _)]].
  - destruct (Hm _ _ _ Hm1) as (evs1 & Ht1 & Hall1).
    destruct (Hk a _ _ _ Hk1) as (evs2 & Ht2 & Hall2).
    exists (evs1 ++ evs2). split; [by rewrite Ht2, Ht1, app_assoc|]. by apply Forall_app.
  - exact (Hm _ _ _ Hm1).
  - exact (Hm _ _ _ Hm1).
Qed.

Lemma keeps_stores_ret {A : Type} (a : A) : keeps_stores (mret a).
Proof. by intros w out w' [= <- <-]. Qed.

Lemma keeps_stores_throw {A : Type} (e : Error) : keeps_stores (@throw A e).
Proof. by intros w out w' [= <- <-]. Qed.

Lemma keeps_stores_lift {A : Type} (r : Result A) : keeps_stores (lift r).
Proof. by intros w out w' [= <- <-]. Qed.

Lemma keeps_stores_emit (ev : Event) : keeps_stores (emit ev).
Proof. by intros w out w' [= <- <-]. Qed.

Lemma keeps_stores_read_store (a : AdapterInst) : keeps_stores (read_store a).
Proof. by intros w out w' [= <- <-]. Qed.

Lemma keeps_stores_bind {A B : Type} (m : M A) (k : A → M B) :
  keeps_stores m → (∀ a, keeps_stores (k a)) → keeps_stores (m ≫= k).
Proof.
  intros Hm Hk w out w' Hrun.
  apply bind_inv in Hrun. destruct Hrun as [(a & w1 & Hm1 & Hk1)|[(e & Hm1 & _)|(Hm1 & _)]].
  - by rewrite (Hk a _ _ _ Hk1), (Hm _ _ _ Hm1).
  - exact (Hm _ _ _ Hm1).
  - exact (Hm _ _ _ Hm1).
Qed.

Create HintDb effects.
#[local] Hint Resolve emits_ret emits_throw emits_lift emits_read_store emits_set_store
  keeps_stores_ret keeps_stores_throw keeps_stores_lift keeps_stores_emit
  keeps_stores_read_store : effects.

(** Connecting only logs connection attempts. *)
Lemma connecting_emits (P : Event → Prop) (a : AdapterInst) :
  (∀ ev, is_read_event ev = true → P ev) →
  ∀ fuel n, emits P (connecting fuel a n).
Proof.
  intros HP. induction fuel as [|fuel IH]; intros n.
  - intros w out w' [= <- <-]. exists []. by rewrite app_nil_r.
  - cbn [connecting]. apply emits_bind.
    + unfold connectAttempt. apply emits_bind; [apply emits_emit; by apply HP|].
      intros _. apply emits_ret.
    + intros [err|]; [|apply emits_ret].
      destruct (autoReconnect mixinOpts); [apply IH | apply emits_throw].
Qed.

Lemma connecting_keeps_stores (a : AdapterInst) :
  ∀ fuel n, keeps_stores (connecting fuel a n).
Proof.
  induction fuel as [|fuel IH]; intros n.
  - by intros w out w' [= <- <-].
  - cbn [connecting]. apply keeps_stores_bind.
    + unfold connectAttempt. apply keeps_stores_bind; auto with effects.
    + intros [err|]; [|auto with effects].
      destruct (autoReconnect mixinOpts); [apply IH | auto with effects].
Qed.

Lemma getAdapter_emits (P : Event → Prop) (fuel : nat) (ctx : Context) :
  (∀ ev, is_read_event ev = true → P ev) → emits P (getAdapter fuel ctx).
Proof.
  intros HP w out w' Hrun. unfold getAdapter, getAdapter_enter in Hrun.
  destruct (getAdapterByContext this ctx (adapter mixinOpts)) as [hash adapterOpts].
  destruct (adapters_get hash (adapters w)) as [item|].
  - injection Hrun as <- <-. exists []. by rewrite app_nil_r.
  - set (a := {| inst_id := nextInstance w; inst_opts := adapterOpts |}) in *.
    assert (Hc : emits P (_ ← _connect fuel a; mret a)).
    { apply emits_bind; [|intros; apply emits_ret].
      unfold _connect. apply emits_bind; [apply emits_emit; by apply HP|].
      intros _. by apply connecting_emits. }
    destruct (Hc _ _ _ Hrun) as (evs & Ht & Hall). cbn [trace] in Ht.
    exists (EvCreate (inst_id a) hash :: evs). split.
    + by rewrite Ht, <- app_assoc.
    + constructor; [by apply HP | done].
Qed.

Lemma getAdapter_keeps_stores (fuel : nat) (ctx : Context) : keeps_stores (getAdapter fuel ctx).
Proof.
  intros w out w' Hrun. unfold getAdapter, getAdapter_enter in Hrun.
  destruct (getAdapterByContext this ctx (adapter mixinOpts)) as [hash adapterOpts].
  destruct (adapters_get hash (adapters w)) as [item|].
  - by injection Hrun as <- <-.
  - set (a := {| inst_id := nextInstance w; inst_opts := adapterOpts |}) in *.
    assert (Hc : keeps_stores (_ ← _connect fuel a; mret a)).
    { apply keeps_stores_bind; [|auto with effects].
      unfold _connect. apply keeps_stores_bind; [auto with effects|].
      intros _. apply connecting_keeps_stores. }
    by rewrite (Hc _ _ _ Hrun).
Qed.

Lemma await_find_emits (P : Event → Prop) (a : AdapterInst) (params : Obj) :
  (∀ ev, is_read_event ev = true → P ev) → emits P (await_find a params).
Proof.
  intros HP. unfold await_find.
  apply emits_bind; [apply emits_emit; by apply HP|]. intros _.
  apply emits_bind; auto with effects.
Qed.

Lemma await_find_keeps_stores (a : AdapterInst) (params : Obj) :
  keeps_stores (await_find a params).
Proof.
  unfold await_find. apply keeps_stores_bind; [auto with effects|]. intros _.
  apply keeps_stores_bind; auto with effects.
Qed.

(** The existence check reads: it creates and connects an adapter object
    at most, calls [find], and leaves the rows alone. *)
Lemma resolveEntities_emits (P : Event → Prop) (fuel : nat) (ctx : Context) (params : Obj)
    (opts : CallOpts) :
  (∀ ev, is_read_event ev = true → P ev) → emits P (resolveEntities fuel ctx params opts).
Proof.
  intros HP. unfold resolveEntities.
  apply emits_bind; [auto with effects|]. intros id.
  apply emits_bind; [auto with effects|]. intros fparams.
  apply emits_bind; [by apply getAdapter_emits|]. intros a.
  apply emits_bind; [by apply await_find_emits|]. intros r.
  auto with effects.
Qed.


Lemma entityChanged_emits (P : Event → Prop) (data : Value) (ctx : Context) (type : string) :
  (∀ ev, is_notify_event ev = true → P ev) → emits P (_entityChanged data ctx type).
Proof.
  intros HP. unfold _entityChanged. apply emits_bind.
  - destruct cacheOpts as [[en [[|c s]|]]|]; try apply emits_ret.
    apply emits_bind; [apply emits_emit; by apply HP|]. intros _. apply emits_lift.
  - intros _. apply emits_bind; [apply emits_emit; by apply HP|]. intros _. apply emits_lift.
Qed.

Lemma stripPrimary_clean (params : Obj) :
  stripPrimary params !! pf_name (primaryField this) = None ∧
  stripPrimary params !! pf_columnName (primaryField this) = None.
Proof.
  unfold stripPrimary.
  destruct (String.eqb (pf_columnName (primaryField this)) (pf_name (primaryField this))) eqn:E; simpl.
  - apply String.eqb_eq in E. rewrite <- E. split; apply lookup_delete_eq.
  - apply String.eqb_neq in E. split.
    + apply lookup_delete_eq.
    + rewrite lookup_delete_ne by done. apply lookup_delete_eq.
Qed.

Lemma await_validateParams_run (ctx : Context) (params : Obj) (type : string)
    (oldEntity : option Value) (w : World) :
  await_validateParams ctx params type oldEntity w =
    (outcome_of (validateParams this ctx params type oldEntity),
     log_event (EvValidate type params) w).
Proof. reflexivity. Qed.

Lemma await_updateById_trace (a : AdapterInst) (id : Value) (payload : Obj)
    (raw : option bool) (w w' : World) (out : Outcome Value) :
  await_updateById a id payload raw w = (out, w') →
  trace w' = trace w ++ [EvUpdateById (inst_id a) id payload raw].
Proof.
  unfold await_updateById, mbind, M_bind, bind, emit, read_store, lift, set_store, mret, M_ret, ret.
  simpl. destruct (adapter_updateById _ _ _ _ _) as [[v s]|e]; simpl; by intros [= <- <-].
Qed.

Lemma await_replaceById_trace (a : AdapterInst) (id : Value) (payload : Obj)
    (w w' : World) (out : Outcome Value) :
  await_replaceById a id payload w = (out, w') →
  trace w' = trace w ++ [EvReplaceById (inst_id a) id payload].
Proof.
  unfold await_replaceById, mbind, M_bind, bind, emit, read_store, lift, set_store, mret, M_ret, ret.
  simpl. destruct (adapter_replaceById _ _ _ _) as [[v s]|e]; simpl; by intros [= <- <-].
Qed.

Lemma await_removeById_trace (a : AdapterInst) (id : Value) (w w' : World) (out : Outcome Value) :
  await_removeById a id w = (out, w') →
  trace w' = trace w ++ [EvRemoveById (inst_id a) id].
Proof.
  unfold await_removeById, mbind, M_bind, bind, emit, read_store, lift, set_store, mret, M_ret, ret.
  simpl. destruct (adapter_removeById _ _ _) as [[v s]|e]; simpl; by intros [= <- <-].
Qed.

Lemma await_updateById_emits (P : Event → Prop) (a : AdapterInst) (id : Value)
    (payload : Obj) (raw : option bool) :
  P (EvUpdateById (inst_id a) id payload raw) → emits P (await_updateById a id payload raw).
Proof.
  intros HP w out w' Hrun. exists [EvUpdateById (inst_id a) id payload raw].
  split; [by eapply await_updateById_trace | by constructor].
Qed.

Lemma await_replaceById_emits (P : Event → Prop) (a : AdapterInst) (id : Value) (payload : Obj) :
  P (EvReplaceById (inst_id a) id payload) → emits P (await_replaceById a id payload).
Proof.
  intros HP w out w' Hrun. exists [EvReplaceById (inst_id a) id payload].
  split; [by eapply await_replaceById_trace | by constructor].
Qed.

Lemma await_removeById_emits (P : Event → Prop) (a : AdapterInst) (id : Value) :
  P (EvRemoveById (inst_id a) id) → emits P (await_removeById a id).
Proof.
  intros HP w out w' Hrun. exists [EvRemoveById (inst_id a) id].
  split; [by eapply await_removeById_trace | by constructor].
Qed.

Lemma await_validateParams_emits (P : Event → Prop) (ctx : Context) (params : Obj)
    (type : string) (oldEntity : option Value) :
  P (EvValidate type params) → emits P (await_validateParams ctx params type oldEntity).
Proof.
  intros HP w out w'. rewrite await_validateParams_run. intros [= <- <-].
  exists [EvValidate type params]. split; [done | by constructor].
Qed.

Lemma trace_grows {A : Type} (m : M A) (w w' : World) (out : Outcome A) :
  emits (fun _ => True) m → m w = (out, w') → ∃ evs, trace w' = trace w ++ evs.
Proof. intros Hm Hrun. destruct (Hm _ _ _ Hrun) as (evs & Ht & _). eauto. Qed.

Tactic Notation "returned_step" hyp(H) "as" ident(a) ident(w1) ident(Ha) :=
  apply bind_inv in H;
  destruct H as [(a & w1 & Ha & H)|[(? & _ & ?)|(_ & ?)]]; [|discriminate..].

Lemma updateEntity_emits (P : Event → Prop) (fuel : nat) (ctx : Context) (params : Obj)
    (opts : CallOpts) :
  (∀ ev, is_read_event ev = true → P ev) →
  (∀ ev, is_notify_event ev = true → P ev) →
  (∀ ty p, P (EvValidate ty p)) →
  (∀ a id p raw, P (EvUpdateById a id (stripPrimary p) raw)) →
  emits P (updateEntity fuel ctx params opts).
Proof.
  intros Hread Hnote Hval Hupd. unfold updateEntity.
  apply emits_bind; [auto with effects|]. intros id.
  apply emits_bind; [by apply resolveEntities_emits|]. intros oldEntity.
  apply emits_bind.
  { destruct (negb _); [by apply await_validateParams_emits | apply emits_ret]. }
  intros p. apply emits_bind; [by apply getAdapter_emits|]. intros a.
  apply emits_bind; [by apply await_updateById_emits|]. intros r.
  apply emits_bind; [by apply entityChanged_emits|]. intros _. apply emits_ret.
Qed.

Lemma replaceEntity_emits (P : Event → Prop) (fuel : nat) (ctx : Context) (params : Obj)
    (opts : CallOpts) :
  (∀ ev, is_read_event ev = true → P ev) →
  (∀ ev, is_notify_event ev = true → P ev) →
  (∀ ty p, P (EvValidate ty p)) →
  (∀ a id p, P (EvReplaceById a id (stripPrimary p))) →
  emits P (replaceEntity fuel ctx params opts).
Proof.
  intros Hread Hnote Hval Hrep. unfold replaceEntity.
  apply emits_bind; [auto with effects|]. intros id.
  apply emits_bind; [by apply resolveEntities_emits|]. intros oldEntity.
  apply emits_bind; [by apply getAdapter_emits|]. intros a.
  apply emits_bind; [by apply await_validateParams_emits|]. intros p.
  apply emits_bind; [by apply await_replaceById_emits|]. intros r.
  apply emits_bind; [by apply entityChanged_emits|]. intros _. apply emits_ret.
Qed.

Lemma updateEntity_calls_adapter (fuel : nat) (ctx : Context) (params : Obj) (opts : CallOpts)
    (w w' : World) (v : Value) :
  updateEntity fuel ctx params opts w = (Returned v, w') →
  ∃ evs a id payload raw,
    trace w' = trace w ++ evs ∧ EvUpdateById a id payload raw ∈ evs.
Proof.
  intros H. unfold updateEntity in H.
  returned_step H as id w1 H1. returned_step H as old w2 H2. returned_step H as p w3 H3.
  returned_step H as a w4 H4. returned_step H as r w5 H5. returned_step H as u w6 H6.
  injection H as _ <-.
  apply lift_inv in H1. destruct H1 as [_ ->].
  destruct (trace_grows _ _ _ _
              (resolveEntities_emits (fun _ => True) _ _ _ _ (fun _ _ => I)) H2) as (e2 & T2).
  assert (T3 : ∃ e3, trace w3 = trace w2 ++ e3).
  { destruct (negb _).
    - rewrite await_validateParams_run in H3. injection H3 as _ <-. by eexists.
    - injection H3 as _ <-. exists []. by rewrite app_nil_r. }
  destruct T3 as (e3 & T3).
  destruct (trace_grows _ _ _ _ (getAdapter_emits (fun _ => True) _ _ (fun _ _ => I)) H4)
    as (e4 & T4).
  apply await_updateById_trace in H5.
  destruct (trace_grows _ _ _ _ (entityChanged_emits (fun _ => True) _ _ _ ltac:(done)) H6)
    as (e6 & T6).
  eexists (e2 ++ e3 ++ e4 ++ [_] ++ e6), _, _, _, _. split.
  - rewrite T6, H5, T4, T3, T2. by rewrite <- !app_assoc.
  - rewrite !elem_of_app. right. right. right. left. by apply list_elem_of_singleton.
Qed.

Lemma replaceEntity_calls_adapter (fuel : nat) (ctx : Context) (params : Obj) (opts : CallOpts)
    (w w' : World) (v : Value) :
  replaceEntity fuel ctx params opts w = (Returned v, w') →
  ∃ evs a id payload,
    trace w' = trace w ++ evs ∧ EvReplaceById a id payload ∈ evs.
Proof.
  intros H. unfold replaceEntity in H.
  returned_step H as id w1 H1. returned_step H as old w2 H2. returned_step H as a w3 H3.
  returned_step H as p w4 H4. returned_step H as r w5 H5. returned_step H as u w6 H6.
  injection H as _ <-.
  apply lift_inv in H1. destruct H1 as [_ ->].
  destruct (trace_grows _ _ _ _
              (resolveEntities_emits (fun _ => True) _ _ _ _ (fun _ _ => I)) H2) as (e2 & T2).
  destruct (trace_grows _ _ _ _ (getAdapter_emits (fun _ => True) _ _ (fun _ _ => I)) H3)
    as (e3 & T3).
  rewrite await_validateParams_run in H4. injection H4 as _ <-.
  apply await_replaceById_trace in H5.
  destruct (trace_grows _ _ _ _ (entityChanged_emits (fun _ => True) _ _ _ ltac:(done)) H6)
    as (e6 & T6).
  eexists (e2 ++ e3 ++ [_] ++ [_] ++ e6), _, _, _. split.
  - rewrite T6, H5. cbn [trace log_event]. rewrite T3, T2. by rewrite <- !app_assoc.
  - rewrite !elem_of_app. right. right. right. left. by apply list_elem_of_singleton.
Qed.

(** [C5] The payload of every [updateById] call of an update and of every
    [replaceById] call of a replace has neither the logical name nor the
    column name of the primary field, whatever the caller supplied; and a
    call that returns has made that adapter call. *)
Theorem update_replace_payload (fuel : nat) (ctx : Context) (params : Obj) (opts : CallOpts)
    (w w' : World) (out : Outcome Value) :
  (updateEntity fuel ctx params opts w = (out, w') →
   ∃ evs, trace w' = trace w ++ evs ∧ Forall payload_clean evs ∧
     (∀ v, out = Returned v → ∃ a id payload raw, EvUpdateById a id payload raw ∈ evs)) ∧
  (replaceEntity fuel ctx params opts w = (out, w') →
   ∃ evs, trace w' = trace w ++ evs ∧ Forall payload_clean evs ∧
     (∀ v, out = Returned v → ∃ a id payload, EvReplaceById a id payload ∈ evs)).
Proof.
  split; intros Hrun.
  - assert (He : emits payload_clean (updateEntity fuel ctx params opts)).
    { apply updateEntity_emits; [by intros [] | by intros [] | done |].
      intros. apply stripPrimary_clean. }
    destruct (He _ _ _ Hrun) as (evs & Ht & Hall).
    exists evs. split; [done|]. split; [done|]. intros v ->.
    destruct (updateEntity_calls_adapter _ _ _ _ _ _ _ Hrun)
      as (evs' & a & id & payload & raw & Ht' & Hin).
    rewrite Ht in Ht'. apply app_inv_head in Ht'. subst evs'. eauto.
  - assert (He : emits payload_clean (replaceEntity fuel ctx params opts)).
    { apply replaceEntity_emits; [by intros [] | by intros [] | done |].
      intros. apply stripPrimary_clean. }
    destruct (He _ _ _ Hrun) as (evs & Ht & Hall).
    exists evs. split; [done|]. split; [done|]. intros v ->.
    destruct (replaceEntity_calls_adapter _ _ _ _ _ _ _ Hrun)
      as (evs' & a & id & payload & Ht' & Hin).
    rewrite Ht in Ht'. apply app_inv_head in Ht'. subst evs'. eauto.
Qed.

(** ** remove *)

Lemma remove_write_emits (P : Event → Prop) (a : AdapterInst) (id : Value) (payload : Obj) :
  (softDelete this = true → P (EvUpdateById (inst_id a) id payload None)) →
  (softDelete this = false → P (EvRemoveById (inst_id a) id)) →
  emits P (if softDelete this then await_updateById a id payload None
           else await_removeById a id).
Proof.
  intros Hs Hh. destruct (softDelete this).
  - apply await_updateById_emits. by apply Hs.
  - apply await_removeById_emits. by apply Hh.
Qed.

Lemma removeEntity_emits (P : Event → Prop) (fuel : nat) (ctx : Context) (params : Obj)
    (opts : CallOpts) :
  (∀ ev, is_read_event ev = true → P ev) →
  (∀ ev, is_notify_event ev = true → P ev) →
  (∀ ty p, P (EvValidate ty p)) →
  (softDelete this = true → ∀ a id p raw, P (EvUpdateById a id p raw)) →
  (softDelete this = false → ∀ a id, P (EvRemoveById a id)) →
  emits P (removeEntity fuel ctx params opts).
Proof.
  intros Hread Hnote Hval Hsoft Hhard. unfold removeEntity.
  apply emits_bind; [auto with effects|]. intros id.
  apply emits_bind; [by apply resolveEntities_emits|]. intros entity.
  apply emits_bind; [by apply getAdapter_emits|]. intros a.
  apply emits_bind; [by apply await_validateParams_emits|]. intros p.
  apply emits_bind; [apply remove_write_emits; auto|]. intros r.
  apply emits_bind; [by apply entityChanged_emits|]. intros _. apply emits_ret.
Qed.

(** [C6] A remove call that returns, returns the id value read from the
    caller's parameters, as it was supplied; the adapter was called with
    the sanitized id, by [updateById] with the validated payload under
    soft delete and by [removeById] otherwise, and by no call of the other
    branch. *)
Theorem removeEntity_returns_original_id (fuel : nat) (ctx : Context) (params : Obj)
    (opts : CallOpts) (w w' : World) (v : Value) :
  removeEntity fuel ctx params opts w = (Returned v, w') →
  v = get params (pf_name (primaryField this)) ∧
  ∃ evs a payload,
    trace w' = trace w ++ evs ∧
    validateParams this ctx params "remove" None = Ok payload ∧
    Forall delete_branch_event evs ∧
    (if softDelete this
     then EvUpdateById a (_sanitizeID v opts) payload None ∈ evs
     else EvRemoveById a (_sanitizeID v opts) ∈ evs).
Proof.
  intros Hrun.
  assert (He : emits delete_branch_event (removeEntity fuel ctx params opts)).
  { apply removeEntity_emits; try done; by intros []. }
  destruct (He _ _ _ Hrun) as (evs & Ht & Hall).
  unfold removeEntity in Hrun.
  returned_step Hrun as id w1 H1. returned_step Hrun as entity w2 H2.
  returned_step Hrun as a w3 H3. returned_step Hrun as p w4 H4.
  returned_step Hrun as r w5 H5. returned_step Hrun as u w6 H6.
  injection Hrun as <- <-.
  apply lift_inv in H1. destruct H1 as [H1 ->].
  assert (Hid : id = get params (pf_name (primaryField this))).
  { unfold _getIDFromParams in H1. destruct (true && isNullish _); [discriminate|].
    by injection H1. }
  split; [done|].
  destruct (trace_grows _ _ _ _
              (resolveEntities_emits (fun _ => True) _ _ _ _ (fun _ _ => I)) H2) as (e2 & T2).
  destruct (trace_grows _ _ _ _ (getAdapter_emits (fun _ => True) _ _ (fun _ _ => I)) H3)
    as (e3 & T3).
  rewrite await_validateParams_run in H4.
  destruct (validateParams this ctx params "remove" None) as [payload|e] eqn:Hv;
    [|discriminate].
  injection H4 as <- <-.
  destruct (trace_grows _ _ _ _ (entityChanged_emits (fun _ => True) _ _ _ ltac:(done)) H6)
    as (e6 & T6).
  exists evs, (inst_id a), payload. split; [done|]. split; [done|]. split; [done|].
  assert (Hw : ∀ ev, trace w5 = trace (log_event (EvValidate "remove" params) w3) ++ [ev] →
               ev ∈ evs).
  { intros ev T5. rewrite T6, T5 in Ht. cbn [trace log_event] in Ht. rewrite T3, T2 in Ht.
    rewrite <- !app_assoc in Ht. apply app_inv_head in Ht. subst evs.
    rewrite !elem_of_app. right. right. right. left. by apply list_elem_of_singleton. }
  destruct (softDelete this).
  - apply Hw. by eapply await_updateById_trace.
  - apply Hw. by eapply await_removeById_trace.
Qed.


(** ** Adapter registry *)

Lemma adapters_get_app_Some (hash : string) (l l' : list (string * AdapterInst)) (a : AdapterInst) :
  adapters_get hash l = Some a → adapters_get hash (l ++ l') = Some a.
Proof.
  induction l as [|[h x] l IH]; simpl; [done|].
  destruct (String.eqb h hash); [done | exact IH].
Qed.

Lemma adapters_get_None (hash : string) (l : list (string * AdapterInst)) :
  adapters_get hash l = None → hash ∉ List.map fst l.
Proof.
  induction l as [|[h x] l IH]; simpl; intros Hg Hin.
  - by apply elem_of_nil in Hin.
  - destruct (String.eqb h hash) eqn:E; [discriminate|].
    apply String.eqb_neq in E. apply elem_of_cons in Hin. destruct Hin as [->|Hin]; [done|].
    by apply IH.
Qed.

Lemma adapters_get_snoc (hash : string) (l : list (string * AdapterInst)) (a : AdapterInst) :
  adapters_get hash l = None → adapters_get hash (l ++ [(hash, a)]) = Some a.
Proof.
  induction l as [|[h x] l IH]; simpl.
  - by rewrite String.eqb_refl.
  - destruct (String.eqb h hash); [discriminate | exact IH].
Qed.

(** The synchronous prefix either finds the entry of the tenant key or
    publishes a new adapter object under it. *)
Lemma getAdapter_enter_cases (ctx : Context) (w : World) :
  (∃ a, adapters_get (tenantKey ctx) (adapters w) = Some a ∧
        getAdapter_enter ctx w = (a, false, w)) ∨
  (adapters_get (tenantKey ctx) (adapters w) = None ∧
   let a := {| inst_id := nextInstance w;
               inst_opts := snd (getAdapterByContext this ctx (adapter mixinOpts)) |} in
   getAdapter_enter ctx w =
     (a, true,
      {| adapters := adapters w ++ [(tenantKey ctx, a)];
         nextInstance := S (nextInstance w);
         stores := stores w;
         trace := trace w ++ [EvCreate (nextInstance w) (tenantKey ctx)] |})).
Proof.
  unfold getAdapter_enter, tenantKey.
  destruct (getAdapterByContext this ctx (adapter mixinOpts)) as [hash adapterOpts]. simpl.
  destruct (adapters_get hash (adapters w)) as [a|]; [left; eauto | right; eauto].
Qed.

Lemma sched_inv_start (w : World) :
  adapters w = [] → trace w = [] → sched_inv (sched_start w).
Proof.
  intros Ha Ht. split; simpl; rewrite ?Ha, ?Ht; simpl; try done; constructor.
Qed.

Lemma sched_inv_call (ctx : Context) (s : Sched) :
  sched_inv s → sched_inv (sched_step (ActCall ctx) s).
Proof.
  intros [Ik If Ii Ic In Id Ip]. cbn [sched_step].
  destruct (getAdapter_enter_cases ctx (sched_world s)) as [(a & Hg & ->)|(Hg & ->)].
  - split; simpl; try done.
    apply Forall_app. split; [done|]. by repeat constructor.
  - set (a := {| inst_id := nextInstance (sched_world s); inst_opts := _ |}).
    split; simpl.
    + rewrite map_app. simpl. apply NoDup_app. split; [done|]. split.
      * intros h Hin Hin'. apply list_elem_of_singleton in Hin'. subst h.
        by apply adapters_get_None in Hg.
      * apply NoDup_singleton.
    + apply Forall_app. split.
      * eapply Forall_impl; [exact If|]. simpl. intros; lia.
      * constructor; [simpl; lia | constructor].
    + rewrite map_app. simpl. apply NoDup_app. split; [done|]. split.
      * intros i Hin Hin'. apply list_elem_of_singleton in Hin'. subst i.
        apply list_elem_of_fmap in Hin. destruct Hin as (ha & Hi & Hin).
        rewrite Forall_forall in If. specialize (If ha Hin). simpl in If. lia.
      * apply NoDup_singleton.
    + unfold created_keys in *. rewrite !omap_app, Ic, map_app. simpl. by rewrite app_nil_r.
    + unfold connect_calls in *. rewrite !omap_app, In, map_app. simpl. by rewrite app_nil_r.
    + eapply Forall_impl; [exact Id|]. intros [c [x| |]]; simpl; try done.
      by apply adapters_get_app_Some.
    + apply Forall_app. split.
      * eapply Forall_impl; [exact Ip|]. intros c. by apply adapters_get_app_Some.
      * constructor; [simpl; by apply adapters_get_snoc | constructor].
Qed.

Lemma sched_inv_attempt (i : nat) (s : Sched) :
  sched_inv s → sched_inv (sched_step (ActAttempt i) s).
Proof.
  intros Hinv. cbn [sched_step].
  destruct (sched_pending s !! i) as [c|] eqn:Hc; [|done].
  destruct Hinv as [Ik If Ii Ic In Id Ip].
  assert (Hpc : adapters_get (tenantKey (call_ctx c)) (adapters (sched_world s))
                = Some (call_adapter c)).
  { rewrite Forall_forall in Ip. apply Ip. by eapply list_elem_of_lookup_2. }
  assert (Hdel : Forall (fun c => adapters_get (tenantKey (call_ctx c))
                                    (adapters (sched_world s)) = Some (call_adapter c))
                        (delete i (sched_pending s))).
  { by apply Forall_delete. }
  unfold connectAttempt, mbind, M_bind, bind, emit, mret, M_ret, ret. simpl.
  assert (Hc' : ∀ tr, created_keys (tr ++ [EvConnectAttempt (inst_id (call_adapter c)) (call_attempt c)])
                      = created_keys tr).
  { intros tr. unfold created_keys. rewrite omap_app. simpl. by rewrite app_nil_r. }
  assert (Hn' : ∀ tr, connect_calls (tr ++ [EvConnectAttempt (inst_id (call_adapter c)) (call_attempt c)])
                      = connect_calls tr).
  { intros tr. unfold connect_calls. rewrite omap_app. simpl. by rewrite app_nil_r. }
  destruct (adapter_connect _ _ _) as [err|].
  - destruct (autoReconnect mixinOpts).
    + split; simpl; rewrite ?Hc', ?Hn'; try done.
      apply Forall_insert; [done|]. done.
    + split; simpl; rewrite ?Hc', ?Hn'; try done.
      apply Forall_app. split; [done|]. by repeat constructor.
  - split; simpl; rewrite ?Hc', ?Hn'; try done.
    apply Forall_app. split; [done|]. by repeat constructor.
Qed.

Lemma sched_inv_run (acts : list Action) :
  ∀ s, sched_inv s → sched_inv (run acts s).
Proof.
  induction acts as [|act acts IH]; intros s Hs; [done|].
  unfold run. simpl. apply IH. destruct act; [by apply sched_inv_call | by apply sched_inv_attempt].
Qed.

Lemma connecting_adapters (a : AdapterInst) :
  ∀ fuel n w out w1, connecting fuel a n w = (out, w1) → adapters w1 = adapters w.
Proof.
  induction fuel as [|fuel IH]; intros n w out w1; cbn [connecting].
  - by intros [= <- <-].
  - unfold connectAttempt, mbind, M_bind, bind, emit, mret, M_ret, ret, throw. simpl.
    destruct (adapter_connect _ _ _) as [err|]; [|by intros [= <- <-]].
    destruct (autoReconnect mixinOpts); [|by intros [= <- <-]].
    intros H. by rewrite (IH _ _ _ _ H).
Qed.

(** With [autoReconnect], [_connect] resolves once [connect()] succeeds,
    given the fuel for the failed attempts before. *)
Lemma connecting_enough_fuel (a : AdapterInst) :
  autoReconnect mixinOpts = true →
  ∀ (n fuel k : nat) (w : World),
    (∀ j, (k ≤ j < k + n)%nat → is_Some (adapter_connect (impl_of a) (inst_id a) j)) →
    adapter_connect (impl_of a) (inst_id a) (k + n) = None →
    (n < fuel)%nat →
    ∃ w', connecting fuel a k w = (Returned tt, w').
Proof.
  intros Hauto. induction n as [|n IH]; intros fuel k w Hfail Hok Hfuel.
  - destruct fuel as [|fuel]; [lia|]. cbn [connecting].
    unfold connectAttempt, mbind, M_bind, bind, emit, mret, M_ret, ret. simpl.
    rewrite Nat.add_0_r in Hok. rewrite Hok. eauto.
  - destruct fuel as [|fuel]; [lia|]. cbn [connecting].
    unfold connectAttempt, mbind, M_bind, bind, emit, mret, M_ret, ret. simpl.
    destruct (Hfail k ltac:(lia)) as [err ->]. rewrite Hauto.
    apply IH; [|by rewrite Nat.add_succ_l, <- Nat.add_succ_r | lia].
    intros j Hj. apply Hfail. lia.
Qed.

(** A call that returned has left its adapter object in the registry. *)
Lemma getAdapter_registered (fuel : nat) (ctx : Context) (w w1 : World) (a : AdapterInst) :
  getAdapter fuel ctx w = (Returned a, w1) →
  adapters_get (tenantKey ctx) (adapters w1) = Some a.
Proof.
  unfold getAdapter.
  destruct (getAdapter_enter_cases ctx w) as [(a' & Hg & ->)|(Hg & ->)]; cbv zeta.
  - by intros [= <- <-].
  - set (a' := {| inst_id := nextInstance w; inst_opts := _ |}).
    unfold _connect. intros H.
    returned_step H as u w2 H2. injection H as <- <-.
    returned_step H2 as u' w3 H3. injection H3 as <- <-.
    apply connecting_adapters in H2. rewrite H2. simpl. by apply adapters_get_snoc.
Qed.

Lemma getAdapter_reuse (fuel : nat) (ctx : Context) (w : World) (a : AdapterInst) :
  adapters_get (tenantKey ctx) (adapters w) = Some a →
  getAdapter fuel ctx w = (Returned a, w).
Proof.
  intros Hg. unfold getAdapter.
  destruct (getAdapter_enter_cases ctx w) as [(a' & Hg' & ->)|(Hg' & _)]; [|congruence].
  congruence.
Qed.

(** Without [autoReconnect] no adapter object sees a second [connect()]:
    the objects already tried and those of the waiting calls are all
    different. *)
Lemma sched_attempts_once (acts : list Action) :
  autoReconnect mixinOpts = false →
  ∀ s,
    NoDup (attempt_calls (trace (sched_world s)) ++
           List.map (fun c => inst_id (call_adapter c)) (sched_pending s)) →
    Forall (fun i => (i < nextInstance (sched_world s))%nat)
           (attempt_calls (trace (sched_world s)) ++
            List.map (fun c => inst_id (call_adapter c)) (sched_pending s)) →
    NoDup (attempt_calls (trace (sched_world (run acts s)))).
Proof.
  intros Hauto. induction acts as [|act acts IH]; intros s Hnd Hlt.
  - simpl. by apply NoDup_app in Hnd as (? & _).
  - unfold run. simpl. destruct act as [ctx|i]; cbn [sched_step].
    + destruct (getAdapter_enter_cases ctx (sched_world s)) as [(a & Hg & ->)|(Hg & ->)];
        [by apply IH|].
      apply IH; simpl; unfold attempt_calls in *; rewrite !omap_app; simpl;
        rewrite !app_nil_r, map_app; simpl; rewrite app_assoc.
      * apply NoDup_app. split; [done|]. split; [|apply NoDup_singleton].
        intros x Hx Hx'. apply list_elem_of_singleton in Hx'. subst x.
        rewrite Forall_forall in Hlt. specialize (Hlt _ Hx). lia.
      * apply Forall_app. split.
        -- eapply Forall_impl; [exact Hlt|]. simpl. intros; lia.
        -- constructor; [lia | constructor].
    + destruct (sched_pending s !! i) as [c|] eqn:Hc; [|by apply IH].
      unfold connectAttempt, mbind, M_bind, bind, emit, mret, M_ret, ret. simpl.
      assert (Hperm : (attempt_calls (trace (sched_world s)) ++ [inst_id (call_adapter c)]) ++
                      List.map (fun c => inst_id (call_adapter c)) (delete i (sched_pending s))
                      ≡ₚ attempt_calls (trace (sched_world s)) ++
                         List.map (fun c => inst_id (call_adapter c)) (sched_pending s)).
      { rewrite <- app_assoc. apply Permutation_app_head.
        rewrite <- (take_drop_middle (sched_pending s) i c Hc) at 2.
        rewrite delete_take_drop, !map_app. simpl. apply Permutation_middle. }
      destruct (adapter_connect _ _ _) as [err|]; rewrite ?Hauto;
        (apply IH; simpl; unfold attempt_calls in *; rewrite omap_app; simpl;
         by rewrite Hperm).
Qed.

(** The event loop agrees with the method: one call of [getAdapter] that
    settles is its synchronous prefix followed by the connection attempts
    of its [_connect]. *)
Lemma connecting_as_schedule (ctx : Context) (a : AdapterInst)
    (done : list (Context * Outcome AdapterInst)) :
  ∀ fuel n w out w',
    connecting fuel a n w = (out, w') → out ≠ Pending →
    ∃ k,
      run (replicate k (ActAttempt 0))
          {| sched_world := w;
             sched_pending := [{| call_ctx := ctx; call_adapter := a; call_attempt := n |}];
             sched_done := done |}
      = {| sched_world := w'; sched_pending := [];
           sched_done := done ++ [(ctx, match out with
                                        | Returned _ => Returned a
                                        | Thrown e => Thrown e
                                        | Pending => Pending
                                        end)] |}.
Proof.
  induction fuel as [|fuel IH]; intros n w out w'; cbn [connecting].
  - intros [= <- <-] Hne. done.
  - unfold mbind, M_bind, bind. 
    destruct (connectAttempt a n w) as [r w1] eqn:Hatt.
    assert (Hr : r = Returned (adapter_connect (impl_of a) (inst_id a) n)).
    { unfold connectAttempt, mbind, M_bind, bind, emit, mret, M_ret, ret in Hatt.
      by injection Hatt as <- _. }
    subst r. destruct (adapter_connect (impl_of a) (inst_id a) n) as [err|] eqn:Hc.
    + destruct (autoReconnect mixinOpts) eqn:Hauto.
      * intros Hrun Hne. destruct (IH (S n) w1 out w' Hrun Hne) as (k & Hk).
        exists (S k). unfold run in *. cbn [replicate fold_left sched_step].
        cbn [sched_pending sched_world lookup list_lookup call_adapter call_attempt call_ctx].
        rewrite Hatt, Hauto. exact Hk.
      * intros [= <- <-] _. exists 1%nat. unfold run.
        cbn [replicate fold_left sched_step].
        cbn [sched_pending sched_world lookup list_lookup call_adapter call_attempt call_ctx].
        by rewrite Hatt, Hauto.
    + intros [= <- <-] _. exists 1%nat. unfold run.
      cbn [replicate fold_left sched_step].
      cbn [sched_pending sched_world lookup list_lookup call_adapter call_attempt call_ctx].
      by rewrite Hatt.
Qed.

Lemma getAdapter_as_schedule (fuel : nat) (ctx : Context) (w w' : World)
    (out : Outcome AdapterInst) :
  getAdapter fuel ctx w = (out, w') → out ≠ Pending →
  ∃ k,
    run (ActCall ctx :: replicate k (ActAttempt 0)) (sched_start w)
    = {| sched_world := w'; sched_pending := []; sched_done := [(ctx, out)] |}.
Proof.
  unfold getAdapter. intros Hrun Hne.
  destruct (getAdapter_enter ctx w) as [[a fresh] w1] eqn:Henter.
  destruct fresh.
  - unfold _connect in Hrun.
    apply bind_inv in Hrun.
    destruct Hrun as [(u & w2 & H2 & Hret)|[(e & H2 & ->)|(H2 & ->)]]; [| |done].
    + injection Hret as <- <-.
      apply bind_inv in H2.
      destruct H2 as [([] & w3 & H3 & H2)|[(e & H3 & _)|(H3 & _)]]; [|discriminate..].
      injection H3 as <-.
      destruct (connecting_as_schedule ctx a [] _ _ _ _ _ H2 ltac:(done)) as (k & Hk).
      exists k. unfold run in *. cbn [fold_left sched_step sched_start sched_world].
      rewrite Henter. exact Hk.
    + apply bind_inv in H2.
      destruct H2 as [([] & w3 & H3 & H2)|[(e' & H3 & _)|(H3 & _)]]; [|discriminate..].
      injection H3 as <-.
      destruct (connecting_as_schedule ctx a [] _ _ _ _ _ H2 ltac:(done)) as (k & Hk).
      exists k. unfold run in *. cbn [fold_left sched_step sched_start sched_world].
      rewrite Henter. exact Hk.
  - injection Hrun as <- <-. exists 0%nat. unfold run.
    cbn [replicate fold_left sched_step sched_start sched_world]. by rewrite Henter.
Qed.

Lemma getAdapter_enter_new (ctx : Context) (w : World) :
  adapters_get (tenantKey ctx) (adapters w) = None →
  getAdapter_enter ctx w =
    (new_adapter ctx w, true,
     {| adapters := adapters w ++ [(tenantKey ctx, new_adapter ctx w)];
        nextInstance := S (nextInstance w);
        stores := stores w;
        trace := trace w ++ [EvCreate (nextInstance w) (tenantKey ctx)] |}).
Proof.
  intros Hg. destruct (getAdapter_enter_cases ctx w) as [(a & Hg' & _)|(_ & E)]; [congruence|].
  exact E.
Qed.

(** [connecting] calls nothing but [connect()] on its adapter object, and
    leaves the registry alone. *)
Lemma connecting_attempts_only (a : AdapterInst) :
  ∀ fuel n w out w1,
    connecting fuel a n w = (out, w1) →
    ∃ attempts,
      trace w1 = trace w ++ attempts ∧
      Forall (fun ev => ∃ k, ev = EvConnectAttempt (inst_id a) k) attempts.
Proof.
  induction fuel as [|fuel IH]; intros n w out w1 H.
  - injection H as <- <-. exists []. by rewrite app_nil_r.
  - cbn [connecting] in H.
    unfold connectAttempt, mbind, M_bind, bind, emit, mret, M_ret, ret in H. simpl in H.
    destruct (adapter_connect (impl_of a) (inst_id a) n) as [err|].
    + destruct (autoReconnect mixinOpts).
      * destruct (IH _ _ _ _ H) as (att & T & Q). cbn [trace log_event] in T.
        exists (EvConnectAttempt (inst_id a) n :: att).
        split; [by rewrite T, <- app_assoc|]. constructor; [by eexists|done].
      * injection H as <- <-. exists [EvConnectAttempt (inst_id a) n].
        split; [done|]. constructor; [by eexists|done].
    + injection H as <- <-. exists [EvConnectAttempt (inst_id a) n].
      split; [done|]. constructor; [by eexists|done].
Qed.

(** A first call for a tenant key publishes a new adapter object under
    the key and calls [_connect] on it, whatever comes of the connection. *)
Lemma getAdapter_creates (fuel : nat) (ctx : Context) (w w1 : World)
    (out : Outcome AdapterInst) :
  adapters_get (tenantKey ctx) (adapters w) = None →
  getAdapter fuel ctx w = (out, w1) →
  adapters w1 = adapters w ++ [(tenantKey ctx, new_adapter ctx w)] ∧
  (∃ attempts,
     trace w1 = trace w ++ EvCreate (nextInstance w) (tenantKey ctx) ::
                           EvConnect (nextInstance w) :: attempts ∧
     Forall (fun ev => ∃ k, ev = EvConnectAttempt (nextInstance w) k) attempts) ∧
  (∀ a, out = Returned a → a = new_adapter ctx w).
Proof.
  intros Hg H. unfold getAdapter in H. rewrite (getAdapter_enter_new ctx w Hg) in H.
  unfold _connect, mbind, M_bind, bind, emit in H.
  destruct (connecting fuel (new_adapter ctx w) 0 _) as [o w2] eqn:Hc.
  pose proof (connecting_adapters _ _ _ _ _ _ Hc) as Ha.
  destruct (connecting_attempts_only _ _ _ _ _ _ Hc) as (att & T & Q).
  cbn [adapters trace log_event] in Ha, T.
  assert (w1 = w2) as -> by (by destruct o; injection H as _ <-).
  split; [done|]. split.
  - exists att. split; [by rewrite T, <- !app_assoc|done].
  - intros a ->. destruct o; try discriminate. by injection H as <-.
Qed.

(** In the event loop the registry only grows, and the call of a context
    registers its tenant key. *)
Lemma sched_step_registry (act : Action) (s : Sched) :
  ∃ l, adapters (sched_world (sched_step act s)) = adapters (sched_world s) ++ l.
Proof.
  destruct act as [ctx|i]; cbn [sched_step].
  - destruct (getAdapter_enter_cases ctx (sched_world s)) as [(a & Hg & ->)|(Hg & ->)]; simpl.
    + exists []. by rewrite app_nil_r.
    + by eexists.
  - destruct (sched_pending s !! i) as [c|]; [|exists []; by rewrite app_nil_r].
    unfold connectAttempt, mbind, M_bind, bind, emit, mret, M_ret, ret. simpl.
    destruct (adapter_connect _ _ _) as [err|]; [destruct (autoReconnect mixinOpts)|];
      simpl; exists []; by rewrite app_nil_r.
Qed.

Lemma sched_call_registers (ctx : Context) (s : Sched) :
  is_Some (adapters_get (tenantKey ctx) (adapters (sched_world (sched_step (ActCall ctx) s)))).
Proof.
  cbn [sched_step].
  destruct (getAdapter_enter_cases ctx (sched_world s)) as [(a & Hg & ->)|(Hg & ->)]; simpl.
  - by eexists.
  - eexists. by apply adapters_get_snoc.
Qed.

Lemma sched_run_registers (ctx : Context) (acts : list Action) :
  ∀ s,
    ActCall ctx ∈ acts ∨ is_Some (adapters_get (tenantKey ctx) (adapters (sched_world s))) →
    is_Some (adapters_get (tenantKey ctx) (adapters (sched_world (run acts s)))).
Proof.
  induction acts as [|act acts IH]; intros s H.
  - destruct H as [H|H]; [by apply elem_of_nil in H|done].
  - change (run (act :: acts) s) with (run acts (sched_step act s)). apply IH.
    destruct H as [H|[a Ha]].
    + apply elem_of_cons in H. destruct H as [<-|H]; [|by left].
      right. apply sched_call_registers.
    + right. destruct (sched_step_registry act s) as [l ->].
      exists a. by apply adapters_get_app_Some.
Qed.

(** [C7] A first call of [getAdapter] for a tenant key creates an adapter
    object, publishes it under the key and calls [_connect] on it; it
    returns that object once [connect()] has accepted. A call for a key
    that has an entry returns the object of the entry and changes
    nothing, so a call after one that returned, for the same key, returns
    the same object: no second object, no second call of [_connect]. And
    however calls and connection attempts interleave from an empty
    registry, every call has registered its key, the calls that return
    for one tenant key return the same adapter object, which is the one
    registered under the key, the registry has one entry per key, and each
    entry was created once and [_connect]ed once; without [autoReconnect],
    [connect()] itself is called at most once on each adapter object. A
    call on its own is one of these interleavings. *)
Theorem getAdapter_one_instance_per_key (w : World) :
  (∀ fuel ctx out w1,
     adapters_get (tenantKey ctx) (adapters w) = None →
     getAdapter fuel ctx w = (out, w1) →
     adapters w1 = adapters w ++ [(tenantKey ctx, new_adapter ctx w)] ∧
     (∃ attempts,
        trace w1 = trace w ++ EvCreate (nextInstance w) (tenantKey ctx) ::
                              EvConnect (nextInstance w) :: attempts ∧
        Forall (fun ev => ∃ k, ev = EvConnectAttempt (nextInstance w) k) attempts) ∧
     (∀ a, out = Returned a → a = new_adapter ctx w)) ∧
  (∀ fuel ctx,
     adapters_get (tenantKey ctx) (adapters w) = None →
     adapter_connect (impl_of (new_adapter ctx w)) (nextInstance w) 0 = None →
     getAdapter (S fuel) ctx w = (Returned (new_adapter ctx w), connected_after 0 ctx w)) ∧
  (∀ fuel ctx a,
     adapters_get (tenantKey ctx) (adapters w) = Some a →
     getAdapter fuel ctx w = (Returned a, w)) ∧
  (∀ fuel fuel' ctx ctx' a w1,
     getAdapter fuel ctx w = (Returned a, w1) →
     tenantKey ctx' = tenantKey ctx →
     adapters_get (tenantKey ctx) (adapters w1) = Some a ∧
     getAdapter fuel' ctx' w1 = (Returned a, w1)) ∧
  (∀ fuel ctx out w1,
     getAdapter fuel ctx w = (out, w1) → out ≠ Pending →
     ∃ k, run (ActCall ctx :: replicate k (ActAttempt 0)) (sched_start w) =
          {| sched_world := w1; sched_pending := []; sched_done := [(ctx, out)] |}) ∧
  (adapters w = [] → trace w = [] →
   ∀ acts,
     let s := run acts (sched_start w) in
     (∀ ctx, ActCall ctx ∈ acts →
        is_Some (adapters_get (tenantKey ctx) (adapters (sched_world s)))) ∧
     (∀ ctx a, (ctx, Returned a) ∈ sched_done s →
        adapters_get (tenantKey ctx) (adapters (sched_world s)) = Some a) ∧
     (∀ ctx1 ctx2 a1 a2,
        (ctx1, Returned a1) ∈ sched_done s → (ctx2, Returned a2) ∈ sched_done s →
        tenantKey ctx1 = tenantKey ctx2 → a1 = a2) ∧
     NoDup (List.map fst (adapters (sched_world s))) ∧
     created_keys (trace (sched_world s)) = List.map fst (adapters (sched_world s)) ∧
     NoDup (connect_calls (trace (sched_world s))) ∧
     connect_calls (trace (sched_world s)) =
       List.map (fun ha => inst_id (snd ha)) (adapters (sched_world s)) ∧
     (autoReconnect mixinOpts = false → NoDup (attempt_calls (trace (sched_world s))))).
Proof.
  split; [|split; [|split; [|split; [|split]]]].
  - intros fuel ctx out w1. apply getAdapter_creates.
  - intros fuel ctx Hg Hok. unfold getAdapter. rewrite (getAdapter_enter_new ctx w Hg).
    unfold _connect. cbn [connecting].
    unfold connectAttempt, mbind, M_bind, bind, emit, mret, M_ret, ret. simpl.
    rewrite Hok. unfold connected_after, log_event. simpl. by rewrite <- !app_assoc.
  - intros fuel ctx a. apply getAdapter_reuse.
  - intros fuel fuel' ctx ctx' a w1 Hrun Hkey.
    pose proof (getAdapter_registered _ _ _ _ _ Hrun) as Hreg. split; [done|].
    apply getAdapter_reuse. by rewrite Hkey.
  - intros fuel ctx out w1. apply getAdapter_as_schedule.
  - intros Ha Ht acts s.
    destruct (sched_inv_run acts _ (sched_inv_start w Ha Ht)) as [Ik If Ii Ic In Id Ip].
    fold s in Ik, If, Ii, Ic, In, Id, Ip.
    rewrite Forall_forall in Id.
    split; [|split; [|split; [|split; [done|split; [done|split; [by rewrite In | split; [done|]]]]]]].
    + intros ctx Hin. apply sched_run_registers. by left.
    + intros ctx a Hin. exact (Id _ Hin).
    + intros ctx1 ctx2 a1 a2 H1 H2 Hkey.
      pose proof (Id _ H1) as G1. pose proof (Id _ H2) as G2. simpl in G1, G2.
      rewrite Hkey in G1. congruence.
    + intros Hauto. apply sched_attempts_once; [done| |]; simpl; rewrite Ht; simpl; constructor.
Qed.

(** ** disconnectAll *)

Lemma first_rejection_None {A : Type} (ps : list (Promise A)) :
  first_rejection ps = None ↔ ∀ t e, SettlesAt t (Err e) ∉ ps.
Proof.
  induction ps as [|p ps IH]; simpl.
  - split; [|done]. intros _ t e Hin. by apply elem_of_nil in Hin.
  - split.
    + intros H t e Hin. apply elem_of_cons in Hin.
      destruct p as [t' [v|e']|]; destruct (first_rejection ps) as [[t0 e0]|] eqn:E;
        try discriminate; try (destruct (t0 <? t')%nat; discriminate).
      * destruct Hin as [Hin|Hin]; [discriminate|]. by apply (proj1 IH eq_refl t e).
      * destruct Hin as [Hin|Hin]; [discriminate|]. by apply (proj1 IH eq_refl t e).
    + intros H.
      assert (Hps : first_rejection ps = None).
      { apply IH. intros t e Hin. apply (H t e). by apply elem_of_cons; right. }
      rewrite Hps. destruct p as [t' [v|e']|]; try done.
      exfalso. apply (H t' e'). by apply elem_of_cons; left.
Qed.

(** The rejection [Promise.all] reports is one of the rejections, and none
    settles before it. *)
Lemma first_rejection_Some {A : Type} (ps : list (Promise A)) (t0 : nat) (e0 : Error) :
  first_rejection ps = Some (t0, e0) →
  SettlesAt t0 (Err e0) ∈ ps ∧ ∀ t e, SettlesAt t (Err e) ∈ ps → (t0 ≤ t)%nat.
Proof.
  revert t0 e0. induction ps as [|p ps IH]; simpl; intros t0 e0 H; [discriminate|].
  destruct (first_rejection ps) as [[t1 e1]|] eqn:E.
  - destruct (IH t1 e1 eq_refl) as [Hin Hmin].
    destruct p as [t' [v|e']|].
    + injection H as <- <-. split; [by apply elem_of_cons; right|].
      intros t e Hi. apply elem_of_cons in Hi. destruct Hi as [Hi|Hi]; [discriminate|eauto].
    + destruct (t1 <? t')%nat eqn:Hlt.
      * apply Nat.ltb_lt in Hlt. injection H as <- <-.
        split; [by apply elem_of_cons; right|].
        intros t e Hi. apply elem_of_cons in Hi. destruct Hi as [Hi|Hi].
        -- injection Hi as -> _. lia.
        -- eauto.
      * apply Nat.ltb_ge in Hlt. injection H as <- <-.
        split; [by apply elem_of_cons; left|].
        intros t e Hi. apply elem_of_cons in Hi. destruct Hi as [Hi|Hi].
        -- injection Hi as -> _. lia.
        -- specialize (Hmin t e Hi). lia.
    + injection H as <- <-. split; [by apply elem_of_cons; right|].
      intros t e Hi. apply elem_of_cons in Hi. destruct Hi as [Hi|Hi]; [discriminate|eauto].
  - assert (Hnone := proj1 (first_rejection_None ps) E).
    destruct p as [t' [v|e']|]; try discriminate.
    injection H as <- <-. split; [by apply elem_of_cons; left|].
    intros t e Hi. apply elem_of_cons in Hi. destruct Hi as [Hi|Hi].
    + injection Hi as -> _. lia.
    + by destruct (Hnone t e).
Qed.

(** When every promise fulfils, [Promise.all] fulfils with all the values
    when the last one has. *)
Lemma all_fulfilled_Some {A : Type} (ps : list (Promise A)) :
  (∀ p, p ∈ ps → ∃ t v, p = SettlesAt t (Ok v)) →
  ∃ t vs, all_fulfilled ps = Some (t, vs) ∧ length vs = length ps ∧
          ∀ t' v, SettlesAt t' (Ok v) ∈ ps → (t' ≤ t)%nat.
Proof.
  induction ps as [|p ps IH]; intros Hall; simpl.
  - exists 0%nat, []. split; [done|]. split; [done|]. intros t' v Hin. by apply elem_of_nil in Hin.
  - destruct IH as (t & vs & E & Hlen & Hmax).
    { intros q Hq. apply Hall. by apply elem_of_cons; right. }
    destruct (Hall p ltac:(by apply elem_of_cons; left)) as (tp & vp & ->).
    rewrite E. exists (Nat.max tp t), (vp :: vs). split; [done|]. split; [simpl; lia|].
    intros t' v Hin. apply elem_of_cons in Hin. destruct Hin as [Hin|Hin].
    + injection Hin as -> _. lia.
    + specialize (Hmax t' v Hin). lia.
Qed.

(** The loop over the adapters: all are called when each call returns a
    promise; the first that throws is the last one called. *)
Lemma disconnect_each_promises (ads : list AdapterInst) :
  ∀ ps, List.map _disconnect ads = List.map Ok ps → disconnect_each ads = (Ok ps, ads).
Proof.
  induction ads as [|a ads IH]; intros [|p ps] H; try discriminate; [done|].
  simpl in H. injection H as Ha Hrest. cbn [disconnect_each].
  by rewrite Ha, (IH ps Hrest).
Qed.

Lemma disconnect_each_throws (before after : list AdapterInst) (a : AdapterInst) (e : Error) :
  ∀ ps, List.map _disconnect before = List.map Ok ps →
        _disconnect a = Err e →
        disconnect_each (before ++ a :: after) = (Err e, before ++ [a]).
Proof.
  induction before as [|b before IH]; intros [|p ps] H Ha; try discriminate.
  - cbn [app disconnect_each]. by rewrite Ha.
  - simpl in H. injection H as Hb Hrest. cbn [app disconnect_each].
    by rewrite Hb, (IH ps Hrest Ha).
Qed.

(** [C8] [disconnectAll] empties the registry and calls [_disconnect] on
    the registered adapters in order. When every call returns a promise,
    every adapter has been called, whatever the promises come to: when all
    fulfil, the promise of [disconnectAll] fulfils once the last of them
    has; when one rejects, it rejects with the reason of the rejection
    that settles first, at that time. When a [disconnect()] throws instead
    of returning a promise, [disconnectAll] throws the same, and the
    adapters after that one are not called. *)
Theorem disconnectAll_settles (w : World) :
  let ads := List.map snd (adapters w) in
  adapters (snd (disconnectAll w)) = [] ∧
  (∀ ps, List.map _disconnect ads = List.map Ok ps →
     trace (snd (disconnectAll w)) =
       trace w ++ List.map (fun a => EvDisconnect (inst_id a)) ads ∧
     fst (disconnectAll w) = Ok (Promise_all ps) ∧
     ((∀ p, p ∈ ps → ∃ t v, p = SettlesAt t (Ok v)) →
      ∃ t vs, fst (disconnectAll w) = Ok (SettlesAt t (Ok vs)) ∧ length vs = length ads ∧
              settles_after_all (SettlesAt t (Ok vs)) ps) ∧
     (∀ t e, SettlesAt t (Err e) ∈ ps →
      ∃ t0 e0, fst (disconnectAll w) = Ok (SettlesAt t0 (Err e0)) ∧
               SettlesAt t0 (Err e0) ∈ ps ∧
               ∀ t1 e1, SettlesAt t1 (Err e1) ∈ ps → (t0 ≤ t1)%nat)) ∧
  (∀ before a after ps e,
     ads = before ++ a :: after →
     List.map _disconnect before = List.map Ok ps →
     _disconnect a = Err e →
     fst (disconnectAll w) = Err e ∧
     trace (snd (disconnectAll w)) =
       trace w ++ List.map (fun a => EvDisconnect (inst_id a)) (before ++ [a])).
Proof.
  intros ads. unfold disconnectAll. cbn [fst snd adapters trace]. fold ads.
  split; [done|]. split.
  - intros ps Hps. rewrite (disconnect_each_promises ads ps Hps). cbn [fst snd].
    assert (Hlen : length ps = length ads).
    { rewrite <- (length_map Ok ps), <- Hps. by rewrite length_map. }
    split; [done|]. split; [done|]. split.
    + intros Hall. destruct (all_fulfilled_Some ps Hall) as (t & vs & E & Hl & Hmax).
      assert (Hnone : first_rejection ps = None).
      { apply first_rejection_None. intros t' e Hin.
        destruct (Hall _ Hin) as (? & ? & ?). discriminate. }
      unfold Promise_all. rewrite Hnone, E. exists t, vs. split; [done|].
      split; [by rewrite Hl|].
      simpl. apply Forall_forall. intros q Hq.
      destruct (Hall _ Hq) as (tq & vq & ->). by apply (Hmax tq vq).
    + intros t e Hin. unfold Promise_all.
      destruct (first_rejection ps) as [[t0 e0]|] eqn:E.
      * destruct (first_rejection_Some ps t0 e0 E) as [Hin0 Hmin]. eauto.
      * by destruct (proj1 (first_rejection_None ps) E t e).
  - intros before a after ps e -> Hps Ha.
    by rewrite (disconnect_each_throws before after a e ps Hps Ha).
Qed.

(** * Further properties *)

(** ** Parameter sanitizer, in every mode *)

Lemma not_pagination_ne (k : string) :
  ¬ is_pagination_field k →
  k ≠ "limit" ∧ k ≠ "offset" ∧ k ≠ "page" ∧ k ≠ "pageSize".
Proof. unfold is_pagination_field. intros H. repeat split; intros ->; apply H; auto. Qed.

Lemma stripPagination_lookup_other (k : string) (p : Obj) :
  ¬ is_pagination_field k → stripPagination p !! k = p !! k.
Proof.
  intros Hk. destruct (not_pagination_ne k Hk) as (H1 & H2 & H3 & H4).
  unfold stripPagination. rewrite !deleteIfTruthy_lookup. by repeat case_decide.
Qed.

Lemma paginate_lookup_other (k : string) (p : Obj) :
  ¬ is_pagination_field k → paginate p !! k = p !! k.
Proof.
  intros Hk. destruct (not_pagination_ne k Hk) as (H1 & H2 & H3 & H4).
  unfold paginate. rewrite !lookup_insert_ne by done.
  repeat match goal with
         | |- context [if ?c then _ else _] => destruct c
         end; rewrite ?lookup_insert_ne; done.
Qed.

(** The sanitizer returns a plan exactly when the query text parses. *)
Lemma sanitizeParams_inv (params plan : Obj) (opts : option SanitizeOpts) :
  sanitizeParams params opts = Ok plan →
  ∃ p0, parseQuery (coerceNumbers params) = Ok p0 ∧
        plan = if match opts with Some o => removeLimit o | None => false end
               then stripPagination (splitFields p0)
               else clampLimit (if match opts with Some o => list_mode o | None => false end
                                then paginate (splitFields p0) else splitFields p0).
Proof.
  unfold sanitizeParams. destruct (parseQuery (coerceNumbers params)) as [p0|]; [|discriminate].
  intros H. exists p0. split; [done|].
  destruct (match opts with Some o => removeLimit o | None => false end); by injection H.
Qed.

(** Outside the pagination fields the mode makes no difference. *)
Lemma sanitizeParams_lookup_other (params plan : Obj) (opts : option SanitizeOpts) (k : string) :
  ¬ is_pagination_field k →
  sanitizeParams params opts = Ok plan →
  ∃ p0, parseQuery (coerceNumbers params) = Ok p0 ∧ plan !! k = splitFields p0 !! k.
Proof.
  intros Hk Hs. destruct (sanitizeParams_inv _ _ _ Hs) as (p0 & Hq & ->).
  exists p0. split; [done|].
  destruct (not_pagination_ne k Hk) as (H1 & _).
  destruct (match opts with Some o => removeLimit o | None => false end).
  - by apply stripPagination_lookup_other.
  - rewrite clampLimit_lookup_ne by done.
    destruct (match opts with Some o => list_mode o | None => false end); [|done].
    by apply paginate_lookup_other.
Qed.

Lemma splitField_lookup (k k' : string) (p : Obj) :
  splitField k p !! k' = if decide (k = k') then split_value <$> p !! k' else p !! k'.
Proof.
  unfold splitField. case_decide as Hk.
  - subst k'. destruct (p !! k) as [v|] eqn:E; [|by rewrite E].
    destruct v; rewrite ?lookup_insert_eq, ?E; done.
  - destruct (p !! k) as [v|]; [|done].
    destruct v; rewrite ?lookup_insert_ne; done.
Qed.

Lemma coerceNumbers_lookup_other (k : string) (p : Obj) :
  ¬ is_pagination_field k → coerceNumbers p !! k = p !! k.
Proof.
  intros Hk. destruct (not_pagination_ne k Hk) as (H1 & H2 & H3 & H4).
  unfold coerceNumbers. rewrite !coerceNumber_lookup. by repeat case_decide.
Qed.

Lemma list_field_not_pagination (k : string) : is_list_field k → ¬ is_pagination_field k.
Proof.
  unfold is_list_field, is_pagination_field.
  intros [->|[->|[->| ->]]] [H|[H|[H|H]]]; discriminate.
Qed.



Lemma coerced_not_string (v : Value) : is_string (coerced v) = false.
Proof. by destruct v. Qed.

Lemma clamped_not_string (v : Value) : is_string v = false → is_string (clamped v) = false.
Proof. unfold clamped. by destruct (_ && _). Qed.

Lemma orDefault_not_string (v d : Value) :
  is_string v = false → is_string d = false → is_string (orDefault v d) = false.
Proof. unfold orDefault. by destruct (toBoolean v). Qed.

Lemma split_value_not_string (v : Value) : is_string (split_value v) = false.
Proof. by destruct v. Qed.

(** A falsy value is not above a positive limit. *)
Lemma falsy_not_gt (v : Value) (m : Z) : toBoolean v = false → 0 < m → js_gt v m = false.
Proof.
  intros Hv Hm. unfold js_gt.
  destruct v as [| |[]|[|z]|[|a s]|l|o]; simpl in *; try done.
  - apply Z.ltb_ge. lia.
  - apply Z.ltb_ge. lia.
  - apply negb_false_iff, Z.eqb_eq in Hv. subst z. apply Z.ltb_ge. lia.
  - apply Z.ltb_ge. lia.
Qed.

Lemma clampLimit_lookup_limit (p : Obj) : clampLimit p !! "limit" = clamped <$> p !! "limit".
Proof.
  unfold clampLimit, clamped, get.
  destruct (p !! "limit") as [v|] eqn:E; simpl.
  - destruct (_ && _); [by rewrite lookup_insert_eq | done].
  - unfold js_gt. simpl. rewrite andb_false_r. by rewrite E.
Qed.

Lemma clamped_idem (v : Value) : clamped (clamped v) = clamped v.
Proof. unfold clamped at 1. by rewrite js_gt_clamped. Qed.

(** The pagination fields of a list-mode plan. *)
Lemma list_plan_lookup (params p0 : Obj) :
  parseQuery (coerceNumbers params) = Ok p0 →
  let ps := clamped (orDefault (coerced (get params "pageSize"))
                               (VNum (Int (defaultPageSize mixinOpts)))) in
  let pg := orDefault (coerced (get params "page")) (VNum (Int 1)) in
  let plan := clampLimit (paginate (splitFields p0)) in
  plan !! "pageSize" = Some ps ∧ plan !! "page" = Some pg ∧ plan !! "limit" = Some ps ∧
  plan !! "offset" = Some (VNum (num_mul (num_sub (toNumber pg) (Int 1)) (toNumber ps))).
Proof.
  intros Hq ps pg plan.
  destruct (paginate_lookup (splitFields p0)) as (Hps & Hpg & Hl & Ho).
  rewrite (prepared_get "pageSize" params p0) in Hps, Hl, Ho by (unfold is_pagination_field; auto).
  rewrite (prepared_get "page" params p0) in Hpg, Ho by (unfold is_pagination_field; auto).
  subst plan. split; [|split; [|split]].
  - by rewrite clampLimit_lookup_ne.
  - by rewrite clampLimit_lookup_ne.
  - rewrite clampLimit_lookup_limit, Hl. simpl. subst ps. by rewrite clamped_idem.
  - by rewrite clampLimit_lookup_ne.
Qed.


(** The value of a pagination field of a plan is never a string. *)
Lemma sanitizeParams_pagination_value (params plan : Obj) (opts : option SanitizeOpts)
    (k : string) (v : Value) :
  is_pagination_field k →
  sanitizeParams params opts = Ok plan →
  plan !! k = Some v → is_string v = false.
Proof.
  intros Hk Hs. destruct (sanitizeParams_inv _ _ _ Hs) as (p0 & Hq & ->).
  destruct (match opts with Some o => removeLimit o | None => false end).
  - rewrite (stripPagination_lookup k _ Hk), (prepared_lookup k params p0 Hk Hq).
    destruct (toBoolean _); [discriminate|].
    destruct (params !! k) as [x|]; simpl; [|discriminate].
    intros [= <-]. apply coerced_not_string.
  - destruct (match opts with Some o => list_mode o | None => false end).
    + destruct (list_plan_lookup params p0 Hq) as (Hps & Hpg & Hl & Ho).
      assert (Hs1 : is_string (clamped (orDefault (coerced (get params "pageSize"))
                                          (VNum (Int (defaultPageSize mixinOpts))))) = false).
      { apply clamped_not_string, orDefault_not_string; [apply coerced_not_string | done]. }
      assert (Hs2 : is_string (orDefault (coerced (get params "page")) (VNum (Int 1))) = false).
      { apply orDefault_not_string; [apply coerced_not_string | done]. }
      destruct Hk as [->|[->|[->| ->]]].
      * rewrite Hl. by intros [= <-].
      * rewrite Ho. by intros [= <-].
      * rewrite Hpg. by intros [= <-].
      * rewrite Hps. by intros [= <-].
    + destruct (decide (k = "limit")) as [->|Hne].
      * rewrite clampLimit_lookup_limit, (prepared_lookup "limit" params p0 Hk Hq).
        destruct (params !! "limit") as [x|]; simpl; [|discriminate].
        intros [= <-]. apply clamped_not_string, coerced_not_string.
      * rewrite clampLimit_lookup_ne by done. rewrite (prepared_lookup k params p0 Hk Hq).
        destruct (params !! k) as [x|]; simpl; [|discriminate].
        intros [= <-]. apply coerced_not_string.
Qed.

(** [X2] Whatever the mode, none of [limit], [offset], [page] and
    [pageSize] is a string in the plan: a value given as a string has been
    replaced by its number. *)
Theorem sanitizeParams_numbers (params plan : Obj) (opts : option SanitizeOpts)
    (k s : string) :
  is_pagination_field k →
  sanitizeParams params opts = Ok plan →
  plan !! k ≠ Some (VStr s).
Proof.
  intros Hk Hs Hv.
  by pose proof (sanitizeParams_pagination_value _ _ _ _ _ Hk Hs Hv).
Qed.







Lemma sanitizeParams_list_field (params plan : Obj) (opts : option SanitizeOpts) (k : string) :
  is_list_field k →
  sanitizeParams params opts = Ok plan →
  plan !! k = split_value <$> params !! k.
Proof.
  intros Hk Hs.
  pose proof (list_field_not_pagination k Hk) as Hp.
  destruct (sanitizeParams_lookup_other _ _ _ k Hp Hs) as (p0 & Hq & ->).
  assert (Hbase : p0 !! k = params !! k).
  { rewrite (parseQuery_lookup_ne k _ _ ltac:(destruct Hk as [->|[->|[->| ->]]]; discriminate) Hq).
    by apply coerceNumbers_lookup_other. }
  unfold splitFields. rewrite !splitField_lookup.
  destruct Hk as [->|[->|[->| ->]]]; repeat case_decide; try done; by rewrite Hbase.
Qed.


Lemma coerceNumber_id (k : string) (p : Obj) :
  (∀ s, p !! k ≠ Some (VStr s)) → coerceNumber k p = p.
Proof.
  intros H. unfold coerceNumber. destruct (p !! k) as [v|] eqn:E; [|done].
  destruct v; try done. by destruct (H s).
Qed.

Lemma splitField_id (k : string) (p : Obj) :
  (∀ s, p !! k ≠ Some (VStr s)) → splitField k p = p.
Proof.
  intros H. unfold splitField. destruct (p !! k) as [v|] eqn:E; [|done].
  destruct v; try done. by destruct (H s).
Qed.

(** The limit of a plan is not above a positive [maxLimit], for a number
    or a value that compares like one. *)
Lemma sanitizeParams_limit_clamped (params plan : Obj) (opts : option SanitizeOpts) :
  sanitizeParams params opts = Ok plan →
  (0 <? maxLimit mixinOpts) && js_gt (get plan "limit") (maxLimit mixinOpts) = false.
Proof.
  intros Hs. destruct (sanitizeParams_inv _ _ _ Hs) as (p0 & Hq & ->).
  destruct (0 <? maxLimit mixinOpts) eqn:Hpos; [|done]. simpl.
  assert (Hc : ∀ v, js_gt (clamped v) (maxLimit mixinOpts) = false).
  { intros v. pose proof (js_gt_clamped v) as H. by rewrite Hpos in H. }
  apply Z.ltb_lt in Hpos.
  destruct (match opts with Some o => removeLimit o | None => false end).
  - unfold get. rewrite (stripPagination_lookup "limit" _ ltac:(unfold is_pagination_field; auto)).
    destruct (toBoolean (get (splitFields p0) "limit")) eqn:Ht; [done|].
    fold (get (splitFields p0) "limit"). by apply falsy_not_gt.
  - destruct (match opts with Some o => list_mode o | None => false end).
    + destruct (list_plan_lookup params p0 Hq) as (_ & _ & Hl & _).
      by rewrite (get_lookup _ _ _ Hl).
    + unfold get. rewrite clampLimit_lookup_limit.
      destruct (splitFields p0 !! "limit") as [v|]; simpl; [apply Hc | done].
Qed.

(** [X6] Sanitizing a plan again without a mode changes nothing, whatever
    the mode that produced it, as long as its [query] is not a string:
    this is what happens to the plan of a list request handed to
    [findEntities]. *)
Theorem sanitizeParams_again (params plan : Obj) (opts : option SanitizeOpts) :
  sanitizeParams params opts = Ok plan →
  (∀ s, plan !! "query" ≠ Some (VStr s)) →
  sanitizeParams plan None = Ok plan.
Proof.
  intros Hs Hquery.
  assert (Hnum : ∀ k s, is_pagination_field k → plan !! k ≠ Some (VStr s)).
  { intros k s Hk Hv. by pose proof (sanitizeParams_pagination_value _ _ _ _ _ Hk Hs Hv). }
  assert (Hlist : ∀ k s, is_list_field k → plan !! k ≠ Some (VStr s)).
  { intros k s Hk. rewrite (sanitizeParams_list_field _ _ _ _ Hk Hs).
    destruct (params !! k) as [v|]; simpl; [|done].
    intros [= Hv]. pose proof (split_value_not_string v) as H. by rewrite Hv in H. }
  unfold sanitizeParams.
  assert (E1 : coerceNumbers plan = plan).
  { unfold coerceNumbers.
    rewrite (coerceNumber_id "limit") by (intros s; apply Hnum; unfold is_pagination_field; auto).
    rewrite (coerceNumber_id "offset") by (intros s; apply Hnum; unfold is_pagination_field; auto).
    rewrite (coerceNumber_id "page") by (intros s; apply Hnum; unfold is_pagination_field; auto).
    by rewrite (coerceNumber_id "pageSize") by (intros s; apply Hnum; unfold is_pagination_field; auto). }
  assert (E2 : parseQuery plan = Ok plan).
  { unfold parseQuery. destruct (plan !! "query") as [v|] eqn:E; [|done].
    destruct v; try done. by destruct (Hquery s). }
  assert (E3 : splitFields plan = plan).
  { unfold splitFields.
    rewrite (splitField_id "sort") by (intros s; apply Hlist; unfold is_list_field; auto).
    rewrite (splitField_id "fields") by (intros s; apply Hlist; unfold is_list_field; auto).
    rewrite (splitField_id "populate") by (intros s; apply Hlist; unfold is_list_field; auto).
    by rewrite (splitField_id "searchFields") by (intros s; apply Hlist; unfold is_list_field; auto). }
  rewrite E1, E2, E3. cbv beta iota. unfold clampLimit.
  by rewrite (sanitizeParams_limit_clamped _ _ _ Hs).
Qed.

(** ** Scope engine: unknown names *)




(** ** Adapter registry: connecting and disconnecting *)

(** The attempts of [connecting] up to the first success. *)
Lemma connecting_trace (a : AdapterInst) :
  autoReconnect mixinOpts = true →
  ∀ (n fuel k : nat) (w : World),
    (∀ j, (k ≤ j < k + n)%nat → is_Some (adapter_connect (impl_of a) (inst_id a) j)) →
    adapter_connect (impl_of a) (inst_id a) (k + n) = None →
    (n < fuel)%nat →
    connecting fuel a k w =
      (Returned tt,
       {| adapters := adapters w; nextInstance := nextInstance w; stores := stores w;
          trace := trace w ++ List.map (EvConnectAttempt (inst_id a)) (seq k (S n)) |}).
Proof.
  intros Hauto. induction n as [|n IH]; intros fuel k w Hfail Hok Hfuel.
  - destruct fuel as [|fuel]; [lia|]. cbn [connecting].
    unfold connectAttempt, mbind, M_bind, bind, emit, mret, M_ret, ret. simpl.
    rewrite Nat.add_0_r in Hok. by rewrite Hok.
  - destruct fuel as [|fuel]; [lia|]. cbn [connecting].
    unfold connectAttempt, mbind, M_bind, bind, emit, mret, M_ret, ret. simpl.
    destruct (Hfail k ltac:(lia)) as [err ->]. rewrite Hauto.
    rewrite (IH fuel (S k)); [| |by rewrite Nat.add_succ_l, <- Nat.add_succ_r | lia].
    + unfold log_event. simpl. by rewrite <- app_assoc.
    + intros j Hj. apply Hfail. lia.
Qed.

(** [X8] Without [autoReconnect], a first call whose [connect()] rejects
    throws that rejection after this one attempt. The adapter object is
    in the registry all the same, so every later call for the tenant key
    returns it at once, unconnected, without another attempt. *)
Theorem getAdapter_connect_failure (fuel : nat) (ctx : Context) (w : World) (err : Value) :
  autoReconnect mixinOpts = false →
  adapters_get (tenantKey ctx) (adapters w) = None →
  adapter_connect (impl_of (new_adapter ctx w)) (nextInstance w) 0 = Some err →
  getAdapter (S fuel) ctx w = (Thrown (ConnectionFailed err), connected_after 0 ctx w) ∧
  ∀ fuel' ctx',
    tenantKey ctx' = tenantKey ctx →
    getAdapter fuel' ctx' (connected_after 0 ctx w) =
      (Returned (new_adapter ctx w), connected_after 0 ctx w).
Proof.
  intros Hauto Hg Hc. split.
  - unfold getAdapter. rewrite (getAdapter_enter_new ctx w Hg).
    unfold _connect, connectAttempt, mbind, M_bind, bind, emit, mret, M_ret, ret, throw.
    cbn [connecting]. unfold connectAttempt, mbind, M_bind, bind, emit, mret, M_ret, ret, throw.
    simpl. rewrite Hc, Hauto. unfold connected_after, log_event. simpl.
    by rewrite <- !app_assoc.
  - intros fuel' ctx' Hkey. apply getAdapter_reuse. rewrite Hkey.
    unfold connected_after. simpl. by apply adapters_get_snoc.
Qed.

(** [X9] With [autoReconnect], a first call whose [connect()] rejects [n]
    times and then resolves returns the new adapter object after the
    attempts 0 to [n] of one call of [_connect], provided the retries were
    given the time; the rows are untouched. *)
Theorem getAdapter_reconnects (fuel n : nat) (ctx : Context) (w : World) :
  autoReconnect mixinOpts = true →
  adapters_get (tenantKey ctx) (adapters w) = None →
  (∀ j, (j < n)%nat → is_Some (adapter_connect (impl_of (new_adapter ctx w)) (nextInstance w) j)) →
  adapter_connect (impl_of (new_adapter ctx w)) (nextInstance w) n = None →
  (n < fuel)%nat →
  getAdapter fuel ctx w = (Returned (new_adapter ctx w), connected_after n ctx w).
Proof.
  intros Hauto Hg Hfail Hok Hfuel.
  unfold getAdapter. rewrite (getAdapter_enter_new ctx w Hg).
  unfold _connect, mbind, M_bind, bind, emit, mret, M_ret, ret.
  rewrite (connecting_trace (new_adapter ctx w) Hauto n fuel 0);
    [|intros j Hj; apply Hfail; lia | done | done].
  unfold connected_after, log_event. simpl. by rewrite <- !app_assoc.
Qed.

Lemma disconnect_all_immediate (ads : list AdapterInst) :
  Forall (fun a => adapter_disconnect (impl_of a) = None) ads →
  List.map _disconnect ads = List.map Ok (List.map (fun _ => SettlesAt 0 (Ok tt)) ads) ∧
  Promise_all (List.map (fun _ : AdapterInst => SettlesAt 0 (Ok tt)) ads) =
    SettlesAt 0 (Ok (List.map (fun _ => tt) ads)).
Proof.
  intros Hall. split.
  - induction Hall as [|a l Ha _ IH]; [done|]. simpl. rewrite IH.
    unfold _disconnect. by rewrite Ha.
  - unfold Promise_all.
    assert (H : first_rejection (List.map (fun _ : AdapterInst => @SettlesAt unit 0 (Ok tt)) ads)
                  = None ∧
                all_fulfilled (List.map (fun _ : AdapterInst => @SettlesAt unit 0 (Ok tt)) ads)
                  = Some (0%nat, List.map (fun _ => tt) ads)).
    { clear Hall. induction ads as [|a l [IH1 IH2]]; [split; reflexivity|]. simpl.
      rewrite IH1, IH2. split; reflexivity. }
    destruct H as [-> ->]. done.
Qed.

(** [X10] After [disconnectAll] the registry is empty, so the next call of
    [getAdapter] that returns has created an adapter object that is none
    of those registered before, and has called [_connect] on it. *)
Theorem disconnectAll_then_getAdapter (fuel : nat) (ctx : Context) (w w1 : World)
    (a : AdapterInst) :
  Forall (fun ha => (inst_id (snd ha) < nextInstance w)%nat) (adapters w) →
  getAdapter fuel ctx (snd (disconnectAll w)) = (Returned a, w1) →
  a = new_adapter ctx w ∧
  Forall (fun ha => inst_id (snd ha) ≠ inst_id a) (adapters w) ∧
  adapters w1 = [(tenantKey ctx, a)] ∧
  ∃ evs, trace w1 =
           trace (snd (disconnectAll w)) ++
           EvCreate (inst_id a) (tenantKey ctx) :: EvConnect (inst_id a) :: evs.
Proof.
  intros Hfresh Hrun. unfold getAdapter in Hrun.
  rewrite (getAdapter_enter_new ctx (snd (disconnectAll w)) eq_refl) in Hrun.
  unfold _connect in Hrun.
  returned_step Hrun as u w2 H2. injection Hrun as <- <-.
  returned_step H2 as u' w3 H3. injection H3 as <- <-.
  pose proof (connecting_adapters _ _ _ _ _ _ H2) as Ha.
  destruct (connecting_emits (fun _ => True) _ (fun _ _ => I) _ _ _ _ _ H2) as (evs & Ht & _).
  split; [done|]. split; [|split].
  - eapply Forall_impl; [exact Hfresh|]. simpl. intros; lia.
  - by rewrite Ha.
  - exists evs. rewrite Ht. simpl. by rewrite <- !app_assoc.
Qed.

(** [X11] An adapter without a [disconnect] function counts as
    disconnected at once: when no registered adapter has one, in
    particular when the registry is empty, the promise of [disconnectAll]
    is fulfilled from the start, with one value per adapter. *)
Theorem disconnectAll_immediate (w : World) :
  Forall (fun ha => adapter_disconnect (impl_of (snd ha)) = None) (adapters w) →
  fst (disconnectAll w) = Ok (SettlesAt 0 (Ok (List.map (fun _ => tt) (adapters w)))) ∧
  fst (disconnectAll (snd (disconnectAll w))) = Ok (SettlesAt 0 (Ok [])).
Proof.
  intros Hall. split; [|done]. unfold disconnectAll. cbn [fst].
  destruct (disconnect_all_immediate (List.map snd (adapters w))) as [Hps Hall0].
  { apply Forall_map. exact Hall. }
  rewrite (disconnect_each_promises _ _ Hps). cbn [fst]. rewrite Hall0.
  by rewrite map_map.
Qed.

(** ** Ids *)

(** [X12] Resolve, update, replace and remove called without an id (the
    primary field of the parameters is absent, undefined or null) throw
    [MissingId] with the parameters, before anything else happens: no
    adapter is created, nothing is validated, the world is as it was. *)
Theorem missing_id (fuel : nat) (ctx : Context) (params : Obj) (opts : CallOpts) (w : World) :
  isNullish (get params (pf_name (primaryField this))) = true →
  resolveEntities fuel ctx params opts w = (Thrown (MissingId params), w) ∧
  updateEntity fuel ctx params opts w = (Thrown (MissingId params), w) ∧
  replaceEntity fuel ctx params opts w = (Thrown (MissingId params), w) ∧
  removeEntity fuel ctx params opts w = (Thrown (MissingId params), w).
Proof.
  intros Hid.
  assert (E : lift (_getIDFromParams params true) w = (Thrown (MissingId params), w)).
  { unfold lift, _getIDFromParams. by rewrite Hid. }
  unfold resolveEntities, updateEntity, replaceEntity, removeEntity.
  by rewrite !(bind_thrown _ _ _ _ _ E).
Qed.

Lemma await_find_inv (a : AdapterInst) (params : Obj) (w w' : World)
    (out : Outcome (option (list Obj))) :
  await_find a params w = (out, w') → w' = log_event (EvFind (inst_id a) params) w.
Proof.
  unfold await_find, mbind, M_bind, bind, emit, read_store, lift. simpl.
  by intros [= _ <-].
Qed.

(** A resolve call that returns has asked the adapter of the tenant for
    the request built from the id. *)
Lemma resolveEntities_returned (fuel : nat) (ctx : Context) (params : Obj) (opts : CallOpts)
    (w w2 : World) (v : Value) :
  resolveEntities fuel ctx params opts w = (Returned v, w2) →
  ∃ id fparams a w1,
    _getIDFromParams params true = Ok id ∧
    resolveParams ctx params opts id = Ok fparams ∧
    getAdapter fuel ctx w = (Returned a, w1) ∧
    w2 = log_event (EvFind (inst_id a) fparams) w1.
Proof.
  intros H. unfold resolveEntities in H.
  returned_step H as i0 w0 H0. apply lift_inv in H0. destruct H0 as [H0 ->].
  returned_step H as fparams w0 H1. apply lift_inv in H1. destruct H1 as [H1 ->].
  returned_step H as a w1 H2. returned_step H as r w3 H3.
  apply lift_inv in H. destruct H as [_ ->].
  apply await_find_inv in H3. subst w3.
  exists i0, fparams, a, w1.
  destruct (_getIDFromParams params true); [|discriminate]. injection H0 as ->.
  destruct (resolveParams ctx params opts a0); [|discriminate]. injection H1 as ->.
  done.
Qed.

(** The request for a single id asks for that id, sanitized, in the
    primary column. *)
Lemma resolveParams_single (ctx : Context) (params fparams : Obj) (opts : CallOpts) (id : Value) :
  resolveParams ctx params opts id = Ok fparams →
  isArray id = false →
  ∃ q, fparams !! "query" = Some (VObj q) ∧
       q !! pf_columnName (primaryField this) = Some (_sanitizeID id opts).
Proof.
  unfold resolveParams. intros H Hs. rewrite Hs in H.
  destruct (if toBoolean _ then _ else _) as [| | | | | |q]; try discriminate.
  simpl in H. injection H as <-.
  exists (<[pf_columnName (primaryField this) :=
             match List.map (fun id0 => _sanitizeID id0 opts)
                     match id with VArr l => l | _ => [id] end with
             | x :: _ => x | [] => VUndefined end]> q).
  rewrite !lookup_insert_eq. split; [done|]. by destruct id.
Qed.

Lemma sanitizeID_policy (id : Value) (opts : CallOpts) :
  secureID opts = None ∨ secureID opts = Some (pf_secure (primaryField this)) →
  _sanitizeID id opts = _sanitizeID id existenceCheck.
Proof.
  unfold _sanitizeID. simpl. intros [->| ->]; [done|].
  by destruct (pf_secure (primaryField this)).
Qed.

Lemma getID_Ok (params : Obj) (id : Value) :
  _getIDFromParams params true = Ok id → id = get params (pf_name (primaryField this)).
Proof.
  unfold _getIDFromParams. destruct (true && isNullish _); [discriminate|]. by intros [= <-].
Qed.

(** The events of an existence check that succeeds, and where it leaves
    the registry. *)
Lemma existence_check_returned (fuel : nat) (ctx : Context) (params : Obj)
    (w w2 : World) (old : Value) :
  resolveEntities fuel ctx params existenceCheck w = (Returned old, w2) →
  isArray (get params (pf_name (primaryField this))) = false →
  ∃ a fparams q pre,
    trace w2 = trace w ++ pre ++ [EvFind (inst_id a) fparams] ∧
    stores w2 = stores w ∧
    fparams !! "query" = Some (VObj q) ∧
    q !! pf_columnName (primaryField this) =
      Some (_sanitizeID (get params (pf_name (primaryField this))) existenceCheck) ∧
    adapters_get (tenantKey ctx) (adapters w2) = Some a.
Proof.
  intros H Hs.
  destruct (resolveEntities_returned _ _ _ _ _ _ _ H) as (id & fparams & a & w1 & Hid & Hp & Ha & ->).
  apply getID_Ok in Hid. subst id.
  destruct (resolveParams_single _ _ _ _ _ Hp Hs) as (q & Hq & Hc).
  destruct (trace_grows _ _ _ _ (getAdapter_emits (fun _ => True) _ _ (fun _ _ => I)) Ha)
    as (pre & Ht).
  exists a, fparams, q, pre. cbn [trace stores adapters log_event].
  split; [by rewrite Ht, app_assoc|]. split; [by apply (getAdapter_keeps_stores _ _ _ _ _ Ha)|].
  split; [done|]. split; [done|]. by eapply getAdapter_registered.
Qed.

(** [X13] When the per-call [secureID] option is absent or agrees with the
    primary field, an update, replace or remove of a single id that
    returns has written to the entity it checked: the id of its
    [updateById], [replaceById] or [removeById] call is the id its
    existence check asked for in the primary column, and both calls went
    to the same adapter object. *)
Theorem write_targets_checked_entity (fuel : nat) (ctx : Context) (params : Obj)
    (opts : CallOpts) (w w' : World) (v : Value) :
  let id := get params (pf_name (primaryField this)) in
  isArray id = false →
  secureID opts = None ∨ secureID opts = Some (pf_secure (primaryField this)) →
  (updateEntity fuel ctx params opts w = (Returned v, w') →
   ∃ a fparams q payload raw evs,
     trace w' = trace w ++ evs ∧
     EvFind a fparams ∈ evs ∧ fparams !! "query" = Some (VObj q) ∧
     q !! pf_columnName (primaryField this) = Some (_sanitizeID id opts) ∧
     EvUpdateById a (_sanitizeID id opts) payload raw ∈ evs) ∧
  (replaceEntity fuel ctx params opts w = (Returned v, w') →
   ∃ a fparams q payload evs,
     trace w' = trace w ++ evs ∧
     EvFind a fparams ∈ evs ∧ fparams !! "query" = Some (VObj q) ∧
     q !! pf_columnName (primaryField this) = Some (_sanitizeID id opts) ∧
     EvReplaceById a (_sanitizeID id opts) payload ∈ evs) ∧
  (removeEntity fuel ctx params opts w = (Returned v, w') →
   ∃ a fparams q evs,
     trace w' = trace w ++ evs ∧
     EvFind a fparams ∈ evs ∧ fparams !! "query" = Some (VObj q) ∧
     q !! pf_columnName (primaryField this) = Some (_sanitizeID id opts) ∧
     (if softDelete this
      then ∃ payload, EvUpdateById a (_sanitizeID id opts) payload None ∈ evs
      else EvRemoveById a (_sanitizeID id opts) ∈ evs)).
Proof.
  intros id Hs Hpol.
  pose proof (sanitizeID_policy id opts Hpol) as Hsid.
  assert (Hin : ∀ (pre mid post : list Event) (x y : Event),
            x ∈ pre ++ [x] ++ mid ++ [y] ++ post ∧ y ∈ pre ++ [x] ++ mid ++ [y] ++ post).
  { intros. rewrite !elem_of_app, !list_elem_of_singleton. split; auto 10. }
  split; [|split]; intros H.
  - unfold updateEntity in H.
    returned_step H as i0 w1 H1. apply lift_inv in H1. destruct H1 as [H1 ->].
    assert (i0 = id) as -> by (apply getID_Ok; by destruct (_getIDFromParams params true); [injection H1 as ->|]).
    returned_step H as old w2 H2. returned_step H as p w3 H3.
    returned_step H as a' w4 H4. returned_step H as r w5 H5. returned_step H as u w6 H6.
    injection H as _ <-.
    destruct (existence_check_returned _ _ _ _ _ _ H2 Hs) as (a & fparams & q & pre & T2 & _ & Hq & Hc & Hreg).
    assert (T3 : adapters w3 = adapters w2 ∧ ∃ e3, trace w3 = trace w2 ++ e3).
    { destruct (negb _).
      - rewrite await_validateParams_run in H3. injection H3 as _ <-. split; [done|]. by eexists.
      - injection H3 as _ <-. split; [done|]. exists []. by rewrite app_nil_r. }
    destruct T3 as (A3 & e3 & T3).
    rewrite (getAdapter_reuse fuel ctx w3 a) in H4 by (by rewrite A3).
    injection H4 as <- <-.
    apply await_updateById_trace in H5.
    destruct (trace_grows _ _ _ _ (entityChanged_emits (fun _ => True) _ _ _ ltac:(done)) H6)
      as (e6 & T6).
    exists (inst_id a), fparams, q, (stripPrimary p), (Some (isTrue (get params "$raw"))),
      (pre ++ [EvFind (inst_id a) fparams] ++ e3 ++
       [EvUpdateById (inst_id a) (_sanitizeID id opts) (stripPrimary p)
          (Some (isTrue (get params "$raw")))] ++ e6).
    split; [rewrite T6, H5, T3, T2; by rewrite <- !app_assoc|].
    split; [apply Hin|]. split; [done|]. split; [by rewrite Hsid|]. apply Hin.
  - unfold replaceEntity in H.
    returned_step H as i0 w1 H1. apply lift_inv in H1. destruct H1 as [H1 ->].
    assert (i0 = id) as -> by (apply getID_Ok; by destruct (_getIDFromParams params true); [injection H1 as ->|]).
    returned_step H as old w2 H2. returned_step H as a' w3 H3.
    returned_step H as p w4 H4. returned_step H as r w5 H5. returned_step H as u w6 H6.
    injection H as _ <-.
    destruct (existence_check_returned _ _ _ _ _ _ H2 Hs) as (a & fparams & q & pre & T2 & _ & Hq & Hc & Hreg).
    rewrite (getAdapter_reuse fuel ctx w2 a Hreg) in H3. injection H3 as <- <-.
    rewrite await_validateParams_run in H4. injection H4 as _ <-.
    apply await_replaceById_trace in H5.
    destruct (trace_grows _ _ _ _ (entityChanged_emits (fun _ => True) _ _ _ ltac:(done)) H6)
      as (e6 & T6).
    exists (inst_id a), fparams, q, (stripPrimary p),
      (pre ++ [EvFind (inst_id a) fparams] ++ [EvValidate "replace" params] ++
       [EvReplaceById (inst_id a) (_sanitizeID id opts) (stripPrimary p)] ++ e6).
    split; [rewrite T6, H5; cbn [trace log_event]; rewrite T2; by rewrite <- !app_assoc|].
    split; [apply Hin|]. split; [done|]. split; [by rewrite Hsid|]. apply Hin.
  - unfold removeEntity in H.
    returned_step H as i0 w1 H1. apply lift_inv in H1. destruct H1 as [H1 ->].
    assert (i0 = id) as -> by (apply getID_Ok; by destruct (_getIDFromParams params true); [injection H1 as ->|]).
    returned_step H as old w2 H2. returned_step H as a' w3 H3.
    returned_step H as p w4 H4. returned_step H as r w5 H5. returned_step H as u w6 H6.
    injection H as _ <-.
    destruct (existence_check_returned _ _ _ _ _ _ H2 Hs) as (a & fparams & q & pre & T2 & _ & Hq & Hc & Hreg).
    rewrite (getAdapter_reuse fuel ctx w2 a Hreg) in H3. injection H3 as <- <-.
    rewrite await_validateParams_run in H4. injection H4 as _ <-.
    destruct (trace_grows _ _ _ _ (entityChanged_emits (fun _ => True) _ _ _ ltac:(done)) H6)
      as (e6 & T6).
    assert (T5 : ∃ ev, trace w5 = trace w2 ++ [EvValidate "remove" params] ++ [ev] ∧
                 if softDelete this
                 then ∃ payload, ev = EvUpdateById (inst_id a) (_sanitizeID id opts) payload None
                 else ev = EvRemoveById (inst_id a) (_sanitizeID id opts)).
    { destruct (softDelete this).
      - apply await_updateById_trace in H5. eexists. split; [|by eexists].
        rewrite H5. cbn [trace log_event]. by rewrite <- app_assoc.
      - apply await_removeById_trace in H5. eexists. split; [|done].
        rewrite H5. cbn [trace log_event]. by rewrite <- app_assoc. }
    destruct T5 as (ev & T5 & Hev).
    exists (inst_id a), fparams, q,
      (pre ++ [EvFind (inst_id a) fparams] ++ [EvValidate "remove" params] ++ [ev] ++ e6).
    split; [rewrite T6, T5, T2; by rewrite <- !app_assoc|].
    split; [apply Hin|]. split; [done|]. split; [by rewrite Hsid|].
    destruct (softDelete this).
    + destruct Hev as (payload & ->). exists payload. apply Hin.
    + subst ev. apply Hin.
Qed.

(** ** Notifications *)

(** The outcomes of a notification: it returns after the broadcast, when
    there is one, and the hook; or it throws what one of them threw. *)
Lemma entityChanged_run (data : Value) (ctx : Context) (type : string) (w : World) :
  ∃ out w',
    _entityChanged data ctx type w = (out, w') ∧
    adapters w' = adapters w ∧ stores w' = stores w ∧
    ((out = Returned tt ∧ trace w' = trace w ++ notify_events type data) ∨
     (∃ e evs, out = Thrown e ∧ trace w' = trace w ++ evs ∧
               notification_failed type ctx data e evs)).
Proof.
  assert (Hhook : ∀ (w0 : World) (pre : list Event),
            trace w0 = trace w ++ pre → adapters w0 = adapters w → stores w0 = stores w →
            ∃ out w',
              (_ ← emit (EvEntityChanged type data);
               lift (entityChanged this type data ctx)) w0 = (out, w') ∧
              adapters w' = adapters w ∧ stores w' = stores w ∧
              trace w' = trace w ++ pre ++ [EvEntityChanged type data] ∧
              (out = Returned tt ∨ ∃ e, out = Thrown e ∧ entityChanged this type data ctx = Err e)).
  { intros w0 pre T A S. unfold mbind, M_bind, bind, emit, lift.
    destruct (entityChanged this type data ctx) as [[]|e]; cbn [outcome_of];
      eexists _, _; (split; [reflexivity|]); cbn [trace log_event adapters stores];
      rewrite T, <- app_assoc; (split; [done|]); (split; [done|]); (split; [done|]).
    - by left.
    - right. by exists e. }
  unfold notification_failed. unfold _entityChanged, notify_events.
  destruct cacheOpts as [[en [[|c s]|]]|].
  2: { unfold mbind at 1, M_bind at 1, bind at 1.
       unfold mbind at 1, M_bind at 1, bind at 1. unfold emit at 1, lift at 1.
       destruct (broadcast this ctx (String c s)) as [[]|eb] eqn:Eb; cbn [outcome_of].
       - destruct (Hhook (log_event (EvBroadcast (String c s)) w) [EvBroadcast (String c s)])
           as (out & w' & R & A & S & T & O); [done..|].
         exists out, w'. split; [exact R|]. split; [done|]. split; [done|].
         destruct O as [->|(e & -> & He)]; [left; by split|].
         right. exists e, ([EvBroadcast (String c s)] ++ [EvEntityChanged type data]).
         split; [done|]. split; [done|]. right. by split.
       - eexists _, _. split; [reflexivity|]. cbn [trace log_event adapters stores].
         split; [done|]. split; [done|]. right. exists eb, [EvBroadcast (String c s)].
         split; [done|]. split; [done|]. left. by eexists. }
  all: unfold mbind at 1, M_bind at 1, bind at 1; cbn [mret M_ret ret];
    destruct (Hhook w []) as (out & w' & R & A & S & T & O); [by rewrite app_nil_r|done..|];
    exists out, w'; (split; [exact R|]); (split; [done|]); (split; [done|]);
    (destruct O as [->|(e & -> & He)]; [left; by split|]);
    right; exists e, [EvEntityChanged type data]; (split; [done|]); (split; [done|]);
    right; by split.
Qed.

Lemma notifies_bind {A : Type} (type : string) (m : M A) (k : A → M Value) :
  emits is_quiet m → (∀ a, notifies_result type (k a)) → notifies_result type (m ≫= k).
Proof.
  intros Hm Hk w v w' H. returned_step H as a w1 H1.
  destruct (Hm _ _ _ H1) as (e1 & T1 & Q1). destruct (Hk _ _ _ _ H) as (pre & T & Q).
  exists (e1 ++ pre). split; [by rewrite T, T1, <- !app_assoc|]. by apply Forall_app.
Qed.

Lemma notifies_final (type : string) (ctx : Context) (v : Value) :
  notifies_result type (_ ← _entityChanged v ctx type; mret v).
Proof.
  intros w v' w' H. returned_step H as u w1 H1. injection H as <- <-.
  destruct (entityChanged_run v ctx type w) as (o & w2 & R & _ & _ & [[-> T]|(e & evs & -> & _)]).
  - rewrite R in H1. injection H1 as _ <-. exists []. split; [done|constructor].
  - rewrite R in H1. discriminate.
Qed.

Lemma fails_quietly_emits {A : Type} (type : string) (ctx : Context) (m : M A) :
  emits is_quiet m → fails_quietly type ctx m.
Proof.
  intros Hm w out w' H _. destruct (Hm _ _ _ H) as (evs & T & Q). exists evs. by split; [|left].
Qed.

Lemma fails_quietly_bind {A B : Type} (type : string) (ctx : Context) (m : M A) (k : A → M B) :
  emits is_quiet m → (∀ a, fails_quietly type ctx (k a)) → fails_quietly type ctx (m ≫= k).
Proof.
  intros Hm Hk w out w' H Hout.
  apply bind_inv in H. destruct H as [(a & w1 & H1 & H)|[(e & H1 & _)|(H1 & _)]].
  - destruct (Hm _ _ _ H1) as (e1 & T1 & Q1).
    destruct (Hk _ _ _ _ H Hout) as (e2 & Q2 & [T2|(data & e & evs & -> & T2 & F)]).
    + exists (e1 ++ e2). split; [by apply Forall_app|]. left. by rewrite T2, T1, <- app_assoc.
    + exists (e1 ++ e2). split; [by apply Forall_app|]. right. exists data, e, evs.
      split; [done|]. split; [by rewrite T2, T1, <- !app_assoc|done].
  - destruct (Hm _ _ _ H1) as (e1 & T1 & Q1). exists e1. by split; [|left].
  - destruct (Hm _ _ _ H1) as (e1 & T1 & Q1). exists e1. by split; [|left].
Qed.

Lemma fails_quietly_final {A : Type} (ctx : Context) (type : string) (data : Value) (r : A) :
  fails_quietly type ctx (_ ← _entityChanged data ctx type; mret r).
Proof.
  intros w out w' H Hout.
  destruct (entityChanged_run data ctx type w)
    as (o & w2 & R & _ & _ & [[-> T]|(e & evs & -> & T & F)]);
    unfold mbind, M_bind, bind in H; rewrite R in H; injection H as <- <-.
  - by destruct (Hout r).
  - exists []. split; [constructor|]. right. by exists data, e, evs.
Qed.

Lemma quiet_read (ev : Event) : is_read_event ev = true → is_quiet ev.
Proof. by destruct ev. Qed.

Lemma await_insert_emits (P : Event → Prop) (a : AdapterInst) (payload : Obj) :
  emits P (await_insert a payload).
Proof.
  unfold await_insert. repeat (apply emits_bind; [auto with effects|]; intros ?).
  apply emits_ret.
Qed.

Lemma await_insertMany_emits (P : Event → Prop) (a : AdapterInst) (payloads : list Obj) :
  emits P (await_insertMany a payloads).
Proof.
  unfold await_insertMany. repeat (apply emits_bind; [auto with effects|]; intros ?).
  apply emits_ret.
Qed.

Lemma await_clear_emits (P : Event → Prop) (a : AdapterInst) (params : Value) :
  emits P (await_clear a params).
Proof.
  unfold await_clear. repeat (apply emits_bind; [auto with effects|]; intros ?).
  apply emits_ret.
Qed.

Lemma emit_all_run (evs : list Event) (w : World) :
  emit_all evs w =
    (Returned tt,
     {| adapters := adapters w; nextInstance := nextInstance w; stores := stores w;
        trace := trace w ++ evs |}).
Proof.
  revert w. induction evs as [|ev evs IH]; intros w; cbn [emit_all].
  - rewrite app_nil_r. by destruct w.
  - unfold mbind, M_bind, bind, emit. rewrite IH. cbn [log_event adapters nextInstance stores trace].
    by rewrite <- app_assoc.
Qed.

Lemma await_validateAll_run (ctx : Context) (params : list Obj) (w : World) :
  await_validateAll ctx params w =
    (outcome_of (collect (List.map (fun entity => validateParams this ctx entity "create" None)
                            params)),
     {| adapters := adapters w; nextInstance := nextInstance w; stores := stores w;
        trace := trace w ++ List.map (EvValidate "create") params |}).
Proof.
  unfold await_validateAll, mbind, M_bind, bind. by rewrite emit_all_run.
Qed.

Lemma await_validateAll_emits (P : Event → Prop) (ctx : Context) (params : list Obj) :
  (∀ ty p, P (EvValidate ty p)) → emits P (await_validateAll ctx params).
Proof.
  intros HP w out w' H. rewrite await_validateAll_run in H. injection H as _ <-.
  eexists. split; [reflexivity|]. apply Forall_forall. intros ev Hin.
  apply list_elem_of_fmap in Hin. destruct Hin as (p & -> & _). apply HP.
Qed.

(** [X14] An update, replace or create call (of one entity or of many)
    that returns has notified exactly once, as the last thing it did and
    about the value it returns: the cache-cleaning broadcast, when caching
    is enabled and names an event, followed by the [entityChanged] hook.
    A remove call that returns has notified once too, as its last step,
    with type remove. *)
Theorem change_notifies_last (fuel : nat) (ctx : Context) (opts : CallOpts) :
  (∀ params, notifies_result "update" (updateEntity fuel ctx params opts)) ∧
  (∀ params, notifies_result "replace" (replaceEntity fuel ctx params opts)) ∧
  (∀ params, notifies_result "create" (createEntity fuel ctx params opts)) ∧
  (∀ params, notifies_result "create" (createEntities fuel ctx params opts)) ∧
  (∀ params w v w', removeEntity fuel ctx params opts w = (Returned v, w') →
     ∃ pre data, trace w' = trace w ++ pre ++ notify_events "remove" data ∧
                 Forall is_quiet pre).
Proof.
  pose proof quiet_read as Hq.
  split; [|split; [|split; [|split]]]; intros params.
  - unfold updateEntity.
    apply notifies_bind; [auto with effects|]. intros id.
    apply notifies_bind; [by apply resolveEntities_emits|]. intros old.
    apply notifies_bind.
    { destruct (negb _); [by apply await_validateParams_emits|auto with effects]. }
    intros p. apply notifies_bind; [by apply getAdapter_emits|]. intros a.
    apply notifies_bind; [by apply await_updateById_emits|]. intros r.
    apply notifies_final.
  - unfold replaceEntity.
    apply notifies_bind; [auto with effects|]. intros id.
    apply notifies_bind; [by apply resolveEntities_emits|]. intros old.
    apply notifies_bind; [by apply getAdapter_emits|]. intros a.
    apply notifies_bind; [by apply await_validateParams_emits|]. intros p.
    apply notifies_bind; [by apply await_replaceById_emits|]. intros r.
    apply notifies_final.
  - unfold createEntity.
    apply notifies_bind; [by apply await_validateParams_emits|]. intros p.
    apply notifies_bind; [by apply getAdapter_emits|]. intros a.
    apply notifies_bind; [by apply await_insert_emits|]. intros r.
    apply notifies_final.
  - unfold createEntities.
    apply notifies_bind; [by apply await_validateAll_emits|]. intros p.
    apply notifies_bind; [by apply getAdapter_emits|]. intros a.
    apply notifies_bind; [by apply await_insertMany_emits|]. intros r.
    apply notifies_final.
  - intros w v w' H. unfold removeEntity in H.
    returned_step H as id w1 H1. returned_step H as old w2 H2.
    returned_step H as a w3 H3. returned_step H as p w4 H4.
    returned_step H as r w5 H5. returned_step H as u w6 H6. injection H as _ <-.
    destruct (emits_lift is_quiet _ _ _ _ H1) as (e1 & T1 & Q1).
    destruct (resolveEntities_emits is_quiet fuel ctx params existenceCheck Hq _ _ _ H2)
      as (e2 & T2 & Q2).
    destruct (getAdapter_emits is_quiet fuel ctx Hq _ _ _ H3) as (e3 & T3 & Q3).
    destruct (await_validateParams_emits is_quiet ctx params "remove" None eq_refl _ _ _ H4)
      as (e4 & T4 & Q4).
    destruct (remove_write_emits is_quiet a (_sanitizeID id opts) p
                (fun _ => eq_refl) (fun _ => eq_refl) _ _ _ H5) as (e5 & T5 & Q5).
    match type of H6 with _entityChanged ?d _ _ _ = _ =>
      destruct (entityChanged_run d ctx "remove" w5)
        as (o & w7 & R & _ & _ & [[-> T6]|(e & evs & -> & _)]);
      [exists (e1 ++ e2 ++ e3 ++ e4 ++ e5), d | rewrite R in H6; discriminate] end.
    rewrite R in H6. injection H6 as _ <-.
    split; [rewrite T6, T5, T4, T3, T2, T1; by rewrite <- !app_assoc|].
    by repeat apply Forall_app_2.
Qed.

(** [X15] An update, replace, remove or create call that throws, or whose
    connection never settles, has notified nobody, with one exception: the
    notification itself can throw. Then the broadcast, or the broadcast
    and the hook, are the last events of the call, and the call throws
    what the broadcast or the hook threw. *)
Theorem change_failure_notification (fuel : nat) (ctx : Context) (opts : CallOpts) :
  (∀ params, fails_quietly "update" ctx (updateEntity fuel ctx params opts)) ∧
  (∀ params, fails_quietly "replace" ctx (replaceEntity fuel ctx params opts)) ∧
  (∀ params, fails_quietly "remove" ctx (removeEntity fuel ctx params opts)) ∧
  (∀ params, fails_quietly "create" ctx (createEntity fuel ctx params opts)) ∧
  (∀ params, fails_quietly "create" ctx (createEntities fuel ctx params opts)).
Proof.
  pose proof quiet_read as Hq.
  split; [|split; [|split; [|split]]]; intros params.
  - unfold updateEntity.
    apply fails_quietly_bind; [auto with effects|]. intros id.
    apply fails_quietly_bind; [by apply resolveEntities_emits|]. intros old.
    apply fails_quietly_bind.
    { destruct (negb _); [by apply await_validateParams_emits|auto with effects]. }
    intros p. apply fails_quietly_bind; [by apply getAdapter_emits|]. intros a.
    apply fails_quietly_bind; [by apply await_updateById_emits|]. intros r.
    apply fails_quietly_final.
  - unfold replaceEntity.
    apply fails_quietly_bind; [auto with effects|]. intros id.
    apply fails_quietly_bind; [by apply resolveEntities_emits|]. intros old.
    apply fails_quietly_bind; [by apply getAdapter_emits|]. intros a.
    apply fails_quietly_bind; [by apply await_validateParams_emits|]. intros p.
    apply fails_quietly_bind; [by apply await_replaceById_emits|]. intros r.
    apply fails_quietly_final.
  - unfold removeEntity.
    apply fails_quietly_bind; [auto with effects|]. intros id.
    apply fails_quietly_bind; [by apply resolveEntities_emits|]. intros old.
    apply fails_quietly_bind; [by apply getAdapter_emits|]. intros a.
    apply fails_quietly_bind; [by apply await_validateParams_emits|]. intros p.
    apply fails_quietly_bind; [by apply remove_write_emits|]. intros r.
    apply fails_quietly_final.
  - unfold createEntity.
    apply fails_quietly_bind; [by apply await_validateParams_emits|]. intros p.
    apply fails_quietly_bind; [by apply getAdapter_emits|]. intros a.
    apply fails_quietly_bind; [by apply await_insert_emits|]. intros r.
    apply fails_quietly_final.
  - unfold createEntities.
    apply fails_quietly_bind; [by apply await_validateAll_emits|]. intros p.
    apply fails_quietly_bind; [by apply getAdapter_emits|]. intros a.
    apply fails_quietly_bind; [by apply await_insertMany_emits|]. intros r.
    apply fails_quietly_final.
Qed.

(** ** Tenants *)

Lemma stays_same (ctx : Context) (i : nat) (w w' : World) :
  adapters w' = adapters w → stores w' = stores w → stays_in_tenant ctx i w w'.
Proof. intros Ha Hs. split; [exists []; by rewrite app_nil_r|]. by rewrite Hs. Qed.

Lemma stays_trans (ctx : Context) (i : nat) (w w1 w' : World) :
  stays_in_tenant ctx i w w1 → stays_in_tenant ctx i w1 w' → stays_in_tenant ctx i w w'.
Proof.
  intros [[l1 A1] S1] [[l2 A2] S2]. split.
  - exists (l1 ++ l2). by rewrite A2, A1, <- app_assoc.
  - intros Hother. rewrite S2 by done. apply S1. intros a Ha. apply Hother.
    rewrite A2. by apply adapters_get_app_Some.
Qed.

Lemma stays_bind {A B : Type} (ctx : Context) (i : nat) (m : M A) (k : A → M B) (w : World) :
  (∀ out w1, m w = (out, w1) → stays_in_tenant ctx i w w1) →
  (∀ a w1, m w = (Returned a, w1) → ∀ out w', k a w1 = (out, w') → stays_in_tenant ctx i w1 w') →
  ∀ out w', (m ≫= k) w = (out, w') → stays_in_tenant ctx i w w'.
Proof.
  intros Hm Hk out w' H.
  apply bind_inv in H. destruct H as [(a & w1 & H1 & H)|[(e & H1 & _)|(H1 & _)]]; eauto.
  eapply stays_trans; eauto.
Qed.

Lemma stays_pure {A : Type} (ctx : Context) (i : nat) (m : M A) (w : World) :
  emits (fun _ => True) m → keeps_stores m →
  (∀ out w1, m w = (out, w1) → adapters w1 = adapters w) →
  ∀ out w1, m w = (out, w1) → stays_in_tenant ctx i w w1.
Proof. intros _ Hs Ha out w1 H. apply stays_same; eauto. Qed.

Lemma getAdapter_registry (fuel : nat) (ctx : Context) (w w1 : World) (out : Outcome AdapterInst) :
  getAdapter fuel ctx w = (out, w1) → ∃ l, adapters w1 = adapters w ++ l.
Proof.
  unfold getAdapter.
  destruct (getAdapter_enter_cases ctx w) as [(a' & Hg & ->)|(Hg & ->)]; cbv zeta.
  - intros [= <- <-]. exists []. by rewrite app_nil_r.
  - set (a' := {| inst_id := nextInstance w; inst_opts := _ |}).
    unfold _connect. intros H.
    assert (Hc : ∀ o w2, (_ ← emit (EvConnect (inst_id a')); connecting fuel a' 0)
                   {| adapters := adapters w ++ [(tenantKey ctx, a')];
                      nextInstance := S (nextInstance w); stores := stores w;
                      trace := trace w ++ [EvCreate (nextInstance w) (tenantKey ctx)] |} = (o, w2) →
                 adapters w2 = adapters w ++ [(tenantKey ctx, a')]).
    { intros o w2 H2. unfold mbind, M_bind, bind, emit in H2.
      apply connecting_adapters in H2. by rewrite H2. }
    apply bind_inv in H. destruct H as [(u & w2 & H2 & H)|[(e & H2 & _)|(H2 & _)]].
    + injection H as _ <-. eauto.
    + eauto.
    + eauto.
Qed.

Lemma getAdapter_stays (fuel : nat) (ctx ctx' : Context) (i : nat) (w w1 : World)
    (out : Outcome AdapterInst) :
  getAdapter fuel ctx' w = (out, w1) → stays_in_tenant ctx i w w1.
Proof.
  intros H. split; [by eapply getAdapter_registry|].
  intros _. by rewrite (getAdapter_keeps_stores _ _ _ _ _ H).
Qed.

Lemma await_find_adapters (a : AdapterInst) (params : Obj) (w w' : World)
    (out : Outcome (option (list Obj))) :
  await_find a params w = (out, w') → adapters w' = adapters w.
Proof.
  unfold await_find, mbind, M_bind, bind, emit, read_store, lift. by intros [= <- <-].
Qed.

Lemma resolveEntities_stays (fuel : nat) (ctx ctx' : Context) (i : nat) (params : Obj)
    (opts : CallOpts) (w w' : World) (out : Outcome Value) :
  resolveEntities fuel ctx' params opts w = (out, w') → stays_in_tenant ctx i w w'.
Proof.
  revert out w'. unfold resolveEntities.
  apply stays_bind; [by intros ?? [= <- <-]; apply stays_same|]. intros id ? [= _ <-].
  apply stays_bind; [by intros ?? [= <- <-]; apply stays_same|]. intros p ? [= _ <-].
  apply stays_bind; [intros ??; apply getAdapter_stays|]. intros a w1 _.
  apply stays_bind.
  { intros ?? H. apply stays_same; [by eapply await_find_adapters|].
    by eapply await_find_keeps_stores. }
  intros r w2 _ ?? [= <- <-]. by apply stays_same.
Qed.

Lemma touches_only_stays {A : Type} (ctx : Context) (i : nat) (a : AdapterInst) (m : M A)
    (w : World) :
  touches_only a m → adapters_get (tenantKey ctx) (adapters w) = Some a →
  ∀ out w', m w = (out, w') → stays_in_tenant ctx i w w'.
Proof.
  intros Hm Hreg out w' H. destruct (Hm _ _ _ H) as [Ha Hs]. split.
  - exists []. by rewrite app_nil_r.
  - intros Hother. apply Hs. intros ->. apply (Hother a); [by rewrite Ha|done].
Qed.

Ltac touches_only_tac :=
  intros w out w';
  unfold mbind, M_bind, bind, emit, read_store, lift, set_store, mret, M_ret, ret; simpl;
  match goal with |- context [outcome_of ?r] => destruct r as [[v s]|e] end; simpl;
  intros [= <- <-]; simpl; (split; [done|]); intros j Hj;
  by rewrite ?lookup_insert_ne.

Lemma await_updateById_touches (a : AdapterInst) (id : Value) (payload : Obj) (raw : option bool) :
  touches_only a (await_updateById a id payload raw).
Proof. unfold await_updateById. touches_only_tac. Qed.

Lemma await_replaceById_touches (a : AdapterInst) (id : Value) (payload : Obj) :
  touches_only a (await_replaceById a id payload).
Proof. unfold await_replaceById. touches_only_tac. Qed.

Lemma await_removeById_touches (a : AdapterInst) (id : Value) :
  touches_only a (await_removeById a id).
Proof. unfold await_removeById. touches_only_tac. Qed.

Lemma await_insert_touches (a : AdapterInst) (payload : Obj) :
  touches_only a (await_insert a payload).
Proof. unfold await_insert. touches_only_tac. Qed.

Lemma await_insertMany_touches (a : AdapterInst) (payloads : list Obj) :
  touches_only a (await_insertMany a payloads).
Proof. unfold await_insertMany. touches_only_tac. Qed.

Lemma await_clear_touches (a : AdapterInst) (params : Value) :
  touches_only a (await_clear a params).
Proof. unfold await_clear. touches_only_tac. Qed.

Lemma notify_stays {A : Type} (ctx ctx' : Context) (i : nat) (type : string) (data : Value)
    (r : A) (w w' : World) (out : Outcome A) :
  (_ ← _entityChanged data ctx' type; mret r) w = (out, w') → stays_in_tenant ctx i w w'.
Proof.
  destruct (entityChanged_run data ctx' type w) as (o & w2 & R & Ha & Hs & _).
  unfold mbind, M_bind, bind. rewrite R. intros H.
  assert (w' = w2) as -> by (by destruct o; injection H as _ <-).
  by apply stays_same.
Qed.

Lemma validate_stays (ctx ctx' : Context) (i : nat) (params : Obj) (type : string)
    (old : option Value) (w w' : World) (out : Outcome Obj) :
  await_validateParams ctx' params type old w = (out, w') → stays_in_tenant ctx i w w'.
Proof. rewrite await_validateParams_run. intros [= _ <-]. by apply stays_same. Qed.

(** [X16] Every call that writes stays within the tenant of its context:
    the adapter calls it makes go to the adapter object registered for
    that tenant. Each adapter object owning its rows, the rows of every
    other adapter object are the same afterwards, whatever the outcome,
    and no entry of the registry was removed or replaced. *)
Theorem writes_stay_in_tenant (fuel : nat) (ctx : Context) (opts : CallOpts) :
  (∀ params, writes_in_tenant ctx (updateEntity fuel ctx params opts)) ∧
  (∀ params, writes_in_tenant ctx (replaceEntity fuel ctx params opts)) ∧
  (∀ params, writes_in_tenant ctx (removeEntity fuel ctx params opts)) ∧
  (∀ params, writes_in_tenant ctx (createEntity fuel ctx params opts)) ∧
  (∀ params, writes_in_tenant ctx (createEntities fuel ctx params opts)) ∧
  (∀ params, writes_in_tenant ctx (clearEntities fuel ctx params)).
Proof.
  split; [|split; [|split; [|split; [|split]]]]; intros params i w.
  - unfold updateEntity.
    apply stays_bind; [by intros ?? [= <- <-]; apply stays_same|]. intros id ? [= _ <-].
    apply stays_bind; [intros ??; apply resolveEntities_stays|]. intros old w1 _.
    apply stays_bind.
    { destruct (negb _); [intros ??; apply validate_stays|].
      intros ?? [= <- <-]. by apply stays_same. }
    intros p w2 _.
    apply stays_bind; [intros ??; apply getAdapter_stays|]. intros a w3 Hreg.
    apply getAdapter_registered in Hreg.
    apply stays_bind; [apply touches_only_stays with (a := a); [apply await_updateById_touches|exact Hreg]|].
    intros r w4 _ ??. apply notify_stays.
  - unfold replaceEntity.
    apply stays_bind; [by intros ?? [= <- <-]; apply stays_same|]. intros id ? [= _ <-].
    apply stays_bind; [intros ??; apply resolveEntities_stays|]. intros old w1 _.
    apply stays_bind; [intros ??; apply getAdapter_stays|]. intros a w2 Hreg.
    apply getAdapter_registered in Hreg.
    apply stays_bind; [intros ??; apply validate_stays|]. intros p w3 Hv.
    rewrite await_validateParams_run in Hv. injection Hv as _ <-.
    apply stays_bind; [apply touches_only_stays with (a := a); [apply await_replaceById_touches|exact Hreg]|].
    intros r w4 _ ??. apply notify_stays.
  - unfold removeEntity.
    apply stays_bind; [by intros ?? [= <- <-]; apply stays_same|]. intros id ? [= _ <-].
    apply stays_bind; [intros ??; apply resolveEntities_stays|]. intros old w1 _.
    apply stays_bind; [intros ??; apply getAdapter_stays|]. intros a w2 Hreg.
    apply getAdapter_registered in Hreg.
    apply stays_bind; [intros ??; apply validate_stays|]. intros p w3 Hv.
    rewrite await_validateParams_run in Hv. injection Hv as _ <-.
    apply stays_bind.
    { apply touches_only_stays with (a := a); [|exact Hreg].
      destruct (softDelete this);
        [apply await_updateById_touches | apply await_removeById_touches]. }
    intros r w4 _ ??. apply notify_stays.
  - unfold createEntity.
    apply stays_bind; [intros ??; apply validate_stays|]. intros p w1 _.
    apply stays_bind; [intros ??; apply getAdapter_stays|]. intros a w2 Hreg.
    apply getAdapter_registered in Hreg.
    apply stays_bind; [apply touches_only_stays with (a := a); [apply await_insert_touches|exact Hreg]|].
    intros r w4 _ ??. apply notify_stays.
  - unfold createEntities.
    apply stays_bind.
    { intros ?? H. rewrite await_validateAll_run in H. injection H as _ <-. by apply stays_same. }
    intros p w1 _.
    apply stays_bind; [intros ??; apply getAdapter_stays|]. intros a w2 Hreg.
    apply getAdapter_registered in Hreg.
    apply stays_bind; [apply touches_only_stays with (a := a); [apply await_insertMany_touches|exact Hreg]|].
    intros r w4 _ ??. apply notify_stays.
  - unfold clearEntities.
    apply stays_bind; [intros ??; apply getAdapter_stays|]. intros a w2 Hreg.
    apply getAdapter_registered in Hreg.
    apply touches_only_stays with (a := a); [apply await_clear_touches|exact Hreg].
Qed.

(** ** create *)

Lemma collect_Err {A : Type} (rs : list (Result A)) (e : Error) :
  Err e ∈ rs → ∃ e', collect rs = Err e' ∧ Err e' ∈ rs.
Proof.
  induction rs as [|r rs IH]; intros Hin; [by apply elem_of_nil in Hin|].
  destruct r as [a|e0]; cbn [collect].
  - apply elem_of_cons in Hin. destruct Hin as [Hin|Hin]; [done|].
    destruct (IH Hin) as (e' & -> & Hin'). exists e'. split; [done|]. by apply list_elem_of_further.
  - exists e0. split; [done|]. apply list_elem_of_here.
Qed.

(** [X17] A create call whose payload fails validation throws the
    validation error, having only called the validator: no adapter object
    is looked up, created or connected, no row is written and nobody is
    notified. For a batch, every entity is validated before anything
    else happens and one failing entity is enough: the error thrown is the
    validation error of a failing entity of the batch. *)
Theorem create_rejected_by_validation (fuel : nat) (ctx : Context) (opts : CallOpts) (w : World) :
  (∀ params e, validateParams this ctx params "create" None = Err e →
     createEntity fuel ctx params opts w = (Thrown e, log_event (EvValidate "create" params) w)) ∧
  (∀ params entity e, entity ∈ params →
     validateParams this ctx entity "create" None = Err e →
     ∃ e' bad w',
       createEntities fuel ctx params opts w = (Thrown e', w') ∧
       bad ∈ params ∧ validateParams this ctx bad "create" None = Err e' ∧
       adapters w' = adapters w ∧ stores w' = stores w ∧
       trace w' = trace w ++ List.map (EvValidate "create") params).
Proof.
  split.
  - intros params e He. unfold createEntity, mbind, M_bind, bind.
    rewrite await_validateParams_run, He. reflexivity.
  - intros params entity e Hin He.
    destruct (collect_Err (List.map (fun p => validateParams this ctx p "create" None) params) e)
      as (e' & Hc & Hin').
    { rewrite <- He. apply list_elem_of_fmap. by exists entity. }
    apply list_elem_of_fmap in Hin'. destruct Hin' as (bad & Hbad & Hbin).
    exists e', bad. eexists. unfold createEntities, mbind, M_bind, bind.
    rewrite await_validateAll_run, Hc. cbn [outcome_of]. by repeat split.
Qed.

(** ** find, count and clear *)



Lemma connecting_connects (P : Event → Prop) (a : AdapterInst) :
  (∀ ev, is_connect_event ev = true → P ev) →
  ∀ fuel n, emits P (connecting fuel a n).
Proof.
  intros HP. induction fuel as [|fuel IH]; intros n.
  - intros w out w' [= <- <-]. exists []. by rewrite app_nil_r.
  - cbn [connecting]. apply emits_bind.
    + unfold connectAttempt. apply emits_bind; [apply emits_emit; by apply HP|].
      intros _. apply emits_ret.
    + intros [err|]; [|apply emits_ret].
      destruct (autoReconnect mixinOpts); [apply IH | apply emits_throw].
Qed.

Lemma getAdapter_connects (P : Event → Prop) (fuel : nat) (ctx : Context) :
  (∀ ev, is_connect_event ev = true → P ev) → emits P (getAdapter fuel ctx).
Proof.
  intros HP w out w' Hrun. unfold getAdapter in Hrun.
  destruct (getAdapter_enter_cases ctx w) as [(a' & Hg & E)|(Hg & E)];
    cbv zeta in E; rewrite E in Hrun.
  - injection Hrun as <- <-. exists []. by rewrite app_nil_r.
  - set (a := {| inst_id := nextInstance w; inst_opts := _ |}) in *.
    assert (Hc : emits P (_ ← _connect fuel a; mret a)).
    { apply emits_bind; [|intros; apply emits_ret].
      unfold _connect. apply emits_bind; [apply emits_emit; by apply HP|].
      intros _. by apply connecting_connects. }
    destruct (Hc _ _ _ Hrun) as (evs & Ht & Hall). cbn [trace] in Ht.
    exists (EvCreate (inst_id a) (tenantKey ctx) :: evs). split.
    + by rewrite Ht, <- app_assoc.
    + constructor; [by apply HP | done].
Qed.


(** [X19] Counting, finding one entity and clearing are never validated
    and never announced: whatever the outcome, [countEntities],
    [findEntity] and [clearEntities] add nothing to the trace but the
    creation and connection of an adapter object; no validator runs and
    neither the cache-cleaning broadcast nor [entityChanged] is called.
    [countEntities] and [findEntity] also leave every row as it is. *)
Theorem count_findOne_clear_unannounced (fuel : nat) (ctx : Context) (opts : CallOpts) :
  (∀ params, emits (fun ev => is_connect_event ev = true) (countEntities fuel ctx params) ∧
             keeps_stores (countEntities fuel ctx params)) ∧
  (∀ params, emits (fun ev => is_connect_event ev = true) (findEntity fuel ctx params opts) ∧
             keeps_stores (findEntity fuel ctx params opts)) ∧
  (∀ params, emits (fun ev => is_connect_event ev = true) (clearEntities fuel ctx params)).
Proof.
  split; [|split]; intros params; [split|split|].
  - unfold countEntities.
    apply emits_bind; [auto with effects|]. intros plan.
    apply emits_bind; [by apply getAdapter_connects|]. intros a.
    apply emits_bind; [auto with effects|]. intros s. auto with effects.
  - unfold countEntities.
    apply keeps_stores_bind; [auto with effects|]. intros plan.
    apply keeps_stores_bind; [apply getAdapter_keeps_stores|]. intros a.
    apply keeps_stores_bind; [auto with effects|]. intros s. auto with effects.
  - unfold findEntity.
    apply emits_bind; [auto with effects|]. intros plan.
    apply emits_bind; [by apply getAdapter_connects|]. intros a.
    apply emits_bind; [auto with effects|]. intros s.
    apply emits_bind; [auto with effects|]. intros r. auto with effects.
  - unfold findEntity.
    apply keeps_stores_bind; [auto with effects|]. intros plan.
    apply keeps_stores_bind; [apply getAdapter_keeps_stores|]. intros a.
    apply keeps_stores_bind; [auto with effects|]. intros s.
    apply keeps_stores_bind; [auto with effects|]. intros r. auto with effects.
  - unfold clearEntities.
    apply emits_bind; [by apply getAdapter_connects|]. intros a.
    apply await_clear_emits.
Qed.


(** ** Defaults *)

(** [X21] With the [getAdapterByContext] of the mixin itself every
    context belongs to the one tenant [default]: the adapter object a call
    of [getAdapter] has returned is what any later call returns, for any
    context, without creating or connecting anything. *)
Theorem default_single_tenant (fuel fuel' : nat) (ctx ctx' : Context) (w w1 : World)
    (a : AdapterInst) :
  (∀ c, getAdapterByContext this c (adapter mixinOpts) =
        default_getAdapterByContext c (adapter mixinOpts)) →
  getAdapter fuel ctx w = (Returned a, w1) →
  tenantKey ctx = "default" ∧ getAdapter fuel' ctx' w1 = (Returned a, w1).
Proof.
  intros Hd H. apply getAdapter_registered in H.
  assert (K : ∀ c, tenantKey c = "default") by (intros c; unfold tenantKey; by rewrite Hd).
  split; [apply K|]. apply getAdapter_reuse. rewrite K. by rewrite K in H.
Qed.

(** ** resolve: the query *)


End Methods.

(** * The methods on the sample configurations *)

Import Sample.

(** Ids ["A"] and ["B"], of which only ["A"] is stored: the mapping has
    the single key ["A"], with the transformed document. And an entity
    whose id is ["__proto__"]: it is found, and the object that comes
    back has no key at all. *)
Lemma resolveEntities_mapping_witness :
  let proto_params : Obj := {[ "id" := VArr [VStr "__proto__"]; "mapping" := VBool true ]} in
  let proto_request := by_id proto_params (VObj {[ "$in" := VArr [VStr "__proto__"] ]}) in
  resolveEntities cfg svc resolve_adapter defaults_flat 1 VNull ab_params plain
    (world_with [row "A" "alice"])
  = (Returned (VObj {[ "A" := VObj {[ "name" := VStr "alice" ]} ]}),
     log_event (EvFind 0 ab_request) (after_connect [row "A" "alice"])) ∧
  resolveEntities cfg svc resolve_adapter defaults_flat 1 VNull proto_params plain
    (world_with [row "__proto__" "eve"])
  = (Returned (VObj ∅),
     log_event (EvFind 0 proto_request) (after_connect [row "__proto__" "eve"])).
Proof.
  intros proto_params proto_request. split.
  - exact (proj1 (resolveEntities_mapping cfg svc resolve_adapter defaults_flat 1 VNull
                    ab_params ab_request plain (world_with [row "A" "alice"])
                    (after_connect [row "A" "alice"]) (VArr [VStr "A"; VStr "B"]) mem0
                    [row "A" "alice"] [VObj {[ "name" := VStr "alice" ]}]
                    eq_refl eq_refl eq_refl eq_refl ltac:(discriminate)
                    eq_refl eq_refl eq_refl ltac:(repeat constructor))).
  - exact (proj1 (resolveEntities_mapping cfg svc resolve_adapter defaults_flat 1 VNull
                    proto_params proto_request plain (world_with [row "__proto__" "eve"])
                    (after_connect [row "__proto__" "eve"]) (VArr [VStr "__proto__"]) mem0
                    [row "__proto__" "eve"] [VObj {[ "name" := VStr "eve" ]}]
                    eq_refl eq_refl eq_refl eq_refl ltac:(discriminate)
                    eq_refl eq_refl eq_refl ltac:(repeat constructor))).
Defined.


(** The scenario of the specification with a page size above the limit. *)
Example sanitizeParams_clamps :
  sanitizeParams cfg no_json {[ "page" := VStr "3"; "pageSize" := VNum (Int 80) ]} listOpts =
    Ok {[ "limit" := VNum (Int 50); "offset" := VNum (Int 100);
          "page" := VNum (Int 3); "pageSize" := VNum (Int 50) ]}.
Proof. vm_compute. reflexivity. Qed.

(** Outside list mode only a bare limit is clamped. *)
Example sanitizeParams_bare_limit :
  sanitizeParams cfg no_json {[ "limit" := VStr "500"; "sort" := VStr "name,-age" ]} None =
    Ok {[ "limit" := VNum (Int 50); "sort" := VArr [VStr "name"; VStr "-age"] ]}.
Proof. vm_compute. reflexivity. Qed.



(** With [scope: []] the active set is the empty sequence, not the
    default scopes. *)
Lemma applyScopes_empty_sequence :
  ¬ follows_spec_scopes svc_scoped {[ "scope" := VArr [] ]}.
Proof. unfold follows_spec_scopes. discriminate. Qed.

(** With [scope: []] the query is left alone, where the default scope
    would have added its fragment. *)
Example applyScopes_empty_sequence_query :
  _applyScopes svc_scoped defaults_flat {[ "scope" := VArr [] ]} VNull = {[ "scope" := VArr [] ]} ∧
  _applyScopes svc_scoped defaults_flat ∅ VNull =
    {[ "query" := VObj {[ "status" := VNum (Int 1) ]} ]}.
Proof. split; vm_compute; reflexivity. Qed.

(** [scope: false] and [scope: []] leave the parameters as they are; a
    scope name selects that scope. *)
Lemma applyScopes_active_set_witness :
  _applyScopes svc_scoped defaults_flat {[ "scope" := VBool false ]} VNull = {[ "scope" := VBool false ]} ∧
  _applyScopes svc_scoped defaults_flat {[ "scope" := VArr [] ]} VNull = {[ "scope" := VArr [] ]} ∧
  follows_spec_scopes svc_scoped {[ "scope" := VStr "active" ]}.
Proof.
  split; [|split].
  - exact (proj2 (proj1 (applyScopes_active_set svc_scoped defaults_flat
                           {[ "scope" := VBool false ]} VNull) eq_refl)).
  - exact (proj1 (proj2 (proj2 (applyScopes_active_set svc_scoped defaults_flat
                                  {[ "scope" := VArr [] ]} VNull))) eq_refl).
  - exact (proj2 (proj2 (proj2 (applyScopes_active_set svc_scoped defaults_flat
                                  {[ "scope" := VStr "active" ]} VNull)))
             eq_refl ltac:(discriminate)).
Defined.


(** An update whose payload tries to change the primary key, under both
    of its names. *)
Example updateEntity_trace :
  trace (snd (updateEntity cfg svc resolve_adapter defaults_flat 1 VNull
                {[ "id" := VStr "A"; "_id" := VStr "Z"; "name" := VStr "bob" ]} plain
                (connected_world [row "A" "alice"])))
  = [EvFind 0 (by_id {[ "id" := VStr "A"; "_id" := VStr "Z"; "name" := VStr "bob" ]} (VStr "A"));
     EvValidate "update" {[ "id" := VStr "A"; "_id" := VStr "Z"; "name" := VStr "bob" ]};
     EvUpdateById 0 (VStr "A") {[ "name" := VStr "bob" ]} (Some false);
     EvEntityChanged "update" (VObj {[ "name" := VStr "bob" ]})].
Proof. vm_compute. reflexivity. Qed.

(** The same payload through update and through replace. *)
Lemma update_replace_payload_witness :
  let params : Obj := {[ "id" := VStr "A"; "_id" := VStr "Z"; "name" := VStr "bob" ]} in
  let w := connected_world [row "A" "alice"] in
  Forall (payload_clean svc)
    (trace (snd (updateEntity cfg svc resolve_adapter defaults_flat 1 VNull params plain w))) ∧
  Forall (payload_clean svc)
    (trace (snd (replaceEntity cfg svc resolve_adapter defaults_flat 1 VNull params plain w))).
Proof.
  intros params w. split.
  - destruct (proj1 (update_replace_payload cfg svc resolve_adapter defaults_flat 1 VNull
                       params plain w
                       (snd (updateEntity cfg svc resolve_adapter defaults_flat 1 VNull params plain w))
                       (fst (updateEntity cfg svc resolve_adapter defaults_flat 1 VNull params plain w)))
                eq_refl) as (evs & Ht & Hall & _).
    change (trace w ++ evs) with evs in Ht. rewrite Ht. exact Hall.
  - destruct (proj2 (update_replace_payload cfg svc resolve_adapter defaults_flat 1 VNull
                       params plain w
                       (snd (replaceEntity cfg svc resolve_adapter defaults_flat 1 VNull params plain w))
                       (fst (replaceEntity cfg svc resolve_adapter defaults_flat 1 VNull params plain w)))
                eq_refl) as (evs & Ht & Hall & _).
    change (trace w ++ evs) with evs in Ht. rewrite Ht. exact Hall.
Defined.

(** A soft delete with a secure id: the caller's ["sA"] comes back, the
    adapter is called with the decoded ["A"]. *)
Example removeEntity_soft_trace :
  let r := removeEntity cfg svc_soft resolve_adapter defaults_flat 1 VNull
             {[ "id" := VStr "sA"; "deletedAt" := VNum (Int 5) ]} plain
             (connected_world [row "A" "alice"]) in
  fst r = Returned (VStr "sA") ∧
  trace (snd r)
  = [EvFind 0 (by_id {[ "id" := VStr "sA"; "deletedAt" := VNum (Int 5) ]} (VStr "A"));
     EvValidate "remove" {[ "id" := VStr "sA"; "deletedAt" := VNum (Int 5) ]};
     EvUpdateById 0 (VStr "A") {[ "id" := VStr "sA"; "deletedAt" := VNum (Int 5) ]} None;
     EvEntityChanged "remove" (VObj {[ "name" := VStr "alice" ]})].
Proof. split; vm_compute; reflexivity. Qed.

Example removeEntity_hard_trace :
  let r := removeEntity cfg svc resolve_adapter defaults_flat 1 VNull
             {[ "id" := VStr "A" ]} plain (connected_world [row "A" "alice"]) in
  fst r = Returned (VStr "A") ∧
  stores (snd r) = {[ 0%nat := [] ]} ∧
  trace (snd r)
  = [EvFind 0 (by_id {[ "id" := VStr "A" ]} (VStr "A"));
     EvValidate "remove" {[ "id" := VStr "A" ]};
     EvRemoveById 0 (VStr "A");
     EvEntityChanged "remove" (VObj {[ "name" := VStr "alice" ]})].
Proof. repeat split; vm_compute; reflexivity. Qed.

(** The soft delete above, through the theorem. *)
Lemma removeEntity_returns_original_id_witness :
  let params : Obj := {[ "id" := VStr "sA"; "deletedAt" := VNum (Int 5) ]} in
  let w := connected_world [row "A" "alice"] in
  VStr "sA" = get params "id" ∧
  ∃ evs a payload,
    trace (snd (removeEntity cfg svc_soft resolve_adapter defaults_flat 1 VNull params plain w))
      = trace w ++ evs ∧
    validateParams svc_soft VNull params "remove" None = Ok payload ∧
    Forall (delete_branch_event svc_soft) evs ∧
    EvUpdateById a (VStr "A") payload None ∈ evs.
Proof.
  intros params w.
  exact (removeEntity_returns_original_id cfg svc_soft resolve_adapter defaults_flat 1 VNull
           params plain w
           (snd (removeEntity cfg svc_soft resolve_adapter defaults_flat 1 VNull params plain w))
           (VStr "sA") eq_refl).
Defined.



Example overlapping_calls :
  let s := run cfg svc_tenants resolve_adapter overlapping (sched_start empty_world) in
  sched_done s =
    [(VStr "t1", Returned {| inst_id := 0; inst_opts := VStr "memory" |});
     (VStr "t1", Returned {| inst_id := 0; inst_opts := VStr "memory" |});
     (VStr "t1", Returned {| inst_id := 0; inst_opts := VStr "memory" |});
     (VStr "t2", Returned {| inst_id := 1; inst_opts := VStr "memory" |})] ∧
  trace (sched_world s) =
    [EvCreate 0 "t1"; EvConnect 0; EvCreate 1 "t2"; EvConnect 1;
     EvConnectAttempt 0 0; EvConnectAttempt 1 0].
Proof. split; vm_compute; reflexivity. Qed.

(** With [autoReconnect], the one call of [_connect] retries
    [adapter.connect()] until it succeeds. *)
Example reconnecting :
  getAdapter cfg_reconnect svc resolve_adapter 5 VNull empty_world =
    (Returned {| inst_id := 0; inst_opts := VStr "flaky" |},
     {| adapters := [("default", {| inst_id := 0; inst_opts := VStr "flaky" |})];
        nextInstance := 1; stores := ∅;
        trace := [EvCreate 0 "default"; EvConnect 0; EvConnectAttempt 0 0;
                  EvConnectAttempt 0 1; EvConnectAttempt 0 2] |}).
Proof. vm_compute. reflexivity. Qed.

(** The first call for ["t1"] creates, registers and connects the adapter
    object 0; a second call returns it and changes nothing; the
    overlapping calls above register ["t1"] and connect each object once. *)
Lemma getAdapter_one_instance_per_key_witness :
  let first := getAdapter cfg svc_tenants resolve_adapter 1 (VStr "t1") empty_world in
  let s := run cfg svc_tenants resolve_adapter overlapping (sched_start empty_world) in
  first = (Returned {| inst_id := 0; inst_opts := VStr "memory" |},
           connected_after cfg svc_tenants 0 (VStr "t1") empty_world) ∧
  adapters (snd first) = [("t1", {| inst_id := 0; inst_opts := VStr "memory" |})] ∧
  getAdapter cfg svc_tenants resolve_adapter 0 (VStr "t1") (snd first)
  = (Returned {| inst_id := 0; inst_opts := VStr "memory" |}, snd first) ∧
  is_Some (adapters_get "t1" (adapters (sched_world s))) ∧
  NoDup (connect_calls (trace (sched_world s))).
Proof.
  intros first s.
  pose proof (getAdapter_one_instance_per_key cfg svc_tenants resolve_adapter empty_world)
    as (Hnew & Hret & _ & Hsame & _ & Hloop).
  split; [exact (Hret 0%nat (VStr "t1") eq_refl eq_refl)|].
  split; [exact (proj1 (Hnew 1%nat (VStr "t1") (fst first) (snd first) eq_refl eq_refl))|].
  split; [exact (proj2 (Hsame 1%nat 0%nat (VStr "t1") (VStr "t1")
                          {| inst_id := 0; inst_opts := VStr "memory" |} (snd first)
                          eq_refl eq_refl))|].
  destruct (Hloop eq_refl eq_refl overlapping) as (Hreg & _ & _ & _ & _ & Hconn & _).
  split; [|exact Hconn].
  apply (Hreg (VStr "t1")). apply list_elem_of_here.
Defined.

(** Three adapters: the first rejects at time 1, the second fulfils at
    time 5, the third rejects at time 7. *)
Example disconnectAll_first_rejection :
  disconnectAll resolve_adapter flaky_registry =
    (Ok (SettlesAt 1 (Err (AdapterFailed (VStr "EPIPE")))),
     {| adapters := []; nextInstance := 3; stores := ∅;
        trace := [EvDisconnect 0; EvDisconnect 1; EvDisconnect 2] |}).
Proof. vm_compute. reflexivity. Qed.

(** The promise of [disconnectAll] has settled at time 1, before the
    disconnects of the second and third adapter. *)
Lemma disconnectAll_rejects_early :
  ¬ disconnectAll_waits_and_aggregates resolve_adapter flaky_registry.
Proof.
  intros (p & ps & Hp & Hps & Hwait & _).
  vm_compute in Hp. injection Hp as <-.
  destruct ps as [|p0 [|p1 [|p2 [|]]]]; try discriminate Hps.
  vm_compute in Hps. injection Hps as <- <- <-.
  vm_compute in Hwait.
  apply Forall_cons in Hwait. destruct Hwait as [_ Hwait].
  apply Forall_cons in Hwait. destruct Hwait as [Hle _].
  lia.
Qed.

(** The failure of the third adapter is not in its reason. *)
Lemma disconnectAll_drops_failures :
  ¬ reports_all_failures
      (SettlesAt 1 (Err (AdapterFailed (VStr "EPIPE"))) : Promise (list unit))
      [SettlesAt 1 (Err (AdapterFailed (VStr "EPIPE"))); SettlesAt 5 (Ok tt);
       SettlesAt 7 (Err (AdapterFailed (VStr "ETIMEDOUT")))].
Proof.
  intros H. vm_compute in H.
  apply Forall_cons in H. destruct H as [_ H].
  apply Forall_cons in H. destruct H as [H _]. discriminate H.
Qed.

(** Two adapters that disconnect without failure; the three adapters
    above; and three adapters of which the second throws: the third is
    never disconnected. *)
Lemma disconnectAll_settles_witness :
  (∃ t vs, fst (disconnectAll resolve_adapter memory_registry) = Ok (SettlesAt t (Ok vs)) ∧
           length vs = 2%nat) ∧
  (∃ t0 e0, fst (disconnectAll resolve_adapter flaky_registry) = Ok (SettlesAt t0 (Err e0)) ∧
            (t0 ≤ 7)%nat) ∧
  fst (disconnectAll resolve_brittle flaky_registry) = Err (AdapterFailed (VStr "EBUSY")) ∧
  trace (snd (disconnectAll resolve_brittle flaky_registry)) =
    [EvDisconnect 0; EvDisconnect 1] ∧
  adapters (snd (disconnectAll resolve_brittle flaky_registry)) = [].
Proof.
  split; [|split].
  - destruct (proj1 (proj2 (proj2 (proj1 (proj2
               (disconnectAll_settles resolve_adapter memory_registry))
               [SettlesAt 1 (Ok tt); SettlesAt 1 (Ok tt)] eq_refl))))
      as (t & vs & Hp & Hlen & _).
    + intros p Hp.
      apply elem_of_cons in Hp. destruct Hp as [->|Hp]; [by eexists _, _|].
      apply elem_of_cons in Hp. destruct Hp as [->|Hp]; [by eexists _, _|].
      by apply elem_of_nil in Hp.
    + exists t, vs. split; [exact Hp | exact Hlen].
  - destruct (proj2 (proj2 (proj2 (proj1 (proj2
               (disconnectAll_settles resolve_adapter flaky_registry))
               [SettlesAt 1 (Err (AdapterFailed (VStr "EPIPE"))); SettlesAt 5 (Ok tt);
                SettlesAt 7 (Err (AdapterFailed (VStr "ETIMEDOUT")))] eq_refl)))
               7%nat (AdapterFailed (VStr "ETIMEDOUT")))
      as (t0 & e0 & Hp & _ & Hmin).
    + do 2 apply list_elem_of_further. apply list_elem_of_here.
    + exists t0, e0. split; [exact Hp|].
      apply (Hmin 7%nat (AdapterFailed (VStr "ETIMEDOUT"))).
      do 2 apply list_elem_of_further. apply list_elem_of_here.
  - destruct (proj2 (proj2 (disconnectAll_settles resolve_brittle flaky_registry))
                [{| inst_id := 0; inst_opts := VStr "flaky" |}]
                {| inst_id := 1; inst_opts := VStr "flaky" |}
                [{| inst_id := 2; inst_opts := VStr "flaky" |}]
                [SettlesAt 1 (Ok tt)] (AdapterFailed (VStr "EBUSY"))
                eq_refl eq_refl eq_refl) as [Hthrow Htrace].
    split; [exact Hthrow|]. split; [exact Htrace|].
    exact (proj1 (disconnectAll_settles resolve_brittle flaky_registry)).
Defined.


(** A limit that is no number becomes [NaN], not a string. *)
Lemma sanitizeParams_numbers_witness :
  let plan : Obj := {[ "limit" := VNum NaN ]} in
  sanitizeParams cfg no_json {[ "limit" := VStr "abc" ]} None = Ok plan ∧
  ∀ s, plan !! "limit" ≠ Some (VStr s).
Proof.
  intros plan. split; [reflexivity|]. intros s.
  exact (sanitizeParams_numbers cfg no_json {[ "limit" := VStr "abc" ]} plan None "limit" s
           (or_introl eq_refl) eq_refl).
Defined.




(** A sanitized plan is sanitized again without change. *)
Lemma sanitizeParams_again_witness :
  let plan : Obj := {[ "limit" := VNum (Int 50); "sort" := VArr [VStr "name"; VStr "-age"] ]} in
  sanitizeParams cfg no_json plan None = Ok plan.
Proof.
  intros plan.
  exact (sanitizeParams_again cfg no_json
           {[ "limit" := VStr "500"; "sort" := VStr "name,-age" ]} plan None eq_refl
           (fun s H => ltac:(discriminate H))).
Defined.


(** Without [autoReconnect] the refused connection is thrown, and the
    adapter object stays registered. *)
Lemma getAdapter_connect_failure_witness :
  getAdapter cfg_down svc resolve_adapter 1 VNull empty_world =
    (Thrown (ConnectionFailed (VStr "ECONNREFUSED")),
     connected_after cfg_down svc 0 VNull empty_world) ∧
  getAdapter cfg_down svc resolve_adapter 0 (VStr "again")
    (connected_after cfg_down svc 0 VNull empty_world) =
    (Returned (new_adapter cfg_down svc VNull empty_world),
     connected_after cfg_down svc 0 VNull empty_world).
Proof.
  pose proof (getAdapter_connect_failure cfg_down svc resolve_adapter 0 VNull empty_world
                (VStr "ECONNREFUSED") eq_refl eq_refl eq_refl) as [Hthrow Hlater].
  split; [exact Hthrow | exact (Hlater 0%nat (VStr "again") eq_refl)].
Defined.

(** With [autoReconnect] the third attempt connects. *)
Lemma getAdapter_reconnects_witness :
  getAdapter cfg_reconnect svc resolve_adapter 3 VNull empty_world =
    (Returned (new_adapter cfg_reconnect svc VNull empty_world),
     connected_after cfg_reconnect svc 2 VNull empty_world).
Proof.
  exact (getAdapter_reconnects cfg_reconnect svc resolve_adapter 3 2 VNull empty_world
           eq_refl eq_refl
           ltac:(intros [|[|j]] Hj; [by eexists | by eexists | lia])
           eq_refl ltac:(lia)).
Defined.

(** After [disconnectAll] the default tenant gets a second adapter
    object. *)
Lemma disconnectAll_then_getAdapter_witness :
  let w := connected_world [row "A" "alice"] in
  let a := {| inst_id := 1; inst_opts := VStr "memory" |} in
  a = new_adapter cfg svc VNull w ∧
  Forall (fun ha => inst_id (snd ha) ≠ 1%nat) (adapters w) ∧
  adapters (snd (getAdapter cfg svc resolve_adapter 1 VNull (snd (disconnectAll resolve_adapter w))))
    = [("default", a)].
Proof.
  intros w a.
  pose proof (disconnectAll_then_getAdapter cfg svc resolve_adapter 1 VNull w
                (snd (getAdapter cfg svc resolve_adapter 1 VNull (snd (disconnectAll resolve_adapter w))))
                a ltac:(repeat constructor) eq_refl) as (Ha & Hfresh & Hreg & _).
  split; [exact Ha|]. split; [exact Hfresh | exact Hreg].
Defined.

(** Two adapters without a [disconnect] function. *)
Lemma disconnectAll_immediate_witness :
  fst (disconnectAll resolve_embedded memory_registry) = Ok (SettlesAt 0 (Ok [tt; tt])) ∧
  fst (disconnectAll resolve_embedded (snd (disconnectAll resolve_embedded memory_registry))) =
    Ok (SettlesAt 0 (Ok [])).
Proof.
  exact (disconnectAll_immediate resolve_embedded memory_registry ltac:(repeat constructor)).
Defined.

(** Parameters without an id. *)
Lemma missing_id_witness :
  let params : Obj := {[ "name" := VStr "bob" ]} in
  let w := connected_world [row "A" "alice"] in
  resolveEntities cfg svc resolve_adapter defaults_flat 1 VNull params plain w =
    (Thrown (MissingId params), w) ∧
  updateEntity cfg svc resolve_adapter defaults_flat 1 VNull params plain w =
    (Thrown (MissingId params), w) ∧
  replaceEntity cfg svc resolve_adapter defaults_flat 1 VNull params plain w =
    (Thrown (MissingId params), w) ∧
  removeEntity cfg svc resolve_adapter defaults_flat 1 VNull params plain w =
    (Thrown (MissingId params), w).
Proof.
  intros params w.
  exact (missing_id cfg svc resolve_adapter defaults_flat 1 VNull params plain w eq_refl).
Defined.

(** A hard delete with a secure id: the check and the delete both use the
    decoded id ["A"]. *)
Lemma write_targets_checked_entity_witness :
  let params : Obj := {[ "id" := VStr "sA" ]} in
  let w := connected_world [row "A" "alice"] in
  ∃ a fparams q evs,
    trace (snd (removeEntity cfg svc_secure resolve_adapter defaults_flat 1 VNull params plain w))
      = trace w ++ evs ∧
    EvFind a fparams ∈ evs ∧
    fparams !! "query" = Some (VObj q) ∧
    q !! "_id" = Some (VStr "A") ∧
    EvRemoveById a (VStr "A") ∈ evs.
Proof.
  intros params w.
  exact (proj2 (proj2 (write_targets_checked_entity cfg svc_secure resolve_adapter defaults_flat
                         1 VNull params plain w
                         (snd (removeEntity cfg svc_secure resolve_adapter defaults_flat 1 VNull
                                 params plain w))
                         (VStr "sA") eq_refl (or_introl eq_refl))) eq_refl).
Defined.

(** A create call with caching on: the broadcast and the hook close the
    trace, with the transformed entity. *)
Lemma change_notifies_last_witness :
  let w := connected_world [] in
  ∃ pre,
    trace (snd (createEntity cfg_cached svc resolve_adapter resolve_rest 1 VNull
                  {[ "name" := VStr "bob"; "age" := VNum (Int 7) ]} plain w))
      = trace w ++ pre ++ [EvBroadcast "cache.clean.posts";
                           EvEntityChanged "create" (VObj {[ "name" := VStr "bob" ]})] ∧
    Forall is_quiet pre.
Proof.
  intros w.
  exact (proj1 (proj2 (proj2 (change_notifies_last cfg_cached svc resolve_adapter defaults_flat
                                resolve_rest 1 VNull plain)))
           {[ "name" := VStr "bob"; "age" := VNum (Int 7) ]} w
           (VObj {[ "name" := VStr "bob" ]})
           (snd (createEntity cfg_cached svc resolve_adapter resolve_rest 1 VNull
                   {[ "name" := VStr "bob"; "age" := VNum (Int 7) ]} plain w))
           eq_refl).
Defined.

(** An update that the validator refuses notifies nobody; an update
    whose hook throws fails with the error of the hook, after the write,
    the broadcast and the call of the hook. *)
Lemma change_failure_notification_witness :
  let params : Obj := {[ "id" := VStr "A"; "name" := VStr "bob" ]} in
  let w := connected_world [row "A" "alice"] in
  let refused := updateEntity cfg_cached svc_strict resolve_adapter defaults_flat 1 VNull
                   params plain w in
  let hooked := updateEntity cfg_cached svc_hooked resolve_adapter defaults_flat 1 VNull
                  params plain w in
  fst refused = Thrown (ValidationFailed (VStr "update")) ∧
  (∃ pre, Forall is_quiet pre ∧
     (trace (snd refused) = trace w ++ pre ∨
      ∃ data e evs,
        fst refused = Thrown e ∧ trace (snd refused) = trace w ++ pre ++ evs ∧
        notification_failed cfg_cached svc_strict "update" VNull data e evs)) ∧
  fst hooked = Thrown (AdapterFailed (VStr "update")) ∧
  (∃ pre, Forall is_quiet pre ∧
     (trace (snd hooked) = trace w ++ pre ∨
      ∃ data e evs,
        fst hooked = Thrown e ∧ trace (snd hooked) = trace w ++ pre ++ evs ∧
        notification_failed cfg_cached svc_hooked "update" VNull data e evs)).
Proof.
  intros params w refused hooked.
  split; [reflexivity|]. split; [|split; [reflexivity|]].
  - exact (proj1 (change_failure_notification cfg_cached svc_strict resolve_adapter
                    defaults_flat resolve_rest 1 VNull plain)
             params w (fst refused) (snd refused) eq_refl (fun v H => ltac:(discriminate H))).
  - exact (proj1 (change_failure_notification cfg_cached svc_hooked resolve_adapter
                    defaults_flat resolve_rest 1 VNull plain)
             params w (fst hooked) (snd hooked) eq_refl (fun v H => ltac:(discriminate H))).
Defined.

(** Tenant ["t1"] removes its row ["A"]; the row ["A"] of tenant ["t2"]
    is still there. *)
Lemma writes_stay_in_tenant_witness :
  let r := removeEntity cfg svc_tenants resolve_adapter defaults_flat 1 (VStr "t1")
             {[ "id" := VStr "A" ]} plain two_tenants in
  fst r = Returned (VStr "A") ∧
  stores (snd r) !! 0%nat = Some [] ∧
  stores (snd r) !! 1%nat = stores two_tenants !! 1%nat.
Proof.
  intros r. split; [reflexivity|]. split; [reflexivity|].
  exact (proj2 (proj1 (proj2 (proj2 (writes_stay_in_tenant cfg svc_tenants resolve_adapter
                                       defaults_flat resolve_rest 1 (VStr "t1") plain)))
                  {[ "id" := VStr "A" ]} 1%nat two_tenants (fst r) (snd r) eq_refl)
           (fun a Ha => ltac:(vm_compute in Ha; injection Ha as <-; discriminate))).
Defined.

(** A payload without a name, alone and in a batch. *)
Lemma create_rejected_by_validation_witness :
  let w := connected_world [] in
  let bob : Obj := {[ "name" := VStr "bob" ]} in
  let anonymous : Obj := {[ "age" := VNum (Int 7) ]} in
  createEntity cfg_cached svc_named resolve_adapter resolve_rest 1 VNull anonymous plain w =
    (Thrown (ValidationFailed (VStr "name")), log_event (EvValidate "create" anonymous) w) ∧
  ∃ e' bad w',
    createEntities cfg_cached svc_named resolve_adapter resolve_rest 1 VNull
      [bob; anonymous; bob] plain w = (Thrown e', w') ∧
    bad ∈ [bob; anonymous; bob] ∧
    validateParams svc_named VNull bad "create" None = Err e' ∧
    adapters w' = adapters w ∧ stores w' = stores w ∧
    trace w' = trace w ++ List.map (EvValidate "create") [bob; anonymous; bob].
Proof.
  intros w bob anonymous.
  pose proof (create_rejected_by_validation cfg_cached svc_named resolve_adapter resolve_rest
                1 VNull plain w) as [Hone Hmany].
  split.
  - exact (Hone anonymous (ValidationFailed (VStr "name")) eq_refl).
  - exact (Hmany [bob; anonymous; bob] anonymous (ValidationFailed (VStr "name"))
             ltac:(apply list_elem_of_further, list_elem_of_here) eq_refl).
Defined.


(** The trace of that second call: [find] is asked for all rows. *)
Example findEntities_without_limit :
  trace (snd (findEntities cfg svc resolve_adapter no_json defaults_flat 1 VNull
                {[ "sort" := VStr "name" ]} plain (world_with [row "A" "alice"])))
  = [EvCreate 0 "default"; EvConnect 0; EvConnectAttempt 0 0;
     EvFind 0 {[ "sort" := VArr [VStr "name"] ]}].
Proof. vm_compute. reflexivity. Qed.

(** An update whose hook throws: the row is written, the cache-cleaning
    event is broadcast, the hook is called, and the call fails. *)
Example updateEntity_hook_throws :
  let r := updateEntity cfg_cached svc_hooked resolve_adapter defaults_flat 1 VNull
             {[ "id" := VStr "A"; "name" := VStr "bob" ]} plain
             (connected_world [row "A" "alice"]) in
  fst r = Thrown (AdapterFailed (VStr "update")) ∧
  trace (snd r)
  = [EvFind 0 (by_id {[ "id" := VStr "A"; "name" := VStr "bob" ]} (VStr "A"));
     EvValidate "update" {[ "id" := VStr "A"; "name" := VStr "bob" ]};
     EvUpdateById 0 (VStr "A") {[ "name" := VStr "bob" ]} (Some false);
     EvBroadcast "cache.clean.posts";
     EvEntityChanged "update" (VObj {[ "name" := VStr "bob" ]})].
Proof. split; vm_compute; reflexivity. Qed.

(** Clearing the rows of a connected adapter adds nothing to the trace. *)
Lemma count_findOne_clear_unannounced_witness :
  let w := connected_world [row "A" "alice"; row "B" "bob"] in
  let r := clearEntities cfg_cached svc resolve_adapter resolve_rest 1 VNull VUndefined w in
  fst r = Returned (VNum (Int 2)) ∧
  ∃ evs, trace (snd r) = trace w ++ evs ∧ Forall (fun ev => is_connect_event ev = true) evs.
Proof.
  intros w r. split; [reflexivity|].
  exact (proj2 (proj2 (count_findOne_clear_unannounced cfg_cached svc resolve_adapter no_json
                         defaults_flat resolve_rest 1 VNull plain))
           VUndefined w (fst r) (snd r) eq_refl).
Defined.


(** Two contexts of the single-tenant service share the adapter object. *)
Lemma default_single_tenant_witness :
  let w1 := snd (getAdapter cfg svc resolve_adapter 1 (VStr "t1") empty_world) in
  tenantKey cfg svc (VStr "t1") = "default" ∧
  getAdapter cfg svc resolve_adapter 0 (VStr "t2") w1 = (Returned mem0, w1).
Proof.
  intros w1.
  exact (default_single_tenant cfg svc resolve_adapter 1 0 (VStr "t1") (VStr "t2") empty_world
           w1 mem0 (fun c => eq_refl) eq_refl).
Defined.

